(** * mtuq: CAP-style waveform misfit with time-shift correction

    A shallow embedding of [mtuq/util/math.py] ([correlate]) and of
    [mtuq/misfit/cap.py] ([Misfit.__init__], [Misfit.__call__]).

    Sample values, sampling intervals, weights and time shifts are Python
    floats in the source.  They are modelled as exact rationals ([Q]), so
    every statement below is about the arithmetic the code asks for, not
    about the rounding or overflow of binary64: where the code would
    overflow to [inf], yield [nan] or have numpy issue a [RuntimeWarning],
    the model has a rational number and no warning, and no statement
    below says that a value of the code is finite.  The exceptions of
    Python's own float operations ([ZeroDivisionError] of [/] and of
    [**]) are modelled.  The float power operator [**] is not
    rational-valued in general; it is a variable of the sections that use
    it.

    [int(round(x))] rounds halves to the even integer, as Python 3 does;
    no statement below depends on how halves are rounded.

    [numpy] and [scipy] are outside the repository.  [np.correlate],
    [scipy.signal.fftconvolve], [np.pad], [np.zeros], [argmax], slicing and
    broadcasting are modelled by their documented results on
    one-dimensional arrays. *)

From Stdlib Require Import String Ascii.
From Stdlib Require Import List ZArith QArith Qabs Qround.
From Stdlib Require Import Lia Bool Arith Setoid Morphisms.
From Stdlib Require Import Permutation Lqa.
Import ListNotations.

Open Scope Q_scope.

(** ** Exceptions and results *)

Inductive exn : Type :=
| DataShapeException      (* the bare [Exception] of cap.py, line 89 *)
| NotImplementedError
| AssertionError
| IndexError
| AttributeError
| ValueError
| ZeroDivisionError.

Inductive result (A : Type) : Type :=
| Ok (a : A)
| Raise (e : exn).

Arguments Ok {A} a.
Arguments Raise {A} e.

Definition rbind {A B} (r : result A) (k : A -> result B) : result B :=
  match r with
  | Ok a => k a
  | Raise e => Raise e
  end.

(** ** One-dimensional arrays *)

Module NumPy.

Definition arr : Type := list Q.

Definition size (a : arr) : nat := length a.

(** [np.zeros(n)]; a negative dimension is a [ValueError]. *)
Definition zeros (n : Z) : result arr :=
  if (n <? 0)%Z then Raise ValueError else Ok (repeat 0 (Z.to_nat n)).

(** [np.sum(a)] *)
Definition sum (a : arr) : Q := fold_right Qplus 0 a.

(** [a[::-1]] *)
Definition reversed (a : arr) : arr := rev a.

(** [np.pad(a, n, 'constant')]: [n] zeros before and after. *)
Definition pad (a : arr) (n : Z) : result arr :=
  if (n <? 0)%Z then Raise ValueError
  else Ok (repeat 0 (Z.to_nat n) ++ a ++ repeat 0 (Z.to_nat n)).

(** [a.argmax()]: the first index that holds the maximum. *)
Fixpoint argmax_from (best : Q) (besti : nat) (i : nat) (a : arr) : nat :=
  match a with
  | [] => besti
  | x :: a' =>
      if Qlt_le_dec best x
      then argmax_from x i (S i) a'
      else argmax_from best besti (S i) a'
  end.

Definition argmax (a : arr) : nat :=
  match a with
  | [] => O
  | x :: a' => argmax_from x O 1%nat a'
  end.

(** Normalisation of one bound of a slice [a[i:j]] of a sequence of
    length [n]: negative bounds count from the end, and all bounds are
    clipped to [0..n]. *)
Definition slice_bound (i : Z) (n : nat) : nat :=
  if (i <? 0)%Z then Z.to_nat (Z.max 0 (i + Z.of_nat n))
  else Nat.min (Z.to_nat i) n.

(** [a[start:stop]] *)
Definition slice (a : arr) (start stop : Z) : arr :=
  let lo := slice_bound start (length a) in
  let hi := slice_bound stop (length a) in
  firstn (hi - lo) (skipn lo a).

(** [a - b] with broadcasting of a length-one operand. *)
Definition sub (a b : arr) : result arr :=
  if (length a =? length b)%nat
  then Ok (map (fun xy => fst xy - snd xy) (combine a b))
  else match a, b with
       | [x], _ => Ok (map (fun y => x - y) b)
       | _, [y] => Ok (map (fun x => x - y) a)
       | _, _ => Raise ValueError
       end.

(** [r += x] in place: [x] must broadcast to the shape of [r]. *)
Definition iadd (r x : arr) : result arr :=
  if (length x =? length r)%nat
  then Ok (map (fun xy => fst xy + snd xy) (combine r x))
  else match x with
       | [y] => Ok (map (fun z => z + y) r)
       | _ => Raise ValueError
       end.

(** The inner product of [v] with the window of [a] that starts at
    offset [k]: sum over [n < len(v)] of [a[n+k] * v[n]]. *)
Definition dot_at (a v : arr) (k : nat) : Q :=
  sum (map (fun n => nth (n + k) a 0 * nth n v 0) (seq 0 (length v))).

(** [np.correlate(a, v, 'valid')].  Empty arguments are rejected.  When
    [a] is the shorter array the arguments are exchanged and the result
    is reversed, as numpy does. *)
Definition correlate_valid (a v : arr) : result arr :=
  let n1 := length a in
  let n2 := length v in
  if (n1 =? 0)%nat || (n2 =? 0)%nat then Raise ValueError
  else if (n1 <? n2)%nat
       then Ok (rev (map (dot_at v a) (seq 0 (n2 - n1 + 1))))
       else Ok (map (dot_at a v) (seq 0 (n1 - n2 + 1))).

End NumPy.

Module SciPy.

Import NumPy.

(** One term of the linear convolution: [a[i] * b[m-i]] where [b] has
    a sample at [m-i], zero elsewhere. *)
Definition conv_term (a b : arr) (m i : nat) : Q :=
  if (i <=? m)%nat && (m - i <? length b)%nat
  then nth i a 0 * nth (m - i) b 0
  else 0.

(** The full linear convolution of [a] and [b], of length
    [len(a) + len(b) - 1]: what the product of the transforms yields. *)
Definition convolve_full (a b : arr) : arr :=
  map (fun m => sum (map (conv_term a b m) (seq 0 (length a))))
      (seq 0 (length a + length b - 1)).

(** [_centered(arr, newsize)] *)
Definition centered (a : arr) (newsize : nat) : arr :=
  let startind := ((length a - newsize) / 2)%nat in
  firstn newsize (skipn startind a).

(** [fftconvolve(in1, in2, 'valid')]: the part of the convolution that
    does not rely on zero padding.  Empty inputs yield an empty array. *)
Definition fftconvolve_valid (in1 in2 : arr) : arr :=
  let n1 := length in1 in
  let n2 := length in2 in
  if (n1 =? 0)%nat || (n2 =? 0)%nat then []
  else centered (convolve_full in1 in2) (Nat.max n1 n2 - Nat.min n1 n2 + 1).

End SciPy.

(** ** mtuq/util/math.py *)

Module MtuqMath.

Import NumPy SciPy.

Inductive algorithm : Type :=
| FrequencyDomain
| TimeDomain.

(** The test [n1>2000 or n2-n1>200] of [correlate]. *)
Definition correlate_algorithm (n1 n2 : nat) : algorithm :=
  if ((2000 <? Z.of_nat n1) || (200 <? Z.of_nat n2 - Z.of_nat n1))%Z
  then FrequencyDomain
  else TimeDomain.

Definition correlate_frequency (v1 v2 : arr) : result arr :=
  Ok (fftconvolve_valid v1 (reversed v2)).

Definition correlate_time (v1 v2 : arr) : result arr :=
  correlate_valid v1 v2.

(** [correlate(v1, v2)] *)
Definition correlate (v1 v2 : arr) : result arr :=
  match correlate_algorithm (length v1) (length v2) with
  | FrequencyDomain => correlate_frequency v1 v2
  | TimeDomain => correlate_time v1 v2
  end.

(** The contiguous window of [v2] of the length of [v1] that starts at
    offset [o], and its inner product with [v1]. *)
Definition window (v2 : arr) (o n : nat) : arr := firstn n (skipn o v2).

Definition inner (a b : arr) : Q :=
  sum (map (fun xy => fst xy * snd xy) (combine a b)).

End MtuqMath.

(** ** mtuq/misfit/cap.py: data model *)

Module Cap.

Import NumPy SciPy.

(** [trace.stats]: the sampling interval and the channel code. *)
Record Stats : Type := mkStats {
  delta : Q;
  channel : string
}.

(** A waveform record.  [weight] and the five derived fields are
    attributes that a record may lack ([None]). *)
Record Trace : Type := mkTrace {
  data : arr;
  stats : Stats;
  weight : option Q;
  time_shift : option Q;
  time_shift_group : option string;
  start : option Z;
  stop : option Z;
  sum_residuals : option Q
}.

(** The records of one station, with the cached [time_shift_mode]. *)
Record Dataset : Type := mkDataset {
  traces : list Trace;
  time_shift_mode : option Z
}.

Record Misfit : Type := mkMisfit {
  order : Q;
  time_shift_max : Q;
  time_shift_groups : list string;
  polarity_weight : Q
}.

(** What one call leaves behind: the value or the exception, the station
    pairs as mutated, and the messages that the evaluator has passed to
    [warnings.warn]. *)
Record Outcome : Type := mkOutcome {
  returned : result Q;
  stations_after : list (Dataset * Dataset);
  warned : list string
}.

Definition set_data (t : Trace) (a : arr) : Trace :=
  mkTrace a (stats t) (weight t) (time_shift t) (time_shift_group t)
          (start t) (stop t) (sum_residuals t).

Definition set_alignment (ts : Q) (group : string) (i0 i1 : Z) (t : Trace) : Trace :=
  mkTrace (data t) (stats t) (weight t) (Some ts) (Some group)
          (Some i0) (Some i1) (sum_residuals t).

Definition set_sum_residuals (x : Q) (t : Trace) : Trace :=
  mkTrace (data t) (stats t) (weight t) (time_shift t) (time_shift_group t)
          (start t) (stop t) (Some x).

Definition set_traces (ds : Dataset) (ts : list Trace) : Dataset :=
  mkDataset ts (time_shift_mode ds).

Definition set_time_shift_mode (ds : Dataset) (m : Z) : Dataset :=
  mkDataset (traces ds) (Some m).

Fixpoint update_nth {A : Type} (i : nat) (g : A -> A) (l : list A) : list A :=
  match l, i with
  | [], _ => []
  | x :: l', O => g x :: l'
  | x :: l', S i' => x :: update_nth i' g l'
  end.

(** ** Strings and scalars of Python *)

(** [c.upper()] on one ASCII character. *)
Definition upper (c : ascii) : ascii :=
  let n := nat_of_ascii c in
  if ((97 <=? n) && (n <=? 122))%nat then ascii_of_nat (n - 32) else c.

(** [s[-1]] *)
Fixpoint last_char (s : string) : option ascii :=
  match s with
  | EmptyString => None
  | String c EmptyString => Some c
  | String _ s' => last_char s'
  end.

(** [c in group] for a one-character string [c]. *)
Fixpoint contains (group : string) (c : ascii) : bool :=
  match group with
  | EmptyString => false
  | String c' group' => Ascii.eqb c c' || contains group' c
  end.

(** [x / y] on floats. *)
Definition py_div (x y : Q) : result Q :=
  if Qeq_bool y 0 then Raise ZeroDivisionError else Ok (x / y).

(** [int(round(x))]: to the nearest integer, halves to the even one. *)
Definition py_round (x : Q) : Z :=
  let f := Qfloor x in
  match Qcompare (x - inject_Z f) (1 # 2) with
  | Lt => f
  | Gt => (f + 1)%Z
  | Eq => if Z.even f then f else (f + 1)%Z
  end.

(** ** [Misfit.__init__] *)

Definition is_component (c : ascii) : bool :=
  contains "ZRT" c.

Fixpoint all_components (group : string) : bool :=
  match group with
  | EmptyString => true
  | String c group' => is_component c && all_components group'
  end.

Definition init (norm_order polarity_weight : Q)
    (time_shift_groups : list string) (time_shift_max : Q) : result Misfit :=
  if forallb all_components time_shift_groups
  then Ok (mkMisfit norm_order time_shift_max time_shift_groups polarity_weight)
  else Raise AssertionError.

(** ** The state of one pass of the station loop *)

(** [obs] is [d], [syn] is [s]; both are mutated in place, and what was
    written stays written when an exception leaves the loop. *)
Record Frame : Type := mkFrame {
  obs : Dataset;
  syn : Dataset;
  sum_misfit : Q;
  warnings : list string
}.

Definition M (A : Type) : Type := Frame -> Frame * result A.

Definition ret {A : Type} (a : A) : M A := fun f => (f, Ok a).

Definition raise {A : Type} (e : exn) : M A := fun f => (f, Raise e).

Definition lift {A : Type} (r : result A) : M A := fun f => (f, r).

Definition bind {A B : Type} (m : M A) (k : A -> M B) : M B :=
  fun f =>
    match m f with
    | (f', Ok a) => k a f'
    | (f', Raise e) => (f', Raise e)
    end.

Notation "x <- m ;; k" := (bind m (fun x => k))
  (at level 61, m at next level, right associativity).
Notation "m ;;; k" := (bind m (fun _ => k))
  (at level 61, right associativity).

Definition get : M Frame := fun f => (f, Ok f).

Definition item (l : list Trace) (i : nat) : result Trace :=
  match nth_error l i with
  | Some t => Ok t
  | None => Raise IndexError
  end.

Definition get_d (i : nat) : M Trace :=
  fun f => (f, item (traces (obs f)) i).

Definition get_s (i : nat) : M Trace :=
  fun f => (f, item (traces (syn f)) i).

Definition modify_d (i : nat) (g : Trace -> Trace) : M unit :=
  fun f =>
    match nth_error (traces (obs f)) i with
    | Some _ =>
        (mkFrame (set_traces (obs f) (update_nth i g (traces (obs f))))
                 (syn f) (sum_misfit f) (warnings f), Ok tt)
    | None => (f, Raise IndexError)
    end.

Definition modify_s (i : nat) (g : Trace -> Trace) : M unit :=
  fun f =>
    match nth_error (traces (syn f)) i with
    | Some _ =>
        (mkFrame (obs f)
                 (set_traces (syn f) (update_nth i g (traces (syn f))))
                 (sum_misfit f) (warnings f), Ok tt)
    | None => (f, Raise IndexError)
    end.

Definition put_s_traces (ts : list Trace) : M unit :=
  fun f => (mkFrame (obs f) (set_traces (syn f) ts) (sum_misfit f) (warnings f), Ok tt).

Definition put_mode (m : Z) : M unit :=
  fun f => (mkFrame (set_time_shift_mode (obs f) m) (syn f) (sum_misfit f) (warnings f), Ok tt).

Definition add_misfit (x : Q) : M unit :=
  fun f => (mkFrame (obs f) (syn f) (sum_misfit f + x) (warnings f), Ok tt).

Definition warn (msg : string) : M unit :=
  fun f => (mkFrame (obs f) (syn f) (sum_misfit f) (warnings f ++ [msg]), Ok tt).

Fixpoint for_each {A : Type} (l : list A) (body : A -> M unit) : M unit :=
  match l with
  | [] => ret tt
  | x :: l' => body x ;;; for_each l' body
  end.

Definition padding_warning : string :=
  "For greater speed, pad synthetics in advance by by setting process_data.padding_length equal to misfit.time_shift_max".

(** ** [Misfit.__call__] *)

Section Call.

(** [power x y] is [x ** y]. *)
Variable power : Q -> Q -> Q.

(** *** Part 1: prepare for the time-shift correction *)

(** [for trace in s: trace.data = np.pad(trace.data, npts_padding,
    'constant')].  [np.pad] can only fail on the sign of the width, so it
    fails on the first record or on none. *)
Fixpoint pad_traces (ts : list Trace) (n : Z) : result (list Trace) :=
  match ts with
  | [] => Ok []
  | t :: ts' =>
      rbind (pad (data t) n) (fun a =>
      rbind (pad_traces ts' n) (fun r => Ok (set_data t a :: r)))
  end.

(** Lines 65-91.  Yields [npts], [dt] and [npts_padding]. *)
Definition prepare (self : Misfit) : M (Z * Q * Z) :=
  d0 <- get_d 0 ;;
  let npts := Z.of_nat (size (data d0)) in
  let dt := delta (stats d0) in
  let npts_dat := npts in
  s0 <- get_s 0 ;;
  let npts_syn := Z.of_nat (size (data s0)) in
  q <- lift (py_div (time_shift_max self) dt) ;;
  let npts_padding := py_round q in
  (if (npts_syn - npts_dat =? 2 * npts_padding)%Z then ret tt
   else if (npts_dat =? npts_syn)%Z then
     warn padding_warning ;;;
     f <- get ;;
     ts <- lift (pad_traces (traces (syn f)) npts_padding) ;;
     put_s_traces ts
   else raise DataShapeException) ;;;
  ret (npts, dt, npts_padding).

(** Lines 96-105: [0] no shift, [1] frequency domain, [2] time domain. *)
Definition choose_mode (npts npts_padding : Z) : Z :=
  if (npts_padding =? 0)%Z then 0%Z
  else if ((2000 <? npts) || (200 <? npts_padding))%Z then 1%Z
  else 2%Z.

(** Lines 93-105: [if not hasattr(d, 'time_shift_mode'): ...] *)
Definition select_mode (npts npts_padding : Z) : M unit :=
  f <- get ;;
  match time_shift_mode (obs f) with
  | Some _ => ret tt
  | None => put_mode (choose_mode npts npts_padding)
  end.

(** *** Part 2: the lag search and the residuals of one group *)

(** [hasattr(d[_i], 'weight') and d[_i].weight == 0.] *)
Definition zero_weight (t : Trace) : bool :=
  match weight t with
  | Some w => Qeq_bool w 0
  | None => false
  end.

(** [d[_i].stats.channel[-1].upper()] *)
Definition component (t : Trace) : result ascii :=
  match last_char (channel (stats t)) with
  | Some c => Ok (upper c)
  | None => Raise IndexError
  end.

(** The body of the loop of lines 120-139 at index [i]; [acc] holds
    [result] and [_indices].  Nothing is written to [d] or [s] here. *)
Definition accumulate (dd ss : list Trace) (mode : option Z) (group : string)
    (acc : arr * list nat) (i : nat) : result (arr * list nat) :=
  rbind (item dd i) (fun di =>
  if zero_weight di then Ok acc
  else
    rbind (component di) (fun c =>
    if contains group c then
      let indices := (snd acc ++ [i])%list in
      match mode with
      | None => Raise AttributeError
      | Some m =>
          if (m =? 0)%Z then Ok (fst acc, indices)
          else if (m =? 1)%Z then
            rbind (item ss i) (fun si =>
            rbind (iadd (fst acc)
                        (fftconvolve_valid (data di) (reversed (data si))))
                  (fun r => Ok (r, indices)))
          else if (m =? 2)%Z then
            rbind (item ss i) (fun si =>
            rbind (correlate_valid (data di) (data si)) (fun x =>
            rbind (iadd (fst acc) x) (fun r => Ok (r, indices))))
          else Ok (fst acc, indices)
      end
    else Ok acc)).

Fixpoint lag_search (dd ss : list Trace) (mode : option Z) (group : string)
    (acc : arr * list nat) (range : list nat) : result (arr * list nat) :=
  match range with
  | [] => Ok acc
  | i :: range' =>
      rbind (accumulate dd ss mode group acc i) (fun acc' =>
      lag_search dd ss mode group acc' range')
  end.

(** Lines 142-148: the lag as a time, and the slice of the synthetics
    that it selects. *)
Definition lag_time_shift (argmax npts_padding : Z) (dt : Q) : Q :=
  inject_Z (argmax - npts_padding) * dt.

Definition slice_start (npts_padding argmax : Z) : Z :=
  (2 * npts_padding - argmax)%Z.

Definition slice_stop (npts_padding argmax npts : Z) : Z :=
  (2 * npts_padding - argmax + npts)%Z.

(** Lines 157-160: [np.sum(np.abs(s.data[start:stop] - d.data)**p)*dt],
    in exact arithmetic: numpy does not raise here, and where it would
    overflow (with a [RuntimeWarning]) the model has the rational value. *)
Definition record_residuals (p dt : Q) (i0 i1 : Z) (si di : Trace) : result Q :=
  rbind (sub (slice (data si) i0 i1) (data di)) (fun r =>
  Ok (sum (map (fun x => power (Qabs x) p) r) * dt)).

(** The body of the loop of lines 150-161 at index [i].  The four
    assignments of lines 151-154 are one update: only the first, which
    looks [s[_i]] up, can fail. *)
Definition align (p dt ts : Q) (group : string) (i0 i1 : Z) (i : nat) : M unit :=
  modify_s i (set_alignment ts group i0 i1) ;;;
  si <- get_s i ;;
  di <- get_d i ;;
  sr <- lift (record_residuals p dt i0 i1 si di) ;;
  modify_d i (set_sum_residuals sr) ;;;
  di' <- get_d i ;;
  match weight di' with
  | None => raise AttributeError
  | Some w => add_misfit (w * sr)
  end.

(** Lines 113-161 for one [group]. *)
Definition shift_group (self : Misfit) (npts : Z) (dt : Q) (npts_padding : Z)
    (group : string) : M unit :=
  result0 <- lift (zeros (2 * npts_padding + 1)) ;;
  f <- get ;;
  found <- lift (lag_search (traces (obs f)) (traces (syn f))
                            (time_shift_mode (obs f)) group (result0, [])
                            (seq 0 (length (traces (obs f))))) ;;
  let argmax := Z.of_nat (argmax (fst found)) in
  for_each (snd found)
    (align (order self) dt (lag_time_shift argmax npts_padding dt) group
           (slice_start npts_padding argmax)
           (slice_stop npts_padding argmax npts)).

(** *** Part 3: polarity *)

Definition polarity (self : Misfit) : M unit :=
  if Qlt_le_dec 0 (polarity_weight self) then raise NotImplementedError
  else ret tt.

(** *** The station loop and the result *)

(** Lines 64-161: parts 1 and 2 for one station. *)
Definition waveforms (self : Misfit) : M unit :=
  g <- prepare self ;;
  let npts := fst (fst g) in
  let dt := snd (fst g) in
  let npts_padding := snd g in
  select_mode npts npts_padding ;;;
  for_each (time_shift_groups self) (shift_group self npts dt npts_padding).

(** Lines 64-170: the body of [for d, s in zip(data, synthetics)]. *)
Definition station (self : Misfit) : M unit :=
  waveforms self ;;; polarity self.

Fixpoint station_loop (self : Misfit) (pairs : list (Dataset * Dataset))
    (total : Q) (w : list string) : Outcome :=
  match pairs with
  | [] => mkOutcome (Ok total) [] w
  | (d, s) :: rest =>
      match station self (mkFrame d s total w) with
      | (f, Ok _) =>
          let o := station_loop self rest (sum_misfit f) (warnings f) in
          mkOutcome (returned o) ((obs f, syn f) :: stations_after o) (warned o)
      | (f, Raise e) =>
          mkOutcome (Raise e) ((obs f, syn f) :: rest) (warnings f)
      end
  end.

(** The test that puts index [i] into [_indices] for [group] (lines
    122-130): the weight is not zero and the component is in the group. *)
Definition in_indices (d : Dataset) (group : string) (i : nat) : bool :=
  match nth_error (traces d) i with
  | Some di =>
      negb (zero_weight di) &&
      match component di with
      | Ok c => contains group c
      | Raise _ => false
      end
  | None => false
  end.

(** Whether line 161 runs in a loop that reaches line 173: it runs once
    for every index in [_indices], for every group of every station. *)
Definition accumulates (self : Misfit) (pairs : list (Dataset * Dataset)) : bool :=
  existsb (fun ds =>
    existsb (fun group =>
      existsb (in_indices (fst ds) group) (seq 0 (length (traces (fst ds)))))
      (time_shift_groups self))
    pairs.

(** [sum_misfit**e] at line 173.  [sum_misfit] is the Python float [0.]
    of line 62 until line 161 adds a numpy value to it ([numpy_total]).
    On the Python float zero a negative exponent is a
    [ZeroDivisionError]; numpy does not raise. *)
Definition power_of_total (numpy_total : bool) (total e : Q) : result Q :=
  if negb numpy_total && negb (Qle_bool 0 e)
  then Raise ZeroDivisionError
  else Ok (power total e).

(** [Misfit.__call__(data, greens, mt)], where [synthetics] is what
    [greens.get_synthetics(mt)] returned. *)
Definition call (self : Misfit) (data synthetics : list Dataset) : Outcome :=
  let o := station_loop self (combine data synthetics) 0 [] in
  mkOutcome
    (rbind (returned o) (fun total =>
     rbind (py_div 1 (order self)) (fun e =>
     power_of_total (accumulates self (combine data synthetics)) total e)))
    (stations_after o) (warned o).

End Call.

(** The power operator at norm order one: [x ** 1 = x] and
    [x ** (1./1) = x].  It instantiates [power] in the examples. *)
Definition power_order1 (x y : Q) : Q := x.

End Cap.

(** ** The misfit as the specification words it

    These definitions follow the description of the evaluator, not the
    code: they are what the theorems compare [Cap.call] with. *)

Module CapSpec.

Import NumPy MtuqMath Cap.

Definition blank : Trace :=
  mkTrace [] (mkStats 0 EmptyString) None None None None None None.

Inductive mode : Type :=
| NoShift
| InFrequencyDomain
| InTimeDomain.

(** The cached flag of the code, read as a mode. *)
Definition mode_of_flag (m : Z) : mode :=
  if (m =? 1)%Z then InFrequencyDomain
  else if (m =? 2)%Z then InTimeDomain
  else NoShift.

Definition spec_choose_mode (npts_dat npts_padding : Z) : mode :=
  if (npts_padding =? 0)%Z then NoShift
  else if ((npts_dat >? 2000) || (npts_padding >? 200))%Z then InFrequencyDomain
  else InTimeDomain.

Section Spec.

Variable power : Q -> Q -> Q.
Variable self : Misfit.

Definition spec_npts (d : Dataset) : nat :=
  length (data (nth 0 (traces d) blank)).

Definition spec_dt (d : Dataset) : Q :=
  delta (stats (nth 0 (traces d) blank)).

Definition spec_npts_padding (d : Dataset) : Z :=
  py_round (time_shift_max self / spec_dt d).

Definition spec_zero_pad (n : nat) (t : Trace) : Trace :=
  set_data t (repeat 0 n ++ data t ++ repeat 0 n)%list.

(** The synthetic records as aligned against: as given when already
    padded, zero-padded on both sides otherwise. *)
Definition spec_synthetics (d s : Dataset) : list Trace :=
  let npts_syn := length (data (nth 0 (traces s) blank)) in
  if (Z.of_nat npts_syn =? Z.of_nat (spec_npts d) + 2 * spec_npts_padding d)%Z
  then traces s
  else map (spec_zero_pad (Z.to_nat (spec_npts_padding d))) (traces s).

(** The mode in force: the cached decision, or the one taken now. *)
Definition spec_mode (d : Dataset) : mode :=
  match time_shift_mode d with
  | Some m => mode_of_flag m
  | None => spec_choose_mode (Z.of_nat (spec_npts d)) (spec_npts_padding d)
  end.

Definition spec_weight (t : Trace) : Q :=
  match weight t with
  | Some w => w
  | None => 0
  end.

Definition spec_in_group (group : string) (t : Trace) : bool :=
  match last_char (channel (stats t)) with
  | Some c => contains group (upper c)
  | None => false
  end.

(** A record takes part in a group when its weight is not zero and its
    component belongs to the group. *)
Definition spec_contributes (group : string) (t : Trace) : bool :=
  negb (Qeq_bool (spec_weight t) 0) && spec_in_group group t.

Definition spec_members (group : string) (dd : list Trace) : list nat :=
  filter (fun i => spec_contributes group (nth i dd blank)) (seq 0 (length dd)).

(** The correlation of one record with its synthetic record at every lag:
    entry [j] pairs the observed samples with the synthetic samples from
    offset [2*npts_padding - j] on. *)
Definition spec_correlation (padding : nat) (observed synthetic : arr) : arr :=
  map (fun j => inner observed
                  (window synthetic (2 * padding - j) (length observed)))
      (seq 0 (2 * padding + 1)).

Definition spec_add (a b : arr) : arr :=
  map (fun xy => fst xy + snd xy) (combine a b).

Definition spec_profile (m : mode) (padding : nat) (group : string)
    (dd ss : list Trace) : arr :=
  match m with
  | NoShift => repeat 0 (2 * padding + 1)
  | _ =>
      fold_left
        (fun r i => spec_add r (spec_correlation padding
                                  (data (nth i dd blank)) (data (nth i ss blank))))
        (spec_members group dd)
        (repeat 0 (2 * padding + 1))
  end.

(** The optimal lag: the first index that maximises the profile. *)
Definition spec_lag (m : mode) (padding : nat) (group : string)
    (dd ss : list Trace) : nat :=
  argmax (spec_profile m padding group dd ss).

Definition spec_time_shift (lag : nat) (npts_padding : Z) (dt : Q) : Q :=
  inject_Z (Z.of_nat lag - npts_padding) * dt.

Definition spec_start (padding lag : nat) : nat := (2 * padding - lag)%nat.

Definition spec_stop (padding lag npts_dat : nat) : nat :=
  (spec_start padding lag + npts_dat)%nat.

(** [dt] times the sum of [|aligned - observed| ** p]. *)
Definition spec_sum_residuals (dt : Q) (aligned observed : arr) : Q :=
  dt * sum (map (fun xy => power (Qabs (fst xy - snd xy)) (order self))
                (combine aligned observed)).

Definition spec_record_residuals (d : Dataset) (ss : list Trace)
    (group : string) (i : nat) : Q :=
  let padding := Z.to_nat (spec_npts_padding d) in
  let lag := spec_lag (spec_mode d) padding group (traces d) ss in
  spec_sum_residuals (spec_dt d)
    (window (data (nth i ss blank)) (spec_start padding lag) (spec_npts d))
    (data (nth i (traces d) blank)).

Definition spec_group_total (d : Dataset) (ss : list Trace) (group : string) : Q :=
  sum (map (fun i => spec_weight (nth i (traces d) blank)
                     * spec_record_residuals d ss group i)
           (spec_members group (traces d))).

Definition spec_station_total (d s : Dataset) : Q :=
  sum (map (spec_group_total d (spec_synthetics d s)) (time_shift_groups self)).

Definition spec_total (data synthetics : list Dataset) : Q :=
  sum (map (fun ds => spec_station_total (fst ds) (snd ds))
           (combine data synthetics)).

Definition spec_misfit (data synthetics : list Dataset) : Q :=
  power (spec_total data synthetics) (1 / order self).

End Spec.

(** The total as the claim on the misfit value words it: every record
    once, its weight times the [sum_residuals] that the call has left on
    it, over the stations as the call leaves them. *)
Definition claimed_record (t : Trace) : Q :=
  match weight t, sum_residuals t with
  | Some w, Some r => w * r
  | _, _ => 0
  end.

Definition claimed_total (stations : list (Dataset * Dataset)) : Q :=
  sum (map (fun ds => sum (map claimed_record (traces (fst ds)))) stations).

End CapSpec.

(** ** Frames of the station loop: what is kept, what is written *)

Module Frames.

Import NumPy Cap.

(** The fields that the evaluator reads, as opposed to those it writes. *)
Definition same_core (t t' : Trace) : Prop :=
  data t = data t' /\ stats t = stats t' /\ weight t = weight t'.

(** The fields that the synthetic record receives from the evaluator. *)
Definition same_alignment (t t' : Trace) : Prop :=
  time_shift t = time_shift t' /\
  time_shift_group t = time_shift_group t' /\
  start t = start t' /\ stop t = stop t'.

(** What the loops of part 2 may change between two frames: derived
    fields and the running total, nothing that the evaluator reads. *)
Definition frame_step (f f' : Frame) : Prop :=
  time_shift_mode (obs f') = time_shift_mode (obs f) /\
  warnings f' = warnings f /\
  Forall2 same_core (traces (obs f)) (traces (obs f')) /\
  Forall2 same_core (traces (syn f)) (traces (syn f')).

(** What record [i] adds to the running total in the loop of lines
    150-161, read off the frame in which the loop starts. *)
Definition contribution (power : Q -> Q -> Q) (p dt : Q) (i0 i1 : Z)
    (dd ss : list Trace) (i : nat) : Q :=
  match nth_error ss i, nth_error dd i with
  | Some si, Some di =>
      match record_residuals power p dt i0 i1 si di, weight di with
      | Ok sr, Some w => w * sr
      | _, _ => 0
      end
  | _, _ => 0
  end.

(** The test that puts index [i] into [_indices] (lines 122-130). *)
Definition selected (dd : list Trace) (group : string) (i : nat) : bool :=
  match nth_error dd i with
  | Some di =>
      negb (zero_weight di) &&
      match component di with
      | Ok c => contains group c
      | Raise _ => false
      end
  | None => false
  end.

(** The lag index that the search of lines 118-142 finds for a group. *)
Definition group_argmax (dd ss : list Trace) (mode : option Z) (pad : Z)
    (group : string) : Z :=
  match lag_search dd ss mode group (repeat 0 (Z.to_nat (2 * pad + 1)), [])
                   (seq 0 (length dd)) with
  | Ok found => Z.of_nat (argmax (fst found))
  | Raise _ => 0%Z
  end.

(** The last group of the configured list that selects record [i]: the
    one whose alignment the record keeps. *)
Fixpoint last_group (dd : list Trace) (groups : list string) (i : nat)
    : option string :=
  match groups with
  | [] => None
  | g :: gs =>
      match last_group dd gs i with
      | Some g' => Some g'
      | None => if selected dd g i then Some g else None
      end
  end.

(** The running total after the loop of lines 150-161 for one group. *)
Definition group_total (power : Q -> Q -> Q) (p dt : Q) (npts pad : Z)
    (dd ss : list Trace) (mode : option Z) (group : string) (acc : Q) : Q :=
  let am := group_argmax dd ss mode pad group in
  fold_left
    (fun acc i => acc + contribution power p dt (slice_start pad am)
                          (slice_stop pad am npts) dd ss i)
    (filter (selected dd group) (seq 0 (length dd))) acc.

(** Station pair [ds] has become [ds'] by one pass of the loop body,
    entered with some running total and some warnings. *)
Definition visited (power : Q -> Q -> Q) (self : Misfit)
    (ds ds' : Dataset * Dataset) : Prop :=
  exists total w,
    ds' = (obs (fst (station power self (mkFrame (fst ds) (snd ds) total w))),
           syn (fst (station power self (mkFrame (fst ds) (snd ds) total w)))).

(** The same, for a pass that reached the end of the loop body. *)
Definition completed (power : Q -> Q -> Q) (self : Misfit)
    (ds ds' : Dataset * Dataset) : Prop :=
  exists total w f',
    station power self (mkFrame (fst ds) (snd ds) total w) = (f', Ok tt) /\
    ds' = (obs f', syn f').

(** Synthetic record [t'] is [t], or [t] with zeros put on both sides of
    its samples: what part 1 may do to a synthetic record. *)
Definition same_or_padded (t t' : Trace) : Prop :=
  t' = t \/
  exists n, t' = set_data t (repeat 0 n ++ data t ++ repeat 0 n)%list.

(** The records of a station as the data model has them: one sample
    count per side, a weight that is not negative and a sampling interval
    that is positive on every observed record. *)
Definition uniform_length (ts : list Trace) : bool :=
  forallb (fun t => (length (data t) =? length (data (nth 0 ts CapSpec.blank)))%nat) ts.

Definition weighted (t : Trace) : bool :=
  match weight t with
  | Some w => Qle_bool 0 w
  | None => false
  end.

Definition sampled (t : Trace) : bool :=
  negb (Qle_bool (delta (stats t)) 0).

Definition well_formed_station (ds : Dataset * Dataset) : bool :=
  uniform_length (traces (fst ds)) && uniform_length (traces (snd ds)) &&
  forallb weighted (traces (fst ds)) && forallb sampled (traces (fst ds)).

(** A valid configuration: a positive norm order, no polarity term, a
    maximum lag that is not negative. *)
Definition valid_configuration (self : Misfit) : bool :=
  negb (Qle_bool (order self) 0) &&
  Qle_bool (polarity_weight self) 0 &&
  Qle_bool 0 (time_shift_max self).

Definition has_channel (t : Trace) : bool :=
  match last_char (channel (stats t)) with
  | Some _ => true
  | None => false
  end.

(** A valid station: well formed, with at least one record and at least
    one sample, a synthetic record for every observed record, a channel
    code on every observed record, and synthetics that are either padded
    by [2*npts_padding] samples or as long as the data. *)
Definition valid_station (self : Misfit) (ds : Dataset * Dataset) : bool :=
  let npts := CapSpec.spec_npts (fst ds) in
  let npts_syn := length (data (nth 0 (traces (snd ds)) CapSpec.blank)) in
  let npts_padding := CapSpec.spec_npts_padding self (fst ds) in
  well_formed_station ds &&
  (1 <=? length (traces (fst ds)))%nat &&
  (length (traces (fst ds)) <=? length (traces (snd ds)))%nat &&
  forallb has_channel (traces (fst ds)) &&
  (1 <=? npts)%nat &&
  ((Z.of_nat npts_syn - Z.of_nat npts =? 2 * npts_padding)%Z
   || (npts_syn =? npts)%nat).

(** A frame on which part 2 cannot fail. *)
Definition ready (padn npts_n : nat) (f : Frame) : Prop :=
  Forall (fun t => length (data t) = npts_n /\ weighted t = true /\
                   has_channel t = true) (traces (obs f)) /\
  Forall (fun t => length (data t) = (npts_n + 2 * padn)%nat) (traces (syn f)) /\
  (length (traces (obs f)) <= length (traces (syn f)))%nat /\
  (1 <= npts_n)%nat /\
  exists m, time_shift_mode (obs f) = Some m.

End Frames.

(** ** The rest of mtuq/util/math.py *)

Module MtuqLists.

Section Lists.

(** The elements of the lists: any values with a decidable equality. *)
Variable A : Type.
Variable eq_dec : forall x y : A, {x = y} + {x <> y}.

Definition member (x : A) (l : list A) : bool :=
  if in_dec eq_dec x l then true else false.

(** [set(a)]: the elements of [a], each once. *)
Definition set_of (a : list A) : list A := nodup eq_dec a.

(** [x.intersection(y)] on sets. *)
Definition intersection (x y : list A) : list A :=
  filter (fun e => member e y) x.

(** [list_intersect(a, b)], its elements in the order of their first
    occurrence in [a]. *)
Definition list_intersect (a b : list A) : list A :=
  intersection (set_of a) (set_of b).

(** Python does not fix the order in which [list(s)] enumerates a set:
    [l] is a possible value of [list_intersect(a, b)]. *)
Definition list_intersect_returns (a b l : list A) : Prop :=
  Permutation (list_intersect a b) l.

(** [a.index(item)]: the first position of [item], a [ValueError] when
    there is none. *)
Fixpoint index (a : list A) (item : A) : result nat :=
  match a with
  | [] => Raise ValueError
  | y :: a' =>
      if eq_dec item y then Ok O
      else rbind (index a' item) (fun i => Ok (S i))
  end.

(** [[a.index(item) for item in intersection]] *)
Fixpoint indices_of (a items : list A) : result (list nat) :=
  match items with
  | [] => Ok []
  | item :: items' =>
      rbind (index a item) (fun i =>
      rbind (indices_of a items') (fun r => Ok (i :: r)))
  end.

(** [list_intersect_with_indices(a, b)] when [list(...)] enumerates the
    intersection as [intersection]. *)
Definition list_intersect_with_indices_from (a intersection : list A)
    : result (list A * list nat) :=
  rbind (indices_of a intersection) (fun indices => Ok (intersection, indices)).

Definition list_intersect_with_indices (a b : list A) : result (list A * list nat) :=
  list_intersect_with_indices_from a (list_intersect a b).

End Lists.

End MtuqLists.

Module MtuqIntervals.

Import NumPy.

(** [EPSVAL = 1.e-6] *)
Definition EPSVAL : Q := 1 # 1000000.

(** The square of [np.linalg.norm(a)]. *)
Definition norm_squared (a : arr) : Q := sum (map (fun x => x * x) a).

(** [isclose(X, Y)] on one-dimensional arrays.  The test
    [np.linalg.norm(X-Y) < EPSVAL] is made on the squares of its two
    sides, which are not negative. *)
Definition isclose (X Y : arr) : result bool :=
  rbind (sub X Y) (fun r =>
  Ok (if Qlt_le_dec (norm_squared r) (EPSVAL * EPSVAL) then true else false)).

(** [np.linspace(start, stop, num)]: [num] points from [start] to [stop],
    the last one set to [stop]; one point is [start]; a negative [num] is
    a [ValueError]. *)
Definition linspace_step (start stop : Q) (num : Z) : Q :=
  if (num =? 1)%Z then stop - start else (stop - start) / inject_Z (num - 1).

Definition linspace_point (start stop : Q) (num : Z) (i : nat) : Q :=
  if ((1 <? num) && (Z.of_nat i =? num - 1))%Z then stop
  else inject_Z (Z.of_nat i) * linspace_step start stop num + start.

Definition linspace (start stop : Q) (num : Z) : result arr :=
  if (num <? 0)%Z then Raise ValueError
  else Ok (map (linspace_point start stop num) (seq 0 (Z.to_nat num))).

(** [a[::2]] *)
Fixpoint every_second (a : arr) : arr :=
  match a with
  | [] => []
  | x :: a' =>
      x :: match a' with
           | [] => []
           | _ :: a'' => every_second a''
           end
  end.

(** [a[1:-1:2]] *)
Definition odd_interior (a : arr) : arr := every_second (slice a 1 (-1)).

(** [a * c] for a scalar [c]. *)
Definition scale (a : arr) (c : Q) : arr := map (fun x => x * c) a.

(** [a + b] with broadcasting of a length-one operand. *)
Definition add (a b : arr) : result arr :=
  if (length a =? length b)%nat
  then Ok (map (fun xy => fst xy + snd xy) (combine a b))
  else match a, b with
       | [x], _ => Ok (map (fun y => x + y) b)
       | _, [y] => Ok (map (fun x => x + y) a)
       | _, _ => Raise ValueError
       end.

(** [open_interval(x1, x2, nx)] *)
Definition open_interval (x1 x2 : Q) (nx : Z) : result arr :=
  rbind (linspace x1 x2 (2 * nx + 1)) (fun a => Ok (odd_interior a)).

(** [closed_interval(x1, x2, nx)] *)
Definition closed_interval (x1 x2 : Q) (nx : Z) : result arr :=
  linspace x1 x2 nx.

(** [tight_interval(x1, x2, nx, tightness)] *)
Definition tight_interval (x1 x2 : Q) (nx : Z) (tightness : Q) : result arr :=
  rbind (open_interval x1 x2 nx) (fun Lo =>
  rbind (closed_interval x1 x2 nx) (fun Lc =>
  add (scale Lo (1 - tightness)) (scale Lc tightness))).

(** The default [tightness=0.999]. *)
Definition default_tightness : Q := 999 # 1000.

End MtuqIntervals.

(** ** mtuq/graphics/uq/double_couple.py: keyword defaults *)

Module DoubleCouple.

Section Dict.

(** The values of the dictionaries. *)
Variable V : Type.

(** A [dict] with string keys, in insertion order. *)
Definition dict : Type := list (string * V).

(** The value of [key] in [d], if it has one. *)
Fixpoint lookup (d : dict) (key : string) : option V :=
  match d with
  | [] => None
  | (k, v) :: d' => if String.eqb key k then Some v else lookup d' key
  end.

(** [key in d] *)
Definition has_key (d : dict) (key : string) : bool :=
  match lookup d key with
  | Some _ => true
  | None => false
  end.

(** [d[key] = v]: the value of an existing key is replaced where it is,
    a new key goes to the end. *)
Fixpoint setitem (d : dict) (key : string) (v : V) : dict :=
  match d with
  | [] => [(key, v)]
  | (k, v') :: d' =>
      if String.eqb key k then (k, v) :: d' else (k, v') :: setitem d' key v
  end.

(** The body of the loop of [_defaults] for one [key] of [defaults]. *)
Definition default_one (defaults kwargs : dict) (key : string) : dict :=
  if has_key kwargs key then kwargs
  else match lookup defaults key with
       | Some v => setitem kwargs key v
       | None => kwargs
       end.

(** [_defaults(kwargs, defaults)]: [kwargs] as the call leaves it. *)
Definition _defaults (kwargs defaults : dict) : dict :=
  fold_left (default_one defaults) (map fst defaults) kwargs.

End Dict.

End DoubleCouple.

(** ** Frames that differ in their warnings only, and padding in advance *)

Module Oblivious.

Import NumPy Cap.

Definition same_but_warnings (f g : Frame) : Prop :=
  obs f = obs g /\ syn f = syn g /\ sum_misfit f = sum_misfit g.

(** [c] does not read the warnings: on two frames that differ in them
    only it has one result and leaves frames that differ in them only. *)
Definition oblivious {A : Type} (c : M A) : Prop :=
  forall f g, same_but_warnings f g ->
    same_but_warnings (fst (c f)) (fst (c g)) /\ snd (c f) = snd (c g).

(** The synthetics [s] of a station with data [d] after the loop of
    lines 85-86, [trace.data = np.pad(trace.data, npts_padding,
    'constant')], with [npts_padding] as lines 66 and 75 compute it; a
    negative [npts_padding], which [np.pad] rejects, pads nothing. *)
Definition padded_in_advance (self : Misfit) (d s : Dataset) : Dataset :=
  match nth_error (traces d) 0 with
  | Some d0 =>
      let n := Z.to_nat (py_round (time_shift_max self / delta (stats d0))) in
      set_traces s
        (map (fun t => set_data t (repeat 0 n ++ data t ++ repeat 0 n)%list) (traces s))
  | None => s
  end.

Definition pad_all (self : Misfit) (data synthetics : list Dataset) : list Dataset :=
  map (fun ds => padded_in_advance self (fst ds) (snd ds)) (combine data synthetics).

(** What the two parts together may do to a synthetic record: zeros on
    both sides of its samples, its [stats] and its weight as they were. *)
Definition padded_core (t t' : Trace) : Prop :=
  stats t' = stats t /\ weight t' = weight t /\
  exists n, data t' = (repeat 0 n ++ data t ++ repeat 0 n)%list.

(** A station whose synthetics are not padded: [npts_dat == npts_syn]. *)
Definition unpadded (ds : Dataset * Dataset) : bool :=
  match nth_error (traces (fst ds)) 0, nth_error (traces (snd ds)) 0 with
  | Some d0, Some s0 => (length (data s0) =? length (data d0))%nat
  | _, _ => false
  end.

End Oblivious.

(** ** Concrete inputs for the examples *)

Module Examples.

Import NumPy Cap.

(** A record sampled at one sample per second. *)
Definition record (a : arr) (ch : string) (w : option Q) : Trace :=
  mkTrace a (mkStats 1 ch) w None None None None None.

(** No time shift allowed: [npts_padding = 0]. *)
Definition no_shift : Misfit := mkMisfit 1 0 ["ZRT"%string] 0.

(** Shifts of up to one second: [npts_padding = 1] at [dt = 1]. *)
Definition one_second : Misfit := mkMisfit 1 1 ["ZRT"%string] 0.

(** The same with the polarity term requested. *)
Definition with_polarity : Misfit := mkMisfit 1 0 ["ZRT"%string] 1.

Definition observed_z : Dataset :=
  mkDataset [record [1; 2] "BHZ" (Some 1)] None.

Definition synthetic_z : Dataset :=
  mkDataset [record [1; 2] "BHZ" None] None.

Definition synthetic_z_padded : Dataset :=
  mkDataset [record [0; 1; 2; 0] "BHZ" None] None.

Definition synthetic_z_long : Dataset :=
  mkDataset [record [1; 2; 3] "BHZ" None] None.

(** All samples zero on both sides. *)
Definition observed_flat : Dataset :=
  mkDataset [record [0; 0] "BHZ" (Some 1)] None.

(** The same with the time-domain mode already cached. *)
Definition observed_flat_decided : Dataset :=
  mkDataset [record [0; 0] "BHZ" (Some 1)] (Some 2%Z).

Definition synthetic_flat : Dataset :=
  mkDataset [record [0; 0; 0; 0] "BHZ" None] None.



(** A vertical record and a north record, which no group of the default
    configuration holds; both of weight one. *)
Definition observed_zn : Dataset :=
  mkDataset [record [1; 2] "BHZ" (Some 1); record [3; 5] "BHN" (Some 1)] None.

Definition synthetic_zn : Dataset :=
  mkDataset [record [1; 2] "BHZ" None; record [3; 4] "BHN" None] None.

(** Two observed records of three samples; the synthetic record of the
    second has one sample only.  Part 1 looks at the first records. *)
Definition observed_uneven : Dataset :=
  mkDataset [record [1; 2; 3] "BHZ" (Some 1); record [1; 2; 3] "BHR" (Some 1)] None.

Definition synthetic_uneven : Dataset :=
  mkDataset [record [1; 2; 3] "BHZ" None; record [5] "BHR" None] None.

(** Two groups that both hold the vertical component. *)
Definition overlapping : Misfit := mkMisfit 1 0 ["ZR"%string; "Z"%string] 0.

Definition synthetic_far : Dataset :=
  mkDataset [record [4; 8] "BHZ" None] None.

(** A vertical record that has no [weight] attribute. *)
Definition observed_unweighted : Dataset :=
  mkDataset [record [1; 2] "BHZ" None] None.

End Examples.

(** * Properties *)

(** ** Sums, windows and the two correlation algorithms *)

Module CorrelateFacts.

Import NumPy SciPy MtuqMath.

Lemma sum_ext (A : Type) (f g : A -> Q) (l : list A) :
  (forall i, In i l -> f i == g i) -> sum (map f l) == sum (map g l).
Proof.
  induction l as [|i l IH]; intros H; simpl.
  - reflexivity.
  - rewrite (H i) by (left; reflexivity).
    rewrite IH by (intros; apply H; right; assumption).
    reflexivity.
Qed.

Lemma combine_as_seq (a b : arr) :
  length a = length b ->
  combine a b = map (fun n => (nth n a 0, nth n b 0)) (seq 0 (length a)).
Proof.
  revert b; induction a as [|x a IH]; intros [|y b] H; simpl in *; try discriminate.
  - reflexivity.
  - f_equal. rewrite <- seq_shift, map_map. apply IH. lia.
Qed.

Lemma inner_as_sum (a b : arr) :
  length a = length b ->
  inner a b = sum (map (fun n => nth n a 0 * nth n b 0) (seq 0 (length a))).
Proof.
  intros H. unfold inner. rewrite (combine_as_seq a b H), map_map. reflexivity.
Qed.

Lemma window_length (v : arr) (o n : nat) :
  (o + n <= length v)%nat -> length (window v o n) = n.
Proof.
  intros H. unfold window. rewrite length_firstn, length_skipn. lia.
Qed.

Lemma nth_skipn_Q (l : arr) (o i : nat) : nth i (skipn o l) 0 = nth (o + i) l 0.
Proof.
  revert l; induction o as [|o IH]; intros l; simpl.
  - reflexivity.
  - destruct l as [|x l]; simpl.
    + destruct i; reflexivity.
    + apply IH.
Qed.

Lemma nth_firstn_Q (l : arr) (n i : nat) :
  (i < n)%nat -> nth i (firstn n l) 0 = nth i l 0.
Proof.
  revert l i; induction n as [|n IH]; intros l i H; [lia|].
  destruct l as [|x l]; simpl.
  - destruct i; reflexivity.
  - destruct i as [|i]; simpl; [reflexivity|]. apply IH. lia.
Qed.

Lemma window_nth (v : arr) (o n i : nat) :
  (i < n)%nat -> nth i (window v o n) 0 = nth (o + i) v 0.
Proof.
  intros H. unfold window. rewrite nth_firstn_Q by assumption. apply nth_skipn_Q.
Qed.

Lemma nth_map_seq (f : nat -> Q) (len i : nat) :
  (i < len)%nat -> nth i (map f (seq 0 len)) 0 = f i.
Proof.
  intros H.
  rewrite (nth_indep _ 0 (f O)) by (rewrite length_map, length_seq; assumption).
  rewrite map_nth, seq_nth by assumption. reflexivity.
Qed.

(** The window form of one inner product. *)
Lemma inner_window (v1 v2 : arr) (o : nat) :
  (o + length v1 <= length v2)%nat ->
  inner v1 (window v2 o (length v1)) ==
  sum (map (fun n => nth n v1 0 * nth (o + n) v2 0) (seq 0 (length v1))).
Proof.
  intros H. rewrite inner_as_sum by (symmetry; apply window_length; assumption).
  apply sum_ext. intros i Hi. apply in_seq in Hi.
  rewrite window_nth by lia. reflexivity.
Qed.

Lemma convolve_full_length (a b : arr) :
  length (convolve_full a b) = (length a + length b - 1)%nat.
Proof. unfold convolve_full. rewrite length_map, length_seq. reflexivity. Qed.

Lemma centered_start (n1 n2 : nat) :
  (0 < n1 <= n2)%nat ->
  ((n1 + n2 - 1 - (Nat.max n1 n2 - Nat.min n1 n2 + 1)) / 2 = n1 - 1)%nat.
Proof.
  intros H. rewrite Nat.max_r, Nat.min_l by lia.
  replace (n1 + n2 - 1 - (n2 - n1 + 1))%nat with ((n1 - 1) * 2)%nat by lia.
  apply Nat.div_mul. lia.
Qed.

Lemma fftconvolve_valid_unfold (v1 v2 : arr) :
  (0 < length v1 <= length v2)%nat ->
  fftconvolve_valid v1 (reversed v2) =
  firstn (length v2 - length v1 + 1)
         (skipn (length v1 - 1) (convolve_full v1 (rev v2))).
Proof.
  intros H. unfold fftconvolve_valid, reversed, centered.
  rewrite length_rev.
  destruct (length v1 =? 0)%nat eqn:E1; [apply Nat.eqb_eq in E1; lia|].
  destruct (length v2 =? 0)%nat eqn:E2; [apply Nat.eqb_eq in E2; lia|].
  cbn [orb]. rewrite convolve_full_length, length_rev.
  rewrite centered_start by assumption.
  rewrite Nat.max_r, Nat.min_l by lia. reflexivity.
Qed.

Lemma fftconvolve_valid_length (v1 v2 : arr) :
  (0 < length v1 <= length v2)%nat ->
  length (fftconvolve_valid v1 (reversed v2)) = (length v2 - length v1 + 1)%nat.
Proof.
  intros H. rewrite fftconvolve_valid_unfold by assumption.
  rewrite length_firstn, length_skipn, convolve_full_length, length_rev. lia.
Qed.

(** Entry [j] of the frequency-domain result is the inner product of the
    reference with the window of the padded signal at offset [n2-n1-j]. *)
Lemma fftconvolve_valid_nth (v1 v2 : arr) (j : nat) :
  (0 < length v1 <= length v2)%nat ->
  (j <= length v2 - length v1)%nat ->
  nth j (fftconvolve_valid v1 (reversed v2)) 0 ==
  inner v1 (window v2 (length v2 - length v1 - j) (length v1)).
Proof.
  intros H Hj. rewrite inner_window by lia.
  rewrite fftconvolve_valid_unfold by assumption.
  rewrite nth_firstn_Q by lia. rewrite nth_skipn_Q.
  unfold convolve_full. rewrite length_rev.
  rewrite nth_map_seq by lia.
  apply sum_ext. intros i Hi. apply in_seq in Hi.
  unfold conv_term. rewrite length_rev.
  replace (i <=? length v1 - 1 + j)%nat with true
    by (symmetry; apply Nat.leb_le; lia).
  replace (length v1 - 1 + j - i <? length v2)%nat with true
    by (symmetry; apply Nat.ltb_lt; lia).
  cbn [andb]. rewrite rev_nth by lia.
  replace (length v2 - S (length v1 - 1 + j - i))%nat
    with (length v2 - length v1 - j + i)%nat by lia.
  reflexivity.
Qed.

Lemma correlate_valid_ok (v1 v2 : arr) :
  (0 < length v1 <= length v2)%nat ->
  exists r, correlate_valid v1 v2 = Ok r /\
    length r = (length v2 - length v1 + 1)%nat /\
    forall j, (j <= length v2 - length v1)%nat ->
      nth j r 0 == inner v1 (window v2 (length v2 - length v1 - j) (length v1)).
Proof.
  intros H. unfold correlate_valid.
  destruct (length v1 =? 0)%nat eqn:E1; [apply Nat.eqb_eq in E1; lia|].
  destruct (length v2 =? 0)%nat eqn:E2; [apply Nat.eqb_eq in E2; lia|].
  cbn [orb]. destruct (length v1 <? length v2)%nat eqn:E.
  - apply Nat.ltb_lt in E. eexists; split; [reflexivity|]. split.
    + rewrite length_rev, length_map, length_seq. reflexivity.
    + intros j Hj. rewrite inner_window by lia.
      rewrite rev_nth by (rewrite length_map, length_seq; lia).
      rewrite length_map, length_seq.
      rewrite nth_map_seq by lia.
      unfold dot_at. apply sum_ext. intros n Hn. apply in_seq in Hn.
      replace (n + (length v2 - length v1 + 1 - S j))%nat
        with (length v2 - length v1 - j + n)%nat by lia.
      apply Qmult_comm.
  - apply Nat.ltb_ge in E. assert (Heq : length v1 = length v2) by lia.
    replace (length v1 - length v2 + 1)%nat with 1%nat by lia.
    eexists; split; [reflexivity|]. split.
    + simpl. lia.
    + intros j Hj. rewrite inner_window by lia.
      assert (j = O) by lia; subst j.
      cbn [seq map nth]. unfold dot_at. rewrite <- Heq.
      apply sum_ext. intros n Hn.
      replace (length v1 - length v1 - 0 + n)%nat with n by lia.
      rewrite Nat.add_0_r. reflexivity.
Qed.

Lemma pointwise_Qeq (a b : arr) :
  length a = length b ->
  (forall j, (j < length a)%nat -> nth j a 0 == nth j b 0) ->
  Forall2 Qeq a b.
Proof.
  revert b; induction a as [|x a IH]; intros [|y b] Hlen Hnth;
    simpl in Hlen; try discriminate.
  - constructor.
  - constructor.
    + apply (Hnth O). simpl. lia.
    + apply IH; [lia|]. intros j Hj. apply (Hnth (S j)). simpl. lia.
Qed.

End CorrelateFacts.

(** ** [correlate]: the result and the choice of algorithm *)

Module CorrelateClaims.

Import NumPy SciPy MtuqMath CorrelateFacts.

Lemma correlate_algorithm_frequency (n1 n2 : nat) :
  correlate_algorithm n1 n2 = FrequencyDomain <->
  (2000 < Z.of_nat n1 \/ 200 < Z.of_nat n2 - Z.of_nat n1)%Z.
Proof.
  unfold correlate_algorithm.
  destruct (2000 <? Z.of_nat n1)%Z eqn:E1; destruct (200 <? Z.of_nat n2 - Z.of_nat n1)%Z eqn:E2;
    cbn [orb]; try apply Z.ltb_lt in E1; try apply Z.ltb_lt in E2;
    try apply Z.ltb_ge in E1; try apply Z.ltb_ge in E2;
    split; intros H; try reflexivity; try discriminate; try lia.
Qed.

Lemma correlate_algorithm_time (n1 n2 : nat) :
  correlate_algorithm n1 n2 = TimeDomain <->
  ~ (2000 < Z.of_nat n1 \/ 200 < Z.of_nat n2 - Z.of_nat n1)%Z.
Proof.
  rewrite <- correlate_algorithm_frequency.
  destruct (correlate_algorithm n1 n2); split; intros H;
    try reflexivity; try discriminate; try congruence.
Qed.

(** C8.  For a reference signal [v1] of [n1 >= 1] samples and a padded
    signal [v2] of [n2 > n1] samples, [correlate v1 v2] returns a sequence
    of [n2 - n1 + 1] entries, and the entries are the inner products of
    [v1] with every contiguous window of [v2] of length [n1]: the window at
    offset [o] is paired with entry [n2 - n1 - o]. *)
Theorem correlate_is_cross_correlation (v1 v2 : arr) :
  (0 < length v1 < length v2)%nat ->
  exists r,
    correlate v1 v2 = Ok r /\
    length r = (length v2 - length v1 + 1)%nat /\
    forall o, (o <= length v2 - length v1)%nat ->
      nth (length v2 - length v1 - o) r 0 == inner v1 (window v2 o (length v1)).
Proof.
  intros H. unfold correlate.
  destruct (correlate_algorithm (length v1) (length v2)).
  - unfold correlate_frequency. eexists; split; [reflexivity|]. split.
    + apply fftconvolve_valid_length. lia.
    + intros o Ho. rewrite fftconvolve_valid_nth by lia.
      replace (length v2 - length v1 - (length v2 - length v1 - o))%nat with o by lia.
      reflexivity.
  - unfold correlate_time.
    destruct (correlate_valid_ok v1 v2) as (r & Hr & Hlen & Hnth); [lia|].
    exists r. split; [assumption|]. split; [assumption|].
    intros o Ho. rewrite Hnth by lia.
    replace (length v2 - length v1 - (length v2 - length v1 - o))%nat with o by lia.
    reflexivity.
Qed.

Lemma correlate_is_cross_correlation_witness :
  exists r,
    correlate [1; 2] [3; 0; 1; 5] = Ok r /\
    length r = 3%nat /\
    forall o, (o <= 2)%nat ->
      nth (2 - o) r 0 == inner [1; 2] (window [3; 0; 1; 5] o 2).
Proof.
  apply (correlate_is_cross_correlation [1; 2] [3; 0; 1; 5]). simpl. lia.
Defined.

(** C3.  For a reference signal of [n1 >= 1] samples and a padded signal
    of [n2 > n1] samples, [correlate] takes the frequency-domain path
    ([fftconvolve] of the reference with the reversed padded signal, valid
    part) exactly when [n1 > 2000] or [n2 - n1 > 200], and the time-domain
    path otherwise; both paths return, and in exact arithmetic they return
    the same values entry by entry. *)
Theorem correlate_selection_is_semantically_neutral (v1 v2 : arr) :
  (0 < length v1 < length v2)%nat ->
  (correlate_algorithm (length v1) (length v2) = FrequencyDomain <->
     (2000 < length v1 \/ 200 < length v2 - length v1)%nat) /\
  (correlate_algorithm (length v1) (length v2) = TimeDomain <->
     ~ (2000 < length v1 \/ 200 < length v2 - length v1)%nat) /\
  correlate v1 v2 =
    match correlate_algorithm (length v1) (length v2) with
    | FrequencyDomain => Ok (fftconvolve_valid v1 (reversed v2))
    | TimeDomain => correlate_valid v1 v2
    end /\
  exists rf rt,
    correlate_frequency v1 v2 = Ok rf /\
    correlate_time v1 v2 = Ok rt /\
    Forall2 Qeq rf rt.
Proof.
  intros H. split; [|split; [|split]].
  - rewrite correlate_algorithm_frequency. lia.
  - rewrite correlate_algorithm_time. lia.
  - reflexivity.
  - destruct (correlate_valid_ok v1 v2) as (rt & Hrt & Hlen & Hnth); [lia|].
    exists (fftconvolve_valid v1 (reversed v2)), rt.
    split; [reflexivity|]. split; [exact Hrt|].
    apply pointwise_Qeq.
    + rewrite fftconvolve_valid_length by lia. symmetry. exact Hlen.
    + intros j Hj. rewrite fftconvolve_valid_length in Hj by lia.
      rewrite fftconvolve_valid_nth by lia. rewrite Hnth by lia. reflexivity.
Qed.

Lemma correlate_selection_is_semantically_neutral_witness :
  correlate_algorithm 2 4 = TimeDomain /\
  exists rf rt,
    correlate_frequency [1; 2] [3; 0; 1; 5] = Ok rf /\
    correlate_time [1; 2] [3; 0; 1; 5] = Ok rt /\
    Forall2 Qeq rf rt.
Proof.
  split; [reflexivity|].
  apply (correlate_selection_is_semantically_neutral [1; 2] [3; 0; 1; 5]).
  simpl. lia.
Defined.

End CorrelateClaims.

(** ** The station loop: basic facts *)

Module CapFacts.

Import NumPy SciPy MtuqMath Cap Frames.

Lemma bind_run (A B : Type) (m : M A) (k : A -> M B) (f : Frame) :
  bind m k f =
  match m f with
  | (f', Ok a) => k a f'
  | (f', Raise e) => (f', Raise e)
  end.
Proof. reflexivity. Qed.

(** *** Updates by index *)

Lemma update_nth_length (A : Type) (i : nat) (g : A -> A) (l : list A) :
  length (update_nth i g l) = length l.
Proof.
  revert i; induction l as [|x l IH]; intros [|i]; simpl; auto.
Qed.

Lemma update_nth_same (A : Type) (i : nat) (g : A -> A) (l : list A) :
  nth_error (update_nth i g l) i = option_map g (nth_error l i).
Proof.
  revert i; induction l as [|x l IH]; intros [|i]; simpl; auto.
Qed.

Lemma update_nth_other (A : Type) (i j : nat) (g : A -> A) (l : list A) :
  i <> j -> nth_error (update_nth i g l) j = nth_error l j.
Proof.
  revert i j; induction l as [|x l IH]; intros [|i] [|j] H; simpl; auto;
    congruence.
Qed.

Lemma same_core_refl t : same_core t t.
Proof. repeat split. Qed.

Lemma same_core_trans t1 t2 t3 :
  same_core t1 t2 -> same_core t2 t3 -> same_core t1 t3.
Proof.
  intros (a & b & c) (a' & b' & c'). repeat split; congruence.
Qed.

Lemma same_core_list_refl (l : list Trace) : Forall2 same_core l l.
Proof. induction l; constructor; auto using same_core_refl. Qed.

Lemma same_core_list_trans (l1 l2 l3 : list Trace) :
  Forall2 same_core l1 l2 -> Forall2 same_core l2 l3 -> Forall2 same_core l1 l3.
Proof.
  intros H; revert l3; induction H; intros l3 H3; inversion H3; subst;
    constructor; eauto using same_core_trans.
Qed.

Lemma same_core_update (i : nat) (g : Trace -> Trace) (l : list Trace) :
  (forall t, same_core t (g t)) -> Forall2 same_core l (update_nth i g l).
Proof.
  intros Hg. revert i; induction l as [|x l IH]; intros [|i]; simpl;
    constructor; auto using same_core_refl, same_core_list_refl.
Qed.

Lemma same_core_nth_error (l l' : list Trace) (i : nat) (t : Trace) :
  Forall2 same_core l l' -> nth_error l i = Some t ->
  exists t', nth_error l' i = Some t' /\ same_core t t'.
Proof.
  intros H; revert i; induction H; intros [|i] Hi; simpl in *; try discriminate.
  - inversion Hi; subst. eauto.
  - eauto.
Qed.

Lemma same_core_nth_error_none (l l' : list Trace) (i : nat) :
  Forall2 same_core l l' -> nth_error l i = None -> nth_error l' i = None.
Proof.
  intros H; revert i; induction H; intros [|i] Hi; simpl in *;
    try discriminate; auto.
Qed.

Lemma same_core_length (l l' : list Trace) :
  Forall2 same_core l l' -> length l = length l'.
Proof. induction 1; simpl; congruence. Qed.

Lemma set_alignment_core ts g i0 i1 t : same_core t (set_alignment ts g i0 i1 t).
Proof. repeat split. Qed.

Lemma set_sum_residuals_core x t : same_core t (set_sum_residuals x t).
Proof. repeat split. Qed.

Lemma frame_step_refl f : frame_step f f.
Proof. repeat split; apply same_core_list_refl. Qed.

Lemma frame_step_trans f1 f2 f3 :
  frame_step f1 f2 -> frame_step f2 f3 -> frame_step f1 f3.
Proof.
  intros (a & b & c & d) (a' & b' & c' & d').
  repeat split; try congruence; eauto using same_core_list_trans.
Qed.

End CapFacts.

(** ** Part 2: the lag search *)

Module SearchFacts.

Import NumPy SciPy MtuqMath Cap Frames CapFacts.

Lemma iadd_length (r x r' : arr) : iadd r x = Ok r' -> length r' = length r.
Proof.
  unfold iadd. destruct (length x =? length r)%nat eqn:E.
  - apply Nat.eqb_eq in E. intros H; inversion H; subst.
    rewrite length_map, length_combine. lia.
  - destruct x as [|y [|z x]]; intros H; inversion H; subst.
    apply length_map.
Qed.

Lemma iadd_raises (r x : arr) e : iadd r x = Raise e -> e = ValueError.
Proof.
  unfold iadd. destruct (length x =? length r)%nat; [discriminate|].
  destruct x as [|y [|z x]]; intros H; inversion H; reflexivity.
Qed.

Lemma correlate_valid_raises (a v : arr) e :
  correlate_valid a v = Raise e -> e = ValueError.
Proof.
  unfold correlate_valid.
  destruct ((length a =? 0)%nat || (length v =? 0)%nat).
  - intros H; inversion H; reflexivity.
  - destruct (length a <? length v)%nat; discriminate.
Qed.

Lemma item_raises (l : list Trace) i e : item l i = Raise e -> e = IndexError.
Proof.
  unfold item. destruct (nth_error l i); intros H; inversion H; reflexivity.
Qed.

Lemma component_raises t e : component t = Raise e -> e = IndexError.
Proof.
  unfold component. destruct (last_char _); intros H; inversion H; reflexivity.
Qed.


(** One pass of the loop of lines 120-139. *)
Lemma accumulate_effect dd ss mode group acc i :
  match accumulate dd ss mode group acc i with
  | Ok acc' =>
      length (fst acc') = length (fst acc) /\
      snd acc' = (snd acc ++ (if selected dd group i then [i] else []))%list
  | Raise e => e = IndexError \/ e = ValueError \/ e = AttributeError
  end.
Proof.
  unfold accumulate, selected, item.
  destruct (nth_error dd i) as [di|]; cbn [rbind]; [|auto].
  destruct (zero_weight di); cbn [negb andb].
  { rewrite app_nil_r. auto. }
  destruct (component di) as [c|e] eqn:Hc; cbn [rbind].
  2:{ left. eapply component_raises; eauto. }
  destruct (contains group c).
  2:{ rewrite app_nil_r. auto. }
  destruct mode as [m|]; [|auto].
  destruct (m =? 0)%Z; [cbn; auto|].
  destruct (m =? 1)%Z.
  { destruct (nth_error ss i) as [si|]; cbn [rbind]; [|auto].
    destruct (iadd _ _) as [r|e] eqn:Hr; cbn [rbind fst snd].
    - split; [eapply iadd_length; eauto|reflexivity].
    - right; left. eapply iadd_raises; eauto. }
  destruct (m =? 2)%Z; [|cbn; auto].
  destruct (nth_error ss i) as [si|]; cbn [rbind]; [|auto].
  destruct (correlate_valid _ _) as [x|e] eqn:Hx; cbn [rbind].
  2:{ right; left. eapply correlate_valid_raises; eauto. }
  destruct (iadd _ _) as [r|e] eqn:Hr; cbn [rbind fst snd].
  - split; [eapply iadd_length; eauto|reflexivity].
  - right; left. eapply iadd_raises; eauto.
Qed.

Lemma lag_search_effect dd ss mode group range : forall acc,
  match lag_search dd ss mode group acc range with
  | Ok acc' =>
      length (fst acc') = length (fst acc) /\
      snd acc' = (snd acc ++ filter (selected dd group) range)%list
  | Raise e => e = IndexError \/ e = ValueError \/ e = AttributeError
  end.
Proof.
  induction range as [|i range IH]; intros acc; cbn [lag_search filter].
  - rewrite app_nil_r. auto.
  - pose proof (accumulate_effect dd ss mode group acc i) as Ha.
    destruct (accumulate dd ss mode group acc i) as [acc1|e]; cbn [rbind]; [|exact Ha].
    destruct Ha as (Hl & Hs). specialize (IH acc1).
    destruct (lag_search dd ss mode group acc1 range) as [acc2|e]; [|exact IH].
    destruct IH as (Hl2 & Hs2). split; [congruence|].
    rewrite Hs2, Hs. destruct (selected dd group i); cbn.
    + rewrite <- app_assoc. reflexivity.
    + rewrite app_nil_r. reflexivity.
Qed.

(** The search reads nothing that part 2 writes. *)
Lemma accumulate_core dd ss dd' ss' mode group acc i :
  Forall2 same_core dd dd' -> Forall2 same_core ss ss' ->
  accumulate dd' ss' mode group acc i = accumulate dd ss mode group acc i.
Proof.
  intros Hd Hs. unfold accumulate, item.
  destruct (nth_error dd i) as [di|] eqn:Hdi.
  2:{ rewrite (same_core_nth_error_none _ _ _ Hd Hdi). reflexivity. }
  destruct (same_core_nth_error _ _ _ _ Hd Hdi) as (di' & Hdi' & Hcd).
  rewrite Hdi'. cbn [rbind].
  destruct Hcd as (Hdata & Hstats & Hweight).
  unfold zero_weight, component. rewrite <- Hweight, <- Hstats, <- Hdata.
  destruct (nth_error ss i) as [si|] eqn:Hsi.
  - destruct (same_core_nth_error _ _ _ _ Hs Hsi) as (si' & Hsi' & (Hsd & _)).
    rewrite Hsi'. cbn [rbind]. rewrite <- Hsd. reflexivity.
  - rewrite (same_core_nth_error_none _ _ _ Hs Hsi). reflexivity.
Qed.

Lemma lag_search_core dd ss dd' ss' mode group range :
  Forall2 same_core dd dd' -> Forall2 same_core ss ss' ->
  forall acc,
  lag_search dd' ss' mode group acc range = lag_search dd ss mode group acc range.
Proof.
  intros Hd Hs. induction range as [|i range IH]; intros acc; cbn [lag_search].
  - reflexivity.
  - rewrite (accumulate_core dd ss dd' ss' mode group acc i Hd Hs).
    destruct (accumulate dd ss mode group acc i); cbn [rbind]; auto.
Qed.

Lemma selected_core dd dd' group i :
  Forall2 same_core dd dd' -> selected dd' group i = selected dd group i.
Proof.
  intros Hd. unfold selected.
  destruct (nth_error dd i) as [di|] eqn:Hdi.
  - destruct (same_core_nth_error _ _ _ _ Hd Hdi) as (di' & Hdi' & (_ & Hstats & Hweight)).
    rewrite Hdi'. unfold zero_weight, component. rewrite Hweight, Hstats. reflexivity.
  - rewrite (same_core_nth_error_none _ _ _ Hd Hdi). reflexivity.
Qed.

Lemma selected_indices_nodup dd group n :
  NoDup (filter (selected dd group) (seq 0 n)).
Proof. apply NoDup_filter, seq_NoDup. Qed.

End SearchFacts.

(** ** Part 2: what one group leaves behind *)

Module AlignFacts.

Import NumPy SciPy MtuqMath Cap Frames CapFacts SearchFacts.

Section WithPower.

Variable power : Q -> Q -> Q.

Lemma record_residuals_core p dt i0 i1 si si' di di' :
  same_core si si' -> same_core di di' ->
  record_residuals power p dt i0 i1 si' di' = record_residuals power p dt i0 i1 si di.
Proof.
  intros (Hs & _) (Hd & _). unfold record_residuals. rewrite Hs, Hd. reflexivity.
Qed.

(** One pass of the loop of lines 150-161. *)
Lemma align_effect p dt ts g i0 i1 i f :
  let f' := fst (align power p dt ts g i0 i1 i f) in
  frame_step f f' /\
  (forall j, j <> i ->
     nth_error (traces (obs f')) j = nth_error (traces (obs f)) j /\
     nth_error (traces (syn f')) j = nth_error (traces (syn f)) j) /\
  match snd (align power p dt ts g i0 i1 i f) with
  | Ok _ =>
      exists si di sr w,
        nth_error (traces (syn f)) i = Some si /\
        nth_error (traces (obs f)) i = Some di /\
        record_residuals power p dt i0 i1 si di = Ok sr /\
        weight di = Some w /\
        nth_error (traces (syn f')) i = Some (set_alignment ts g i0 i1 si) /\
        nth_error (traces (obs f')) i = Some (set_sum_residuals sr di) /\
        sum_misfit f' = sum_misfit f + w * sr
  | Raise e => e = IndexError \/ e = ValueError \/ e = AttributeError
  end.
Proof.
  unfold align, bind, modify_s.
  destruct (nth_error (traces (syn f)) i) as [si|] eqn:Hsi; cbn -[update_nth].
  2:{ split; [apply frame_step_refl|]. split; [auto|]. auto. }
  unfold get_s, item. cbn -[update_nth]. rewrite update_nth_same, Hsi. cbn -[update_nth].
  unfold get_d, item. cbn -[update_nth].
  destruct (nth_error (traces (obs f)) i) as [di|] eqn:Hdi; cbn -[update_nth].
  2:{ split; [|split].
      - repeat split; cbn; auto using same_core_list_refl.
        apply same_core_update, set_alignment_core.
      - intros j Hj. split; [reflexivity|]. apply update_nth_other. congruence.
      - auto. }
  unfold lift.
  rewrite (record_residuals_core p dt i0 i1 si _ di di
             (set_alignment_core ts g i0 i1 si) (same_core_refl di)).
  destruct (record_residuals power p dt i0 i1 si di) as [sr|e] eqn:Hsr; cbn -[update_nth].
  2:{ split; [|split].
      - repeat split; cbn; auto using same_core_list_refl.
        apply same_core_update, set_alignment_core.
      - intros j Hj. split; [reflexivity|]. apply update_nth_other. congruence.
      - unfold record_residuals in Hsr.
        destruct (sub _ _) eqn:Hsub; cbn in Hsr; [discriminate|].
        inversion Hsr; subst. unfold sub in Hsub.
        repeat match type of Hsub with
               | context [if ?c then _ else _] => destruct c
               | context [match ?l with _ => _ end] => destruct l
               end; try discriminate; inversion Hsub; auto. }
  unfold modify_d. cbn -[update_nth]. rewrite Hdi. cbn -[update_nth].
  rewrite update_nth_same, Hdi. cbn -[update_nth].
  destruct (weight di) as [w|] eqn:Hw; cbn -[update_nth].
  - split; [|split].
    + repeat split; cbn -[update_nth]; auto.
      * apply same_core_update, set_sum_residuals_core.
      * apply same_core_update, set_alignment_core.
    + intros j Hj. split; apply update_nth_other; congruence.
    + exists si, di, sr, w. rewrite !update_nth_same, Hsi, Hdi.
      repeat split; auto.
  - split; [|split].
    + repeat split; cbn -[update_nth]; auto.
      * apply same_core_update, set_sum_residuals_core.
      * apply same_core_update, set_alignment_core.
    + intros j Hj. split; apply update_nth_other; congruence.
    + auto.
Qed.

Lemma contribution_core p dt i0 i1 dd ss dd' ss' i :
  Forall2 same_core dd dd' -> Forall2 same_core ss ss' ->
  contribution power p dt i0 i1 dd' ss' i = contribution power p dt i0 i1 dd ss i.
Proof.
  intros Hd Hs. unfold contribution.
  destruct (nth_error ss i) as [si|] eqn:Hsi.
  - destruct (same_core_nth_error _ _ _ _ Hs Hsi) as (si' & Hsi' & Hcs).
    rewrite Hsi'.
    destruct (nth_error dd i) as [di|] eqn:Hdi.
    + destruct (same_core_nth_error _ _ _ _ Hd Hdi) as (di' & Hdi' & Hcd).
      rewrite Hdi'. rewrite (record_residuals_core p dt i0 i1 si si' di di' Hcs Hcd).
      destruct Hcd as (_ & _ & Hw). rewrite Hw. reflexivity.
    + rewrite (same_core_nth_error_none _ _ _ Hd Hdi). reflexivity.
  - rewrite (same_core_nth_error_none _ _ _ Hs Hsi). reflexivity.
Qed.

(** The whole loop of lines 150-161 over [_indices]. *)
Lemma align_loop p dt ts g i0 i1 idx : NoDup idx -> forall f,
  let f' := fst (for_each idx (align power p dt ts g i0 i1) f) in
  frame_step f f' /\
  (forall j, ~ In j idx ->
     nth_error (traces (obs f')) j = nth_error (traces (obs f)) j /\
     nth_error (traces (syn f')) j = nth_error (traces (syn f)) j) /\
  match snd (for_each idx (align power p dt ts g i0 i1) f) with
  | Ok _ =>
      (forall i, In i idx ->
         exists si di sr w,
           nth_error (traces (syn f)) i = Some si /\
           nth_error (traces (obs f)) i = Some di /\
           record_residuals power p dt i0 i1 si di = Ok sr /\
           weight di = Some w /\
           nth_error (traces (syn f')) i = Some (set_alignment ts g i0 i1 si) /\
           nth_error (traces (obs f')) i = Some (set_sum_residuals sr di)) /\
      sum_misfit f' =
        fold_left (fun acc i => acc + contribution power p dt i0 i1
                                        (traces (obs f)) (traces (syn f)) i)
                  idx (sum_misfit f)
  | Raise e => e = IndexError \/ e = ValueError \/ e = AttributeError
  end.
Proof.
  induction 1 as [|i idx Hni Hnd IH]; intros f.
  - cbn. split; [apply frame_step_refl|]. split; [auto|]. split; [|reflexivity].
    intros i [].
  - cbn zeta. cbn [for_each]. rewrite !bind_run.
    pose proof (align_effect p dt ts g i0 i1 i f) as Ha. cbn zeta in Ha.
    destruct (align power p dt ts g i0 i1 i f) as [f1 [[]|e]] eqn:Hal;
      cbn [fst snd] in Ha |- *.
    2:{ destruct Ha as (Hs & Ho & He). split; [exact Hs|]. split; [|exact He].
        intros j Hj. apply Ho. intros ->. apply Hj. left; reflexivity. }
    destruct Ha as (Hs1 & Ho1 & si & di & sr & w & Hsi & Hdi & Hsr & Hw & Hsi1 & Hdi1 & Hsum1).
    specialize (IH f1). cbn zeta in IH.
    destruct (for_each idx (align power p dt ts g i0 i1) f1) as [f2 [[]|e]] eqn:Hloop;
      cbn [fst snd] in IH |- *.
    2:{ destruct IH as (Hs2 & Ho2 & He). split; [eapply frame_step_trans; eauto|].
        split; [|exact He]. intros j Hj.
        destruct (Ho2 j) as (A & B); [intros Hin; apply Hj; right; exact Hin|].
        destruct (Ho1 j) as (A1 & B1); [intros ->; apply Hj; left; reflexivity|].
        split; congruence. }
    destruct IH as (Hs2 & Ho2 & Hin2 & Hsum2).
    split; [eapply frame_step_trans; eauto|]. split; [|split].
    + intros j Hj.
      destruct (Ho2 j) as (A & B); [intros Hin; apply Hj; right; exact Hin|].
      destruct (Ho1 j) as (A1 & B1); [intros ->; apply Hj; left; reflexivity|].
      split; congruence.
    + intros j [<-|Hj].
      * destruct (Ho2 i Hni) as (A & B).
        exists si, di, sr, w. repeat split; auto; congruence.
      * assert (Hji : j <> i) by (intros ->; contradiction).
        destruct (Hin2 j Hj) as (sj & dj & srj & wj & H1 & H2 & H3 & H4 & H5 & H6).
        destruct (Ho1 j Hji) as (A1 & B1).
        exists sj, dj, srj, wj. repeat split; auto; congruence.
    + rewrite Hsum2. cbn [fold_left].
      destruct Hs1 as (_ & _ & Hcd & Hcs).
      assert (Hc : contribution power p dt i0 i1 (traces (obs f)) (traces (syn f)) i = w * sr).
      { unfold contribution. rewrite Hsi, Hdi, Hsr, Hw. reflexivity. }
      rewrite Hc, <- Hsum1.
      generalize (sum_misfit f1). clear - Hcd Hcs.
      induction idx as [|j idx IHl]; intros acc; cbn [fold_left]; [reflexivity|].
      rewrite (contribution_core p dt i0 i1 _ _ _ _ j Hcd Hcs). apply IHl.
Qed.

Lemma selected_in dd group i :
  In i (filter (selected dd group) (seq 0 (length dd))) <-> selected dd group i = true.
Proof.
  rewrite filter_In, in_seq. split; [tauto|]. intros H. split; [|exact H].
  unfold selected in H. destruct (nth_error dd i) eqn:E; [|discriminate].
  assert (i < length dd)%nat by (apply nth_error_Some; congruence). lia.
Qed.

Lemma shift_group_run self npts dt pad g f :
  shift_group power self npts dt pad g f =
  if (2 * pad + 1 <? 0)%Z then (f, Raise ValueError)
  else
    match lag_search (traces (obs f)) (traces (syn f)) (time_shift_mode (obs f)) g
                     (repeat 0 (Z.to_nat (2 * pad + 1)), [])
                     (seq 0 (length (traces (obs f)))) with
    | Ok found =>
        for_each (snd found)
          (align power (order self) dt
             (lag_time_shift (Z.of_nat (argmax (fst found))) pad dt) g
             (slice_start pad (Z.of_nat (argmax (fst found))))
             (slice_stop pad (Z.of_nat (argmax (fst found))) npts)) f
    | Raise e => (f, Raise e)
    end.
Proof.
  unfold shift_group, bind, lift, zeros, get.
  destruct (2 * pad + 1 <? 0)%Z; [reflexivity|].
  destruct (lag_search _ _ _ _ _ _); reflexivity.
Qed.

(** Lines 113-161 for one group. *)
Lemma shift_group_effect self npts dt pad g f :
  let f' := fst (shift_group power self npts dt pad g f) in
  let dd := traces (obs f) in
  let ss := traces (syn f) in
  frame_step f f' /\
  (forall j, selected dd g j = false ->
     nth_error (traces (obs f')) j = nth_error dd j /\
     nth_error (traces (syn f')) j = nth_error ss j) /\
  match snd (shift_group power self npts dt pad g f) with
  | Ok _ =>
      exists res,
        (0 <= pad)%Z /\
        lag_search dd ss (time_shift_mode (obs f)) g
                   (repeat 0 (Z.to_nat (2 * pad + 1)), [])
                   (seq 0 (length dd))
          = Ok (res, filter (selected dd g) (seq 0 (length dd))) /\
        length res = Z.to_nat (2 * pad + 1) /\
        (forall i, selected dd g i = true ->
           exists si di sr w,
             nth_error ss i = Some si /\
             nth_error dd i = Some di /\
             record_residuals power (order self) dt
               (slice_start pad (Z.of_nat (argmax res)))
               (slice_stop pad (Z.of_nat (argmax res)) npts) si di = Ok sr /\
             weight di = Some w /\
             nth_error (traces (syn f')) i =
               Some (set_alignment
                       (lag_time_shift (Z.of_nat (argmax res)) pad dt) g
                       (slice_start pad (Z.of_nat (argmax res)))
                       (slice_stop pad (Z.of_nat (argmax res)) npts) si) /\
             nth_error (traces (obs f')) i = Some (set_sum_residuals sr di)) /\
        sum_misfit f' =
          fold_left
            (fun acc i =>
               acc + contribution power (order self) dt
                       (slice_start pad (Z.of_nat (argmax res)))
                       (slice_stop pad (Z.of_nat (argmax res)) npts) dd ss i)
            (filter (selected dd g) (seq 0 (length dd))) (sum_misfit f)
  | Raise e => e = IndexError \/ e = ValueError \/ e = AttributeError
  end.
Proof.
  cbn zeta. rewrite shift_group_run.
  destruct (2 * pad + 1 <? 0)%Z eqn:Hz.
  { cbn [fst snd]. split; [apply frame_step_refl|]. split; auto. }
  apply Z.ltb_ge in Hz.
  pose proof (lag_search_effect (traces (obs f)) (traces (syn f))
                (time_shift_mode (obs f)) g (seq 0 (length (traces (obs f))))
                (repeat 0 (Z.to_nat (2 * pad + 1)), [])) as Hls.
  destruct (lag_search _ _ _ _ _ _) as [[res idx]|e] eqn:Hsearch.
  2:{ cbn [fst snd]. split; [apply frame_step_refl|]. split; auto. }
  cbn [fst snd app] in Hls. destruct Hls as (Hlen & Hidx). subst idx.
  rewrite repeat_length in Hlen.
  cbn [fst snd].
  pose proof (align_loop (order self) dt
                (lag_time_shift (Z.of_nat (argmax res)) pad dt) g
                (slice_start pad (Z.of_nat (argmax res)))
                (slice_stop pad (Z.of_nat (argmax res)) npts)
                _ (selected_indices_nodup (traces (obs f)) g (length (traces (obs f)))) f)
    as Hloop.
  cbn zeta in Hloop.
  destruct (for_each _ _ f) as [f' [[]|e]] eqn:Hrun; cbn [fst snd] in Hloop |- *.
  - destruct Hloop as (Hstep & Hout & Hin & Hsum).
    split; [exact Hstep|]. split.
    + intros j Hj. apply Hout. rewrite selected_in. congruence.
    + exists res. split; [lia|]. split; [reflexivity|]. split; [exact Hlen|].
      split; [|exact Hsum].
      intros i Hi. apply Hin. apply selected_in. exact Hi.
  - destruct Hloop as (Hstep & Hout & He).
    split; [exact Hstep|]. split; [|exact He].
    intros j Hj. apply Hout. rewrite selected_in. congruence.
Qed.

Lemma group_argmax_core dd ss dd' ss' mode pad g :
  Forall2 same_core dd dd' -> Forall2 same_core ss ss' ->
  group_argmax dd' ss' mode pad g = group_argmax dd ss mode pad g.
Proof.
  intros Hd Hs. unfold group_argmax.
  rewrite <- (same_core_length _ _ Hd).
  rewrite (lag_search_core dd ss dd' ss' mode g _ Hd Hs). reflexivity.
Qed.

Lemma filter_selected_core dd dd' g :
  Forall2 same_core dd dd' ->
  filter (selected dd' g) (seq 0 (length dd')) = filter (selected dd g) (seq 0 (length dd)).
Proof.
  intros Hd. rewrite <- (same_core_length _ _ Hd).
  apply filter_ext. intros i. apply selected_core. exact Hd.
Qed.

Lemma group_total_core p dt npts pad dd ss dd' ss' mode g acc :
  Forall2 same_core dd dd' -> Forall2 same_core ss ss' ->
  group_total power p dt npts pad dd' ss' mode g acc =
  group_total power p dt npts pad dd ss mode g acc.
Proof.
  intros Hd Hs. unfold group_total.
  rewrite (group_argmax_core dd ss dd' ss' mode pad g Hd Hs).
  rewrite (filter_selected_core dd dd' g Hd).
  revert acc. induction (filter (selected dd g) (seq 0 (length dd))) as [|i l IH];
    intros acc; cbn [fold_left]; [reflexivity|].
  rewrite (contribution_core p dt _ _ dd ss dd' ss' i Hd Hs). apply IH.
Qed.

Lemma last_group_core dd dd' groups i :
  Forall2 same_core dd dd' -> last_group dd' groups i = last_group dd groups i.
Proof.
  intros Hd. induction groups as [|g gs IH]; cbn [last_group]; [reflexivity|].
  rewrite IH, (selected_core dd dd' g i Hd). reflexivity.
Qed.

Lemma last_group_none dd groups i :
  last_group dd groups i = None <-> (forall g, In g groups -> selected dd g i = false).
Proof.
  induction groups as [|g gs IH]; cbn [last_group].
  - split; [intros _ g []|reflexivity].
  - destruct (last_group dd gs i) as [g'|] eqn:E.
    + split; [discriminate|]. intros H.
      assert (Some g' = None) by (apply IH; intros; apply H; right; assumption).
      discriminate.
    + destruct (selected dd g i) eqn:Es.
      * split; [discriminate|]. intros H. rewrite (H g) in Es by (left; reflexivity).
        discriminate.
      * split; [|reflexivity]. intros _ g0 [<-|Hg]; [exact Es|].
        apply (proj1 IH eq_refl). exact Hg.
Qed.

Lemma last_group_some dd groups i g :
  last_group dd groups i = Some g -> In g groups /\ selected dd g i = true.
Proof.
  induction groups as [|g0 gs IH]; cbn [last_group]; [discriminate|].
  destruct (last_group dd gs i) as [g'|].
  - intros H; inversion H; subst. destruct (IH eq_refl). split; [right|]; assumption.
  - destruct (selected dd g0 i) eqn:Es; [|discriminate].
    intros H; inversion H; subst. split; [left; reflexivity|exact Es].
Qed.

Lemma set_alignment_twice a b c d a' b' c' d' t :
  set_alignment a b c d (set_alignment a' b' c' d' t) = set_alignment a b c d t.
Proof. reflexivity. Qed.

Lemma set_sum_residuals_twice x y t :
  set_sum_residuals x (set_sum_residuals y t) = set_sum_residuals x t.
Proof. reflexivity. Qed.

Lemma nth_error_same_core_inv (l l' : list Trace) i t' :
  Forall2 same_core l l' -> nth_error l' i = Some t' ->
  exists t, nth_error l i = Some t /\ same_core t t'.
Proof.
  intros H Hi. destruct (nth_error l i) as [t|] eqn:E.
  - destruct (same_core_nth_error _ _ _ _ H E) as (t0 & Ht0 & Hc).
    exists t. split; [reflexivity|]. congruence.
  - rewrite (same_core_nth_error_none _ _ _ H E) in Hi. discriminate.
Qed.

(** The loop of line 113 over the configured groups. *)
Lemma groups_loop self npts dt pad groups : forall f,
  let run := for_each groups (shift_group power self npts dt pad) f in
  let f' := fst run in
  let dd := traces (obs f) in
  let ss := traces (syn f) in
  let mode := time_shift_mode (obs f) in
  frame_step f f' /\
  (forall j, last_group dd groups j = None ->
     nth_error (traces (obs f')) j = nth_error dd j /\
     nth_error (traces (syn f')) j = nth_error ss j) /\
  match snd run with
  | Ok _ =>
      (groups <> [] -> (0 <= pad)%Z) /\
      (forall g, In g groups ->
         exists res,
           lag_search dd ss mode g (repeat 0 (Z.to_nat (2 * pad + 1)), [])
                      (seq 0 (length dd))
             = Ok (res, filter (selected dd g) (seq 0 (length dd))) /\
           length res = Z.to_nat (2 * pad + 1) /\
           forall i, selected dd g i = true ->
             exists si di sr w,
               nth_error ss i = Some si /\ nth_error dd i = Some di /\
               weight di = Some w /\
               record_residuals power (order self) dt
                 (slice_start pad (group_argmax dd ss mode pad g))
                 (slice_stop pad (group_argmax dd ss mode pad g) npts) si di = Ok sr) /\
      (forall i g, last_group dd groups i = Some g ->
         exists si di sr,
           nth_error ss i = Some si /\ nth_error dd i = Some di /\
           record_residuals power (order self) dt
             (slice_start pad (group_argmax dd ss mode pad g))
             (slice_stop pad (group_argmax dd ss mode pad g) npts) si di = Ok sr /\
           nth_error (traces (syn f')) i =
             Some (set_alignment
                     (lag_time_shift (group_argmax dd ss mode pad g) pad dt) g
                     (slice_start pad (group_argmax dd ss mode pad g))
                     (slice_stop pad (group_argmax dd ss mode pad g) npts) si) /\
           nth_error (traces (obs f')) i = Some (set_sum_residuals sr di)) /\
      sum_misfit f' =
        fold_left (fun acc g => group_total power (order self) dt npts pad dd ss mode g acc)
                  groups (sum_misfit f)
  | Raise e => e = IndexError \/ e = ValueError \/ e = AttributeError
  end.
Proof.
  induction groups as [|g gs IH]; intros f; cbn zeta.
  - cbn. split; [apply frame_step_refl|]. split; [auto|].
    split; [congruence|]. split; [intros g []|]. split; [discriminate|reflexivity].
  - cbn [for_each]. rewrite bind_run.
    pose proof (shift_group_effect self npts dt pad g f) as Hg. cbn zeta in Hg.
    destruct (shift_group power self npts dt pad g f) as [f1 [[]|e]] eqn:Hrun1;
      cbn [fst snd] in Hg |- *.
    2:{ destruct Hg as (Hs & Ho & He). split; [exact Hs|]. split; [|exact He].
        intros j Hj. apply Ho.
        apply (proj1 (last_group_none _ _ _) Hj). left; reflexivity. }
    destruct Hg as (Hs1 & Ho1 & res & Hpad & Hsearch & Hlen & Hin1 & Hsum1).
    assert (Ham : group_argmax (traces (obs f)) (traces (syn f))
                    (time_shift_mode (obs f)) pad g = Z.of_nat (argmax res)).
    { unfold group_argmax. rewrite Hsearch. reflexivity. }
    rewrite <- Ham in Hin1, Hsum1.
    specialize (IH f1). cbn zeta in IH.
    destruct Hs1 as (Hmode1 & Hwarn1 & Hcd1 & Hcs1).
    destruct (for_each gs (shift_group power self npts dt pad) f1) as [f2 [[]|e]] eqn:Hrun2;
      cbn [fst snd] in IH |- *.
    2:{ destruct IH as ((Hm2 & Hw2 & Hcd2 & Hcs2) & Ho2 & He).
        split; [|split; [|exact He]].
        - repeat split; try congruence; eauto using same_core_list_trans.
        - intros j Hj. pose proof (proj1 (last_group_none _ _ _) Hj) as Hall.
          destruct (Ho1 j) as (A1 & B1); [apply Hall; left; reflexivity|].
          destruct (Ho2 j) as (A2 & B2).
          { apply last_group_none. intros g0 Hg0.
            rewrite (selected_core _ _ g0 j Hcd1). apply Hall. right; exact Hg0. }
          split; congruence. }
    destruct IH as ((Hm2 & Hw2 & Hcd2 & Hcs2) & Ho2 & Hpad2 & Hall2 & Hlast2 & Hsum2).
    split; [|split; [|split; [|split; [|split]]]].
    + repeat split; try congruence; eauto using same_core_list_trans.
    + intros j Hj. pose proof (proj1 (last_group_none _ _ _) Hj) as Hall.
      destruct (Ho1 j) as (A1 & B1); [apply Hall; left; reflexivity|].
      destruct (Ho2 j) as (A2 & B2).
      { apply last_group_none. intros g0 Hg0.
        rewrite (selected_core _ _ g0 j Hcd1). apply Hall. right; exact Hg0. }
      split; congruence.
    + intros _. exact Hpad.
    + intros g0 [<-|Hg0].
      * exists res. split; [exact Hsearch|]. split; [exact Hlen|].
        intros i Hi. destruct (Hin1 i Hi) as (si & di & sr & w & A & B & C & D & _).
        exists si, di, sr, w. auto.
      * destruct (Hall2 g0 Hg0) as (res0 & Hs0 & Hl0 & Hrec0).
        rewrite Hmode1 in Hs0.
        rewrite (lag_search_core _ _ _ _ _ g0 _ Hcd1 Hcs1) in Hs0.
        rewrite <- (same_core_length _ _ Hcd1) in Hs0.
        rewrite (filter_ext _ _ (fun i => selected_core _ _ g0 i Hcd1)) in Hs0.
        exists res0. split; [exact Hs0|]. split; [exact Hl0|].
        intros i Hi. rewrite <- (selected_core _ _ g0 i Hcd1) in Hi.
        destruct (Hrec0 i Hi) as (si1 & di1 & sr & w & A & B & C & D).
        rewrite Hmode1, (group_argmax_core _ _ _ _ _ pad g0 Hcd1 Hcs1) in D.
        destruct (nth_error_same_core_inv _ _ _ _ Hcs1 A) as (si & Hsi & Hcsi).
        destruct (nth_error_same_core_inv _ _ _ _ Hcd1 B) as (di & Hdi & Hcdi).
        exists si, di, sr, w. split; [exact Hsi|]. split; [exact Hdi|]. split.
        -- destruct Hcdi as (_ & _ & Hw). congruence.
        -- rewrite <- D. symmetry. apply record_residuals_core; assumption.
    + intros i g0 Hlast. cbn [last_group] in Hlast.
      destruct (last_group (traces (obs f)) gs i) as [g'|] eqn:Hl.
      * inversion Hlast; subst g'. clear Hlast.
        rewrite <- (last_group_core _ _ gs i Hcd1) in Hl.
        destruct (Hlast2 i g0 Hl) as (si1 & di1 & sr & A & B & C & D & E).
        rewrite Hmode1, (group_argmax_core _ _ _ _ _ pad g0 Hcd1 Hcs1) in C, D.
        destruct (nth_error_same_core_inv _ _ _ _ Hcs1 A) as (si & Hsi & Hcsi).
        destruct (nth_error_same_core_inv _ _ _ _ Hcd1 B) as (di & Hdi & Hcdi).
        exists si, di, sr. split; [exact Hsi|]. split; [exact Hdi|]. split.
        { rewrite <- C. symmetry. apply record_residuals_core; assumption. }
        destruct (selected (traces (obs f)) g i) eqn:Hsel.
        -- destruct (Hin1 i Hsel) as (si0 & di0 & sr0 & w0 & A0 & B0 & _ & _ & E0 & F0).
           assert (si0 = si) by congruence. assert (di0 = di) by congruence. subst.
           rewrite E0 in A. inversion A; subst si1.
           rewrite F0 in B. inversion B; subst di1.
           rewrite D, E. split; reflexivity.
        -- destruct (Ho1 i Hsel) as (A1 & B1).
           rewrite A1, Hdi in B. inversion B; subst di1.
           rewrite B1, Hsi in A. inversion A; subst si1.
           split; assumption.
      * destruct (selected (traces (obs f)) g i) eqn:Hsel; [|discriminate].
        inversion Hlast; subst g0. clear Hlast.
        rewrite <- (last_group_core _ _ gs i Hcd1) in Hl.
        destruct (Ho2 i Hl) as (A2 & B2).
        destruct (Hin1 i Hsel) as (si & di & sr & w & A & B & C & D & E & F).
        exists si, di, sr. repeat split; auto; congruence.
    + rewrite Hsum2. cbn [fold_left]. rewrite Hmode1.
      assert (Hfirst : group_total power (order self) dt npts pad (traces (obs f))
                         (traces (syn f)) (time_shift_mode (obs f)) g (sum_misfit f)
                       = sum_misfit f1).
      { unfold group_total. symmetry. exact Hsum1. }
      rewrite Hfirst. generalize (sum_misfit f1). clear - Hcd1 Hcs1.
      induction gs as [|g0 gs IHg]; intros acc; cbn [fold_left]; [reflexivity|].
      rewrite (group_total_core (order self) dt npts pad _ _ _ _
                 (time_shift_mode (obs f)) g0 acc Hcd1 Hcs1).
      apply IHg.
Qed.

End WithPower.

End AlignFacts.

(** ** Parts 1 to 3 for one station, and the loop over stations *)

Module StationFacts.

Import NumPy SciPy MtuqMath Cap Frames CapFacts SearchFacts AlignFacts.

Lemma pad_traces_run (ts : list Trace) (n : Z) :
  pad_traces ts n =
  if (n <? 0)%Z
  then match ts with [] => Ok [] | _ :: _ => Raise ValueError end
  else Ok (map (fun t => set_data t (repeat 0 (Z.to_nat n) ++ data t
                                      ++ repeat 0 (Z.to_nat n))%list) ts).
Proof.
  induction ts as [|t ts IH]; cbn [pad_traces map].
  - destruct (n <? 0)%Z; reflexivity.
  - unfold pad at 1. rewrite IH. destruct (n <? 0)%Z; reflexivity.
Qed.

(** Lines 65-91, case by case. *)
Lemma prepare_run (self : Misfit) (f : Frame) :
  prepare self f =
  match nth_error (traces (obs f)) 0, nth_error (traces (syn f)) 0 with
  | None, _ => (f, Raise IndexError)
  | Some _, None => (f, Raise IndexError)
  | Some d0, Some s0 =>
      let npts := Z.of_nat (length (data d0)) in
      let npts_syn := Z.of_nat (length (data s0)) in
      let dt := delta (stats d0) in
      if Qeq_bool dt 0 then (f, Raise ZeroDivisionError)
      else
        let pad := py_round (time_shift_max self / dt) in
        if (npts_syn - npts =? 2 * pad)%Z then (f, Ok (npts, dt, pad))
        else if (npts =? npts_syn)%Z then
          match pad_traces (traces (syn f)) pad with
          | Ok ts =>
              (mkFrame (obs f) (set_traces (syn f) ts) (sum_misfit f)
                       (warnings f ++ [padding_warning]), Ok (npts, dt, pad))
          | Raise e =>
              (mkFrame (obs f) (syn f) (sum_misfit f)
                       (warnings f ++ [padding_warning]), Raise e)
          end
        else (f, Raise DataShapeException)
  end.
Proof.
  unfold prepare, bind, get_d, get_s, item, lift, py_div, size.
  destruct (nth_error (traces (obs f)) 0) as [d0|]; [|reflexivity].
  destruct (nth_error (traces (syn f)) 0) as [s0|]; [|reflexivity].
  cbn zeta. destruct (Qeq_bool (delta (stats d0)) 0); [reflexivity|].
  destruct (_ =? _)%Z; [reflexivity|].
  destruct (_ =? _)%Z; [|reflexivity].
  cbn. destruct (pad_traces (traces (syn f)) _); reflexivity.
Qed.

Lemma select_mode_run (npts pad : Z) (f : Frame) :
  select_mode npts pad f =
  (match time_shift_mode (obs f) with
   | Some _ => f
   | None => mkFrame (set_time_shift_mode (obs f) (choose_mode npts pad))
                     (syn f) (sum_misfit f) (warnings f)
   end, Ok tt).
Proof.
  unfold select_mode, bind, get. destruct (time_shift_mode (obs f)); reflexivity.
Qed.

(** What part 1 yields and what it leaves behind. *)
Lemma prepare_effect (self : Misfit) (f : Frame) :
  let f1 := fst (prepare self f) in
  obs f1 = obs f /\ sum_misfit f1 = sum_misfit f /\
  time_shift_mode (syn f1) = time_shift_mode (syn f) /\
  match snd (prepare self f) with
  | Ok g =>
      exists d0 s0,
        nth_error (traces (obs f)) 0 = Some d0 /\
        nth_error (traces (syn f)) 0 = Some s0 /\
        Qeq_bool (delta (stats d0)) 0 = false /\
        g = (Z.of_nat (length (data d0)), delta (stats d0),
             py_round (time_shift_max self / delta (stats d0))) /\
        ((Z.of_nat (length (data s0)) - Z.of_nat (length (data d0)) = 2 * snd g)%Z /\
         f1 = f
         \/
         (Z.of_nat (length (data s0)) - Z.of_nat (length (data d0)) <> 2 * snd g)%Z /\
         length (data s0) = length (data d0) /\
         (0 <= snd g)%Z /\
         traces (syn f1) =
           map (fun t => set_data t (repeat 0 (Z.to_nat (snd g)) ++ data t
                                       ++ repeat 0 (Z.to_nat (snd g)))%list)
               (traces (syn f)) /\
         warnings f1 = (warnings f ++ [padding_warning])%list)
  | Raise e =>
      syn f1 = syn f /\
      (e = IndexError \/ e = ZeroDivisionError \/ e = ValueError \/
       e = DataShapeException)
  end.
Proof.
  cbn zeta. rewrite prepare_run.
  destruct (nth_error (traces (obs f)) 0) as [d0|] eqn:Hd0; [|cbn; auto 10].
  destruct (nth_error (traces (syn f)) 0) as [s0|] eqn:Hs0; [|cbn; auto 10].
  cbn zeta. destruct (Qeq_bool (delta (stats d0)) 0) eqn:Hdt; [cbn; auto 10|].
  destruct (_ =? _)%Z eqn:E1.
  { apply Z.eqb_eq in E1. cbn [fst snd]. repeat split.
    exists d0, s0. repeat split; auto. }
  apply Z.eqb_neq in E1.
  destruct (_ =? _)%Z eqn:E2; [|cbn; auto 10].
  apply Z.eqb_eq in E2. rewrite pad_traces_run.
  destruct (_ <? 0)%Z eqn:E3.
  - destruct (traces (syn f)); [discriminate|]. cbn. auto 10.
  - apply Z.ltb_ge in E3. cbn [fst snd obs syn sum_misfit warnings set_traces
                                 traces time_shift_mode].
    repeat split. exists d0, s0. repeat split; auto.
    right. cbn [fst snd]. repeat split; auto. lia.
Qed.

Section WithPower.

Variable power : Q -> Q -> Q.

Lemma waveforms_run (self : Misfit) (f : Frame) :
  waveforms power self f =
  match prepare self f with
  | (f1, Ok g) =>
      for_each (time_shift_groups self)
        (shift_group power self (fst (fst g)) (snd (fst g)) (snd g))
        (fst (select_mode (fst (fst g)) (snd g) f1))
  | (f1, Raise e) => (f1, Raise e)
  end.
Proof.
  unfold waveforms. rewrite bind_run.
  destruct (prepare self f) as [f1 [g|e]]; [|reflexivity].
  rewrite bind_run, select_mode_run. reflexivity.
Qed.

Lemma station_run (self : Misfit) (f : Frame) :
  station power self f =
  match waveforms power self f with
  | (f1, Ok _) =>
      if Qlt_le_dec 0 (polarity_weight self) then (f1, Raise NotImplementedError)
      else (f1, Ok tt)
  | (f1, Raise e) => (f1, Raise e)
  end.
Proof.
  unfold station. rewrite bind_run.
  destruct (waveforms power self f) as [f1 [[]|e]]; [|reflexivity].
  unfold polarity. destruct (Qlt_le_dec 0 (polarity_weight self)); reflexivity.
Qed.

Lemma nth_error_combine (A B : Type) (l : list A) (l' : list B) k a b :
  nth_error l k = Some a -> nth_error l' k = Some b ->
  nth_error (combine l l') k = Some (a, b).
Proof.
  revert l' k; induction l as [|x l IH]; intros [|y l'] [|k] Ha Hb;
    cbn in *; try discriminate.
  - congruence.
  - apply IH; assumption.
Qed.

Lemma Forall2_nth_error (A B : Type) (R : A -> B -> Prop) l l' k a :
  Forall2 R l l' -> nth_error l k = Some a ->
  exists b, nth_error l' k = Some b /\ R a b.
Proof.
  intros H; revert k; induction H; intros [|k] Hk; cbn in *; try discriminate.
  - inversion Hk; subst. eauto.
  - eauto.
Qed.

(** Every station pair is either as it was or as one pass of the loop
    body left it; when the loop ends normally every pass ended normally. *)
Lemma station_loop_stations (self : Misfit) pairs : forall total w,
  let o := station_loop power self pairs total w in
  Forall2 (fun ds ds' => ds' = ds \/ visited power self ds ds') pairs (stations_after o) /\
  (forall v, returned o = Ok v ->
     Forall2 (completed power self) pairs (stations_after o)).
Proof.
  induction pairs as [|[d s] rest IH]; intros total w; cbn zeta.
  - cbn. split; [constructor|]. intros _ _. constructor.
  - cbn [station_loop].
    destruct (station power self (mkFrame d s total w)) as [f' [[]|e]] eqn:Hrun.
    + specialize (IH (sum_misfit f') (warnings f')). cbn zeta in IH.
      destruct IH as (IH1 & IH2). cbn [stations_after returned]. split.
      * constructor; [|exact IH1]. right. exists total, w. cbn [fst snd].
        rewrite Hrun. reflexivity.
      * intros v Hv. constructor; [|apply (IH2 v Hv)].
        exists total, w, f'. cbn [fst snd]. split; [exact Hrun|reflexivity].
    + cbn [stations_after returned]. split; [|discriminate].
      constructor.
      * right. exists total, w. cbn [fst snd]. rewrite Hrun. reflexivity.
      * clear. induction rest; constructor; auto.
Qed.

Lemma call_stations (self : Misfit) (data synthetics : list Dataset) :
  let o := call power self data synthetics in
  Forall2 (fun ds ds' => ds' = ds \/ visited power self ds ds')
          (combine data synthetics) (stations_after o) /\
  (forall v, returned o = Ok v ->
     Forall2 (completed power self) (combine data synthetics) (stations_after o)).
Proof.
  cbn zeta. unfold call. cbn [stations_after returned].
  destruct (station_loop_stations self (combine data synthetics) 0 []) as (H1 & H2).
  split; [exact H1|]. intros v Hv.
  destruct (returned (station_loop power self (combine data synthetics) 0 [])) as [t|e] eqn:E;
    [|discriminate].
  apply (H2 t). reflexivity.
Qed.

End WithPower.

End StationFacts.

(** ** Rounding and the sign of the padding *)

Module PaddingFacts.

Import Cap.

Lemma py_round_nonneg (x : Q) : 0 <= x -> (0 <= py_round x)%Z.
Proof.
  intros H. unfold py_round.
  assert (Hf : (0 <= Qfloor x)%Z).
  { change 0%Z with (Qfloor 0). apply Qfloor_resp_le. exact H. }
  destruct (Qcompare _ _); [destruct (Z.even _)| |]; lia.
Qed.

Lemma padding_nonneg (tsm dt : Q) : 0 <= tsm -> 0 < dt -> (0 <= py_round (tsm / dt))%Z.
Proof.
  intros H1 H2. apply py_round_nonneg. unfold Qdiv.
  apply Qmult_le_0_compat; [exact H1|]. apply Qinv_le_0_compat, Qlt_le_weak, H2.
Qed.

Lemma positive_not_zero (dt : Q) : 0 < dt -> Qeq_bool dt 0 = false.
Proof.
  intros H. destruct (Qeq_bool dt 0) eqn:E; [|reflexivity].
  apply Qeq_bool_eq in E. rewrite E in H. exfalso. apply (Qlt_irrefl 0 H).
Qed.

End PaddingFacts.

(** ** Padding validation, the cached mode and the polarity term *)

Module EvaluatorClaims.

Import NumPy SciPy MtuqMath Cap Frames CapFacts SearchFacts AlignFacts StationFacts.
Import PaddingFacts Examples.

(** C2, as the code has it.  Let [npts_padding = round(time_shift_max/dt)]
    with [time_shift_max >= 0] and [dt > 0].  A station whose synthetics
    are longer than the data by [2*npts_padding] passes with nothing
    changed and no warning.  Failing that, a station whose synthetics are
    as long as the data passes with every synthetic record zero-padded by
    [npts_padding] samples on each side and one warning issued.  Any other
    station raises the data-shape exception, which ends the whole call
    with the station pairs as they were. *)
Theorem padding_validation (power : Q -> Q -> Q) (self : Misfit)
    (d s : Dataset) (d0 s0 : Trace) (rest : list (Dataset * Dataset))
    (total : Q) (w : list string) :
  nth_error (traces d) 0 = Some d0 ->
  nth_error (traces s) 0 = Some s0 ->
  0 <= time_shift_max self ->
  0 < delta (stats d0) ->
  let npts_dat := Z.of_nat (length (data d0)) in
  let npts_syn := Z.of_nat (length (data s0)) in
  let dt := delta (stats d0) in
  let npts_padding := py_round (time_shift_max self / dt) in
  let f := mkFrame d s total w in
  ((npts_syn - npts_dat = 2 * npts_padding)%Z ->
     prepare self f = (f, Ok (npts_dat, dt, npts_padding))) /\
  ((npts_syn - npts_dat <> 2 * npts_padding)%Z -> npts_syn = npts_dat ->
     prepare self f =
       (mkFrame d
          (set_traces s
             (map (fun t => set_data t (repeat 0 (Z.to_nat npts_padding) ++ data t
                                          ++ repeat 0 (Z.to_nat npts_padding))%list)
                  (traces s)))
          total (w ++ [padding_warning])%list,
        Ok (npts_dat, dt, npts_padding))) /\
  ((npts_syn - npts_dat <> 2 * npts_padding)%Z -> npts_syn <> npts_dat ->
     prepare self f = (f, Raise DataShapeException) /\
     station_loop power self ((d, s) :: rest) total w
       = mkOutcome (Raise DataShapeException) ((d, s) :: rest) w).
Proof.
  intros Hd0 Hs0 Htsm Hdt. cbn zeta.
  pose proof (padding_nonneg _ _ Htsm Hdt) as Hpad.
  assert (Hrun := prepare_run self (mkFrame d s total w)).
  cbn [obs syn sum_misfit warnings] in Hrun. rewrite Hd0, Hs0 in Hrun.
  cbn zeta in Hrun. rewrite (positive_not_zero _ Hdt) in Hrun.
  split; [|split].
  - intros H. rewrite Hrun. apply Z.eqb_eq in H. rewrite H. reflexivity.
  - intros H1 H2. rewrite Hrun. apply Z.eqb_neq in H1. rewrite H1.
    rewrite H2, Z.eqb_refl. rewrite pad_traces_run.
    apply Z.ltb_ge in Hpad. rewrite Hpad. reflexivity.
  - intros H1 H2. apply Z.eqb_neq in H1.
    assert (H3 : (Z.of_nat (length (data d0)) =? Z.of_nat (length (data s0)))%Z = false)
      by (apply Z.eqb_neq; congruence).
    rewrite H1, H3 in Hrun. split; [exact Hrun|].
    cbn [station_loop]. rewrite station_run, waveforms_run, Hrun. reflexivity.
Qed.

Lemma padding_validation_witness :
  prepare one_second (mkFrame observed_z synthetic_z_padded 0 [])
    = (mkFrame observed_z synthetic_z_padded 0 [], Ok (2%Z, 1, 1%Z)) /\
  prepare one_second (mkFrame observed_z synthetic_z 0 [])
    = (mkFrame observed_z synthetic_z_padded 0 [padding_warning], Ok (2%Z, 1, 1%Z)) /\
  station_loop power_order1 one_second [(observed_z, synthetic_z_long)] 0 []
    = mkOutcome (Raise DataShapeException) [(observed_z, synthetic_z_long)] [].
Proof.
  assert (Hts : 0 <= time_shift_max one_second) by (cbn; discriminate).
  assert (Hdt : 0 < delta (stats (record [1; 2] "BHZ" (Some 1)))) by reflexivity.
  split; [|split].
  - apply (proj1 (padding_validation power_order1 one_second observed_z
                    synthetic_z_padded _ _ [] 0 [] eq_refl eq_refl Hts Hdt)).
    reflexivity.
  - apply (proj1 (proj2 (padding_validation power_order1 one_second observed_z
                    synthetic_z _ _ [] 0 [] eq_refl eq_refl Hts Hdt)));
      [discriminate | reflexivity].
  - apply (proj2 (proj2 (padding_validation power_order1 one_second observed_z
                    synthetic_z_long _ _ [] 0 [] eq_refl eq_refl Hts Hdt)));
      discriminate.
Defined.

(** C2 as stated fails: with the default [time_shift_max = 0] the
    synthetics are as long as the data, the call returns, and no warning
    is issued. *)
Lemma padding_warning_not_issued :
  length (data (record [1; 2] "BHZ" None)) = length (data (record [1; 2] "BHZ" (Some 1))) /\
  returned (call power_order1 no_shift [observed_z] [synthetic_z]) = Ok 0 /\
  warned (call power_order1 no_shift [observed_z] [synthetic_z]) = [].
Proof. repeat split. Qed.

(** The cached mode through one pass of the loop body. *)
Lemma station_mode (power : Q -> Q -> Q) (self : Misfit) (f : Frame) :
  let f' := fst (station power self f) in
  (forall m, time_shift_mode (obs f) = Some m -> time_shift_mode (obs f') = Some m) /\
  (time_shift_mode (obs f) = None ->
     match prepare self f with
     | (_, Ok g) => time_shift_mode (obs f') = Some (choose_mode (fst (fst g)) (snd g))
     | (_, Raise _) => time_shift_mode (obs f') = None
     end).
Proof.
  cbn zeta. rewrite station_run, waveforms_run.
  pose proof (prepare_effect self f) as Hp. cbn zeta in Hp.
  destruct (prepare self f) as [f1 [g|e]]; cbn [fst snd] in Hp.
  2:{ destruct Hp as (Ho & _). cbn [fst]. rewrite Ho. split; [auto|auto]. }
  destruct Hp as (Ho & _). rewrite select_mode_run. cbn [fst].
  pose proof (groups_loop power self (fst (fst g)) (snd (fst g)) (snd g)
                (time_shift_groups self)) as Hg.
  split.
  - intros m Hm. rewrite Ho, Hm.
    specialize (Hg f1). cbn zeta in Hg. destruct Hg as ((Hmode & _) & _).
    destruct (for_each _ _ f1) as [f2 [[]|e]]; cbn [fst] in Hmode |- *;
      [destruct (Qlt_le_dec 0 (polarity_weight self))|]; cbn [fst]; congruence.
  - intros Hm. rewrite Ho, Hm.
    match goal with |- context [for_each _ _ ?fr] => specialize (Hg fr) end.
    cbn zeta in Hg. destruct Hg as ((Hmode & _) & _).
    destruct (for_each _ _ _) as [f2 [[]|e]]; cbn [fst] in Hmode |- *;
      [destruct (Qlt_le_dec 0 (polarity_weight self))|]; cbn [fst]; exact Hmode.
Qed.

Lemma choose_mode_rule (npts pad : Z) :
  (choose_mode npts pad = 0%Z <-> pad = 0%Z) /\
  (choose_mode npts pad = 1%Z <-> pad <> 0%Z /\ (2000 < npts \/ 200 < pad)%Z) /\
  (choose_mode npts pad = 2%Z <-> pad <> 0%Z /\ ~ (2000 < npts \/ 200 < pad)%Z).
Proof.
  unfold choose_mode.
  destruct (pad =? 0)%Z eqn:E0; [apply Z.eqb_eq in E0|apply Z.eqb_neq in E0];
    destruct (2000 <? npts)%Z eqn:E1; [apply Z.ltb_lt in E1| apply Z.ltb_ge in E1
                                      |apply Z.ltb_lt in E1| apply Z.ltb_ge in E1];
    destruct (200 <? pad)%Z eqn:E2; try apply Z.ltb_lt in E2; try apply Z.ltb_ge in E2;
    cbn [orb]; repeat split; intros; try discriminate; try lia; try tauto.
Qed.

(** C4.  The mode of an observation set is written only while the set
    has none: a set that enters a call with a mode leaves it with the same
    mode, whatever the configuration, the synthetics and the outcome; a
    set that enters without a mode leaves either still without one or with
    the mode of the rule ([0] when [npts_padding == 0], else [1] when
    [npts > 2000] or [npts_padding > 200], else [2]), and it has that mode
    whenever the call returns; a later call over the same sets, for any
    configuration and any synthetics, leaves the decided mode in place. *)
Theorem mode_decided_once (power : Q -> Q -> Q) (self : Misfit)
    (observations synthetics : list Dataset) (k : nat) (d s : Dataset) :
  nth_error observations k = Some d ->
  nth_error synthetics k = Some s ->
  exists d' s',
    nth_error (stations_after (call power self observations synthetics)) k = Some (d', s') /\
    (forall m, time_shift_mode d = Some m -> time_shift_mode d' = Some m) /\
    (time_shift_mode d = None ->
       exists npts npts_padding,
         (time_shift_mode d' = None \/
          time_shift_mode d' = Some (choose_mode npts npts_padding)) /\
         ((exists v, returned (call power self observations synthetics) = Ok v) ->
            time_shift_mode d' = Some (choose_mode npts npts_padding) /\
            exists d0, nth_error (traces d) 0 = Some d0 /\
              npts = Z.of_nat (length (data d0)) /\
              npts_padding = py_round (time_shift_max self / delta (stats d0))) /\
         (choose_mode npts npts_padding = 0%Z <-> npts_padding = 0%Z) /\
         (choose_mode npts npts_padding = 1%Z <->
            npts_padding <> 0%Z /\ (2000 < npts \/ 200 < npts_padding)%Z) /\
         (choose_mode npts npts_padding = 2%Z <->
            npts_padding <> 0%Z /\ ~ (2000 < npts \/ 200 < npts_padding)%Z)) /\
    (forall m self2 synthetics2 s2,
       time_shift_mode d' = Some m ->
       nth_error synthetics2 k = Some s2 ->
       exists d'' s'',
         nth_error (stations_after
                      (call power self2
                            (map fst (stations_after (call power self observations synthetics)))
                            synthetics2)) k = Some (d'', s'') /\
         time_shift_mode d'' = Some m).
Proof.
  assert (Hkeep : forall self1 data1 synthetics1 d1 s1,
            nth_error data1 k = Some d1 -> nth_error synthetics1 k = Some s1 ->
            exists d' s',
              nth_error (stations_after (call power self1 data1 synthetics1)) k
                = Some (d', s') /\
              (d' = d1 \/ exists total w,
                 d' = obs (fst (station power self1 (mkFrame d1 s1 total w)))) /\
              ((exists v, returned (call power self1 data1 synthetics1) = Ok v) ->
                 exists total w f', station power self1 (mkFrame d1 s1 total w) = (f', Ok tt)
                                    /\ d' = obs f')).
  { intros self1 data1 synthetics1 d1 s1 H1 H2.
    destruct (call_stations power self1 data1 synthetics1) as (Hv & Hc).
    pose proof (nth_error_combine _ _ _ _ _ _ _ H1 H2) as Hk.
    destruct (Forall2_nth_error _ _ _ _ _ _ _ Hv Hk) as ([d' s'] & Hk' & Hrel).
    exists d', s'. split; [exact Hk'|]. split.
    - destruct Hrel as [Heq|(total & w & Heq)].
      + left. congruence.
      + right. exists total, w. cbn [fst snd] in Heq. congruence.
    - intros (v & Hret). specialize (Hc v Hret).
      destruct (Forall2_nth_error _ _ _ _ _ _ _ Hc Hk) as ([d2 s2] & Hk2 & total & w & f' & Hrun & Heq).
      exists total, w, f'. cbn [fst snd] in Hrun. split; [exact Hrun|]. congruence. }
  assert (Hsome : forall self1 data1 synthetics1 d1 s1 m,
            nth_error data1 k = Some d1 -> nth_error synthetics1 k = Some s1 ->
            time_shift_mode d1 = Some m ->
            exists d' s',
              nth_error (stations_after (call power self1 data1 synthetics1)) k
                = Some (d', s') /\ time_shift_mode d' = Some m).
  { intros self1 data1 synthetics1 d1 s1 m H1 H2 Hm.
    destruct (Hkeep self1 data1 synthetics1 d1 s1 H1 H2) as (d' & s' & Hk' & Hrel & _).
    exists d', s'. split; [exact Hk'|].
    destruct Hrel as [->|(total & w & ->)]; [exact Hm|].
    apply (proj1 (station_mode power self1 (mkFrame d1 s1 total w))). exact Hm. }
  intros Hd Hs.
  destruct (Hkeep self observations synthetics d s Hd Hs) as (d' & s' & Hk' & Hrel & Hok).
  exists d', s'. split; [exact Hk'|]. split; [|split].
  - intros m Hm. destruct (Hsome self observations synthetics d s m Hd Hs Hm) as (d2 & s2 & Hk2 & Hm2).
    congruence.
  - intros Hnone.
    destruct (nth_error (traces d) 0) as [d0|] eqn:Hd0.
    + exists (Z.of_nat (length (data d0))),
             (py_round (time_shift_max self / delta (stats d0))).
      assert (Hcase : forall total w,
                let f' := fst (station power self (mkFrame d s total w)) in
                (time_shift_mode (obs f') = None \/
                 time_shift_mode (obs f') =
                   Some (choose_mode (Z.of_nat (length (data d0)))
                                     (py_round (time_shift_max self / delta (stats d0))))) /\
                (snd (station power self (mkFrame d s total w)) = Ok tt ->
                 time_shift_mode (obs f') =
                   Some (choose_mode (Z.of_nat (length (data d0)))
                                     (py_round (time_shift_max self / delta (stats d0)))))).
      { intros total w. cbn zeta.
        pose proof (proj2 (station_mode power self (mkFrame d s total w)) Hnone) as Hst.
        pose proof (prepare_effect self (mkFrame d s total w)) as Hp. cbn zeta in Hp.
        assert (Hrs := station_run power self (mkFrame d s total w)).
        rewrite waveforms_run in Hrs.
        destruct (prepare self (mkFrame d s total w)) as [f1 [g|e]]; cbn [fst snd] in Hp.
        - destruct Hp as (_ & _ & _ & d1 & s1 & Hd1 & _ & _ & Hg & _).
          cbn [obs traces] in Hd1. rewrite Hd0 in Hd1. inversion Hd1; subst d1.
          subst g. cbn [fst snd] in Hst. split; [right; exact Hst|intros _; exact Hst].
        - split; [left; exact Hst|]. rewrite Hrs. discriminate. }
      split; [|split; [|apply choose_mode_rule]].
      * destruct Hrel as [->|(total & w & ->)]; [left; exact Hnone|].
        apply (proj1 (Hcase total w)).
      * intros Hret. destruct (Hok Hret) as (total & w & f' & Hrun & ->).
        split; [|exists d0; auto].
        pose proof (proj2 (Hcase total w)) as H2. rewrite Hrun in H2. apply H2. reflexivity.
    + exists 0%Z, 0%Z.
      assert (Hcase : forall total w,
                time_shift_mode (obs (fst (station power self (mkFrame d s total w)))) = None /\
                snd (station power self (mkFrame d s total w)) <> Ok tt).
      { intros total w.
        pose proof (proj2 (station_mode power self (mkFrame d s total w)) Hnone) as Hst.
        assert (Hrs := station_run power self (mkFrame d s total w)).
        rewrite waveforms_run in Hrs.
        rewrite prepare_run in Hst, Hrs. cbn [obs traces] in Hst, Hrs.
        rewrite Hd0 in Hst, Hrs. split; [exact Hst|]. rewrite Hrs. discriminate. }
      split; [|split; [|apply choose_mode_rule]].
      * left. destruct Hrel as [->|(total & w & ->)]; [exact Hnone|].
        apply (proj1 (Hcase total w)).
      * intros Hret. destruct (Hok Hret) as (total & w & f' & Hrun & ->).
        exfalso. apply (proj2 (Hcase total w)). rewrite Hrun. reflexivity.
  - intros m self2 synthetics2 s2 Hm Hs2.
    apply (Hsome self2 _ synthetics2 d' s2 m); [|exact Hs2|exact Hm].
    rewrite nth_error_map, Hk'. reflexivity.
Qed.

Lemma mode_decided_once_witness :
  exists d' s',
    nth_error (stations_after (call power_order1 one_second [observed_z] [synthetic_z_padded])) 0
      = Some (d', s') /\
    time_shift_mode d' = Some 2%Z.
Proof.
  destruct (mode_decided_once power_order1 one_second [observed_z] [synthetic_z_padded]
              0 observed_z synthetic_z_padded eq_refl eq_refl)
    as (d' & s' & Hk & _ & Hnone & _).
  exists d', s'. split; [exact Hk|].
  destruct (Hnone eq_refl) as (npts & pad & _ & Hret & _).
  destruct Hret as (Hmode & d0 & Hd0 & Hn & Hp).
  - eexists. reflexivity.
  - rewrite Hmode, Hn, Hp. inversion Hd0. subst d0. reflexivity.
Defined.

(** Parts 1 and 2 never raise the not-implemented error. *)
Lemma waveforms_raises (power : Q -> Q -> Q) (self : Misfit) (f f1 : Frame) (e : exn) :
  waveforms power self f = (f1, Raise e) -> e <> NotImplementedError.
Proof.
  rewrite waveforms_run.
  pose proof (prepare_effect self f) as Hp. cbn zeta in Hp.
  destruct (prepare self f) as [f0 [g|e0]]; cbn [fst snd] in Hp.
  - rewrite select_mode_run. cbn [fst].
    match goal with |- context [for_each _ _ ?fr] =>
      pose proof (groups_loop power self (fst (fst g)) (snd (fst g)) (snd g)
                    (time_shift_groups self) fr) as Hg end.
    cbn zeta in Hg. destruct Hg as (_ & _ & Hg).
    destruct (for_each _ _ _) as [f2 [[]|e2]]; cbn [snd] in Hg; [discriminate|].
    intros H; inversion H; subst. destruct Hg as [->|[->| ->]]; discriminate.
  - destruct Hp as (_ & _ & _ & _ & He). intros H; inversion H; subst.
    destruct He as [->|[->|[->| ->]]]; discriminate.
Qed.

Lemma station_loop_not_implemented (power : Q -> Q -> Q) (self : Misfit) pairs :
  forall total w,
  returned (station_loop power self pairs total w) = Raise NotImplementedError ->
  0 < polarity_weight self.
Proof.
  induction pairs as [|[d s] rest IH]; intros total w; cbn [station_loop].
  - discriminate.
  - rewrite station_run.
    destruct (waveforms power self (mkFrame d s total w)) as [f1 [[]|e]] eqn:Hw.
    + destruct (Qlt_le_dec 0 (polarity_weight self)) as [Hlt|Hle].
      * intros _. exact Hlt.
      * cbn [returned]. apply IH.
    + cbn [returned]. intros H; inversion H; subst.
      exfalso. exact (waveforms_raises _ _ _ _ _ Hw eq_refl).
Qed.

(** C9, as the code has it.  With [polarity_weight > 0] a call over at
    least one station never returns: when parts 1 and 2 of the first
    station run to their end the call raises the not-implemented error,
    with that station's records already written to and the later stations
    untouched; when they raise, that exception ends the call instead.  A
    call over no stations does not raise the not-implemented error.  With
    [polarity_weight <= 0] the not-implemented error is never raised. *)
Theorem polarity_term (power : Q -> Q -> Q) (self : Misfit)
    (d s : Dataset) (observations synthetics : list Dataset) :
  (0 < polarity_weight self ->
     (exists e, returned (call power self (d :: observations) (s :: synthetics))
                = Raise e) /\
     (forall f1, waveforms power self (mkFrame d s 0 []) = (f1, Ok tt) ->
        call power self (d :: observations) (s :: synthetics)
        = mkOutcome (Raise NotImplementedError)
                    ((obs f1, syn f1) :: combine observations synthetics)
                    (warnings f1)) /\
     (forall f1 e, waveforms power self (mkFrame d s 0 []) = (f1, Raise e) ->
        returned (call power self (d :: observations) (s :: synthetics)) = Raise e)) /\
  returned (call power self [] synthetics) <> Raise NotImplementedError /\
  (polarity_weight self <= 0 ->
     returned (call power self (d :: observations) (s :: synthetics))
       <> Raise NotImplementedError /\
     returned (call power self observations synthetics) <> Raise NotImplementedError).
Proof.
  split; [|split].
  - intros Hpol.
    assert (Hrun : forall f1, waveforms power self (mkFrame d s 0 []) = (f1, Ok tt) ->
              call power self (d :: observations) (s :: synthetics)
              = mkOutcome (Raise NotImplementedError)
                          ((obs f1, syn f1) :: combine observations synthetics)
                          (warnings f1)).
    { intros f1 Hw. unfold call. cbn [combine station_loop].
      rewrite station_run, Hw.
      destruct (Qlt_le_dec 0 (polarity_weight self)) as [_|Hle]; [reflexivity|].
      exfalso. apply (Qlt_not_le _ _ Hpol Hle). }
    assert (Hraise : forall f1 e, waveforms power self (mkFrame d s 0 []) = (f1, Raise e) ->
              returned (call power self (d :: observations) (s :: synthetics)) = Raise e).
    { intros f1 e Hw. unfold call. cbn [combine station_loop].
      rewrite station_run, Hw. reflexivity. }
    split; [|split; [exact Hrun|exact Hraise]].
    destruct (waveforms power self (mkFrame d s 0 [])) as [f1 [[]|e]] eqn:Hw.
    + exists NotImplementedError. rewrite (Hrun f1 eq_refl). reflexivity.
    + exists e. apply (Hraise f1 e eq_refl).
  - unfold call. cbn [combine station_loop returned rbind].
    unfold py_div, power_of_total.
    destruct (Qeq_bool (order self) 0); cbn [rbind]; [discriminate|].
    destruct (negb _ && negb _); discriminate.
  - intros Hle.
    assert (H : forall obs0 syn0,
              returned (call power self obs0 syn0) <> Raise NotImplementedError).
    { intros obs0 syn0 Hret. unfold call in Hret. cbn [returned] in Hret.
      destruct (returned (station_loop power self (combine obs0 syn0) 0 [])) as [t|e] eqn:E.
      - cbn [rbind] in Hret. unfold py_div, power_of_total in Hret.
        destruct (Qeq_bool (order self) 0); cbn [rbind] in Hret; [discriminate|].
        destruct (negb _ && negb _); discriminate.
      - cbn [rbind] in Hret. inversion Hret; subst.
        apply station_loop_not_implemented in E. apply (Qlt_not_le _ _ E Hle). }
    split; apply H.
Qed.

Lemma polarity_term_witness :
  (exists e, returned (call power_order1 with_polarity [observed_z] [synthetic_z])
             = Raise e) /\
  returned (call power_order1 no_shift [observed_z] [synthetic_z])
    <> Raise NotImplementedError.
Proof.
  split.
  - apply (proj1 (polarity_term power_order1 with_polarity observed_z synthetic_z [] [])).
    reflexivity.
  - apply (proj2 (proj2 (polarity_term power_order1 no_shift observed_z synthetic_z [] []))).
    cbn. discriminate.
Defined.

(** C9 as stated fails: with [polarity_weight > 0] a call over no
    stations returns, and a call whose first station fails the padding
    validation raises the data-shape exception. *)
Lemma polarity_error_not_raised :
  0 < polarity_weight with_polarity /\
  returned (call power_order1 with_polarity [] []) = Ok 0 /\
  returned (call power_order1 with_polarity [observed_z] [synthetic_z_long])
    = Raise DataShapeException.
Proof. repeat split. Qed.

End EvaluatorClaims.

(** ** The first maximum *)

Module ArgmaxFacts.

Import NumPy.

Lemma argmax_from_spec (a : arr) : forall best besti i,
  (besti < i)%nat ->
  let r := argmax_from best besti i a in
  (r = besti /\ forall j, (j < length a)%nat -> nth j a 0 <= best) \/
  ((i <= r < i + length a)%nat /\
   best < nth (r - i) a 0 /\
   (forall j, (j < length a)%nat -> nth j a 0 <= nth (r - i) a 0) /\
   (forall j, (j < r - i)%nat -> nth j a 0 < nth (r - i) a 0)).
Proof.
  induction a as [|x a IH]; intros best besti i Hlt; cbn zeta; cbn [argmax_from].
  - left. split; [reflexivity|]. intros j Hj. cbn in Hj. lia.
  - destruct (Qlt_le_dec best x) as [Hbx|Hxb].
    + right. specialize (IH x i (S i) (Nat.lt_succ_diag_r i)). cbn zeta in IH.
      destruct IH as [(Hr & Hall)|(Hr & Hbest & Hall & Hfirst)].
      * rewrite Hr. replace (i - i)%nat with O by lia. cbn [length nth].
        split; [lia|]. split; [exact Hbx|]. split.
        -- intros [|j] Hj; [apply Qle_refl|]. apply Hall. lia.
        -- intros j Hj. lia.
      * remember (argmax_from x i (S i) a) as r.
        replace (r - i)%nat with (S (r - S i)) by lia. cbn [length nth].
        split; [lia|]. split; [eapply Qlt_trans; eauto|]. split.
        -- intros [|j] Hj; [apply Qlt_le_weak, Hbest|]. apply Hall. lia.
        -- intros [|j] Hj; [exact Hbest|]. apply Hfirst. lia.
    + specialize (IH best besti (S i) (Nat.lt_lt_succ_r _ _ Hlt)). cbn zeta in IH.
      destruct IH as [(Hr & Hall)|(Hr & Hbest & Hall & Hfirst)].
      * left. split; [exact Hr|].
        intros [|j] Hj; cbn [nth]; [exact Hxb|]. apply Hall. cbn in Hj. lia.
      * right. remember (argmax_from best besti (S i) a) as r.
        replace (r - i)%nat with (S (r - S i)) by lia. cbn [length nth].
        split; [lia|]. split; [exact Hbest|]. split.
        -- intros [|j] Hj.
           ++ apply Qlt_le_weak. eapply Qle_lt_trans; eauto.
           ++ apply Hall. lia.
        -- intros [|j] Hj; [eapply Qle_lt_trans; eauto|]. apply Hfirst. lia.
Qed.

(** [argmax] is the first index that holds the maximum. *)
Lemma argmax_first_maximum (a : arr) :
  a <> [] ->
  (argmax a < length a)%nat /\
  (forall j, (j < length a)%nat -> nth j a 0 <= nth (argmax a) a 0) /\
  (forall j, (j < argmax a)%nat -> nth j a 0 < nth (argmax a) a 0).
Proof.
  destruct a as [|x a]; [congruence|]. intros _. cbn [argmax].
  pose proof (argmax_from_spec a x O 1%nat Nat.lt_0_1) as H. cbn zeta in H.
  destruct H as [(Hr & Hall)|(Hr & Hbest & Hall & Hfirst)].
  - rewrite Hr. cbn [length nth]. split; [lia|]. split.
    + intros [|j] Hj; [apply Qle_refl|]. apply Hall. lia.
    + intros j Hj. lia.
  - remember (argmax_from x 0 1 a) as r.
    destruct r as [|r]; [lia|]. replace (S r - 1)%nat with r in * by lia.
    cbn [length nth]. split; [lia|]. split.
    + intros [|j] Hj; [apply Qlt_le_weak, Hbest|]. apply Hall. lia.
    + intros [|j] Hj; [exact Hbest|]. apply Hfirst. lia.
Qed.

Lemma argmax_bound (a : arr) : a <> [] -> (argmax a < length a)%nat.
Proof. intros H. apply (argmax_first_maximum a H). Qed.

Lemma argmax_constant (a : arr) :
  (forall j, (j < length a)%nat -> nth j a 0 == nth 0 a 0) -> argmax a = O.
Proof.
  intros Hconst. destruct a as [|x a]; [reflexivity|].
  destruct (argmax_first_maximum (x :: a)) as (_ & _ & Hfirst); [discriminate|].
  destruct (argmax (x :: a)) as [|r] eqn:E; [reflexivity|].
  exfalso. specialize (Hfirst O (Nat.lt_0_succ r)).
  destruct (argmax_first_maximum (x :: a)) as (Hb & _); [discriminate|].
  rewrite E in Hb. rewrite (Hconst (S r) Hb) in Hfirst.
  apply (Qlt_irrefl _ Hfirst).
Qed.

End ArgmaxFacts.

(** ** The optimal lag *)

Module LagClaims.

Import NumPy SciPy MtuqMath Cap Frames CapFacts SearchFacts AlignFacts StationFacts.
Import ArgmaxFacts Examples.

(** C6, as the code has it.  When the pass over a group ends normally,
    the lag index is the first index at which the summed profile, of
    length [2*npts_padding+1], takes its maximum; every record of the
    group receives the time shift [(argmax - npts_padding) * dt]; and when
    all profile values are equal the index is [0], which is the time shift
    [-npts_padding * dt]. *)
Theorem optimal_lag (power : Q -> Q -> Q) (self : Misfit) (npts : Z) (dt : Q)
    (npts_padding : Z) (group : string) (f f' : Frame) :
  shift_group power self npts dt npts_padding group f = (f', Ok tt) ->
  exists profile,
    lag_search (traces (obs f)) (traces (syn f)) (time_shift_mode (obs f)) group
               (repeat 0 (Z.to_nat (2 * npts_padding + 1)), [])
               (seq 0 (length (traces (obs f))))
      = Ok (profile, filter (selected (traces (obs f)) group)
                            (seq 0 (length (traces (obs f))))) /\
    Z.of_nat (length profile) = (2 * npts_padding + 1)%Z /\
    (argmax profile < length profile)%nat /\
    (forall j, (j < length profile)%nat ->
       nth j profile 0 <= nth (argmax profile) profile 0) /\
    (forall j, (j < argmax profile)%nat ->
       nth j profile 0 < nth (argmax profile) profile 0) /\
    (forall i, selected (traces (obs f)) group i = true ->
       exists si,
         nth_error (traces (syn f')) i = Some si /\
         time_shift si
           = Some (inject_Z (Z.of_nat (argmax profile) - npts_padding) * dt)) /\
    ((forall j, (j < length profile)%nat -> nth j profile 0 == nth 0 profile 0) ->
       argmax profile = O /\
       lag_time_shift (Z.of_nat (argmax profile)) npts_padding dt
         == - (inject_Z npts_padding * dt)).
Proof.
  intros Hrun.
  pose proof (shift_group_effect power self npts dt npts_padding group f) as H.
  cbn zeta in H. rewrite Hrun in H. cbn [fst snd] in H.
  destruct H as (_ & _ & profile & Hpad & Hsearch & Hlen & Hin & _).
  exists profile. split; [exact Hsearch|].
  assert (Hne : profile <> []).
  { intros ->. cbn [length] in Hlen. lia. }
  destruct (argmax_first_maximum profile Hne) as (Hb & Hmax & Hfirst).
  split; [rewrite Hlen; lia|]. split; [exact Hb|]. split; [exact Hmax|].
  split; [exact Hfirst|]. split.
  - intros i Hi. destruct (Hin i Hi) as (si & di & sr & w & _ & _ & _ & _ & Hs & _).
    eexists. split; [exact Hs|]. reflexivity.
  - intros Hconst. rewrite (argmax_constant profile Hconst).
    split; [reflexivity|]. unfold lag_time_shift. cbn [Z.of_nat].
    rewrite Z.sub_0_l, inject_Z_opp. ring.
Qed.

Lemma optimal_lag_witness :
  exists profile,
    Z.of_nat (length profile) = 3%Z /\
    (argmax profile < length profile)%nat /\
    (argmax profile = O /\ lag_time_shift (Z.of_nat (argmax profile)) 1 1 == - (inject_Z 1 * 1)).
Proof.
  destruct (optimal_lag power_order1 one_second 2 1 1 "ZRT"
              (mkFrame observed_flat_decided synthetic_flat 0 [])
              _ eq_refl)
    as (profile & Hsearch & Hlen & Hb & _ & _ & _ & Hconst).
  exists profile. split; [exact Hlen|]. split; [exact Hb|].
  apply Hconst. inversion Hsearch; subst profile.
  intros [|[|[|j]]] Hj; cbn in Hj |- *; try reflexivity. lia.
Defined.

(** C6 as stated fails where it calls index [0] the zero lag: for
    all-zero signals and [npts_padding = 1] the profile is constant, the
    index is [0], and the records receive the time shift of minus one
    second. *)
Lemma flat_profile_is_not_zero_lag :
  exists d' s' si,
    stations_after (call power_order1 one_second [observed_flat] [synthetic_flat])
      = [(d', s')] /\
    nth_error (traces s') 0 = Some si /\
    time_shift si = Some (-1 # 1) /\
    start si = Some 2%Z /\
    ~ (-1 # 1) == 0.
Proof.
  do 3 eexists. split; [reflexivity|]. split; [reflexivity|].
  split; [reflexivity|]. split; [reflexivity|]. discriminate.
Qed.

End LagClaims.

(** ** The derived fields *)

Module FieldClaims.

Import NumPy SciPy MtuqMath Cap Frames CapFacts SearchFacts AlignFacts StationFacts.
Import Examples.

Lemma nth_error_padded (ts : list Trace) (n i : nat) (t' : Trace) :
  nth_error (map (fun t => set_data t (repeat 0 n ++ data t ++ repeat 0 n)%list) ts) i
    = Some t' ->
  exists t, nth_error ts i = Some t /\ same_or_padded t t'.
Proof.
  rewrite nth_error_map. destruct (nth_error ts i) as [t|]; [|discriminate].
  intros H; inversion H; subst. exists t. split; [reflexivity|]. right. exists n. reflexivity.
Qed.

(** What part 1 does to the records. *)
Lemma prepare_records (self : Misfit) (f f1 : Frame) g :
  prepare self f = (f1, Ok g) ->
  obs f1 = obs f /\
  length (traces (syn f1)) = length (traces (syn f)) /\
  forall i,
    match nth_error (traces (syn f1)) i with
    | Some t' => exists t, nth_error (traces (syn f)) i = Some t /\ same_or_padded t t'
    | None => nth_error (traces (syn f)) i = None
    end.
Proof.
  intros Hrun. pose proof (prepare_effect self f) as H. cbn zeta in H.
  rewrite Hrun in H. cbn [fst snd] in H.
  destruct H as (Ho & _ & _ & d0 & s0 & _ & _ & _ & _ & [(_ & ->)|(_ & _ & _ & Ht & _)]).
  - split; [reflexivity|]. split; [reflexivity|]. intros i.
    destruct (nth_error (traces (syn f)) i) as [t|]; [|reflexivity].
    exists t. split; [reflexivity|]. left. reflexivity.
  - split; [exact Ho|]. rewrite Ht. split; [apply length_map|]. intros i.
    destruct (nth_error (map _ _) i) as [t'|] eqn:E.
    + apply nth_error_padded in E. exact E.
    + rewrite nth_error_map in E.
      destruct (nth_error (traces (syn f)) i); [discriminate|reflexivity].
Qed.

Section WithPower.

Variable power : Q -> Q -> Q.

(** A record that no group selects goes through the loop body unread and
    unwritten, apart from the padding of part 1. *)
Lemma station_untouched (self : Misfit) (f : Frame) (i : nat) :
  (forall g, In g (time_shift_groups self) -> selected (traces (obs f)) g i = false) ->
  let f' := fst (station power self f) in
  nth_error (traces (obs f')) i = nth_error (traces (obs f)) i /\
  match nth_error (traces (syn f')) i with
  | Some t' => exists t, nth_error (traces (syn f)) i = Some t /\ same_or_padded t t'
  | None => nth_error (traces (syn f)) i = None
  end.
Proof.
  intros Hsel. cbn zeta. rewrite station_run, waveforms_run.
  pose proof (prepare_effect self f) as Hp. cbn zeta in Hp.
  destruct (prepare self f) as [f1 [g|e]] eqn:Hprep; cbn [fst snd] in Hp.
  2:{ destruct Hp as (Ho & _ & _ & Hs & _). cbn [fst]. rewrite Ho, Hs. split; [reflexivity|].
      destruct (nth_error (traces (syn f)) i) as [t|]; [|reflexivity].
      exists t. split; [reflexivity|left; reflexivity]. }
  destruct (prepare_records self f f1 g Hprep) as (Ho & _ & Hrec).
  rewrite select_mode_run. cbn [fst].
  match goal with |- context [for_each _ _ ?fr] =>
    pose proof (groups_loop power self (fst (fst g)) (snd (fst g)) (snd g)
                  (time_shift_groups self) fr) as Hg; set (f2 := fr) in * end.
  assert (Ht2 : traces (obs f2) = traces (obs f)).
  { unfold f2. destruct (time_shift_mode (obs f1)); rewrite <- Ho; reflexivity. }
  assert (Hs2 : traces (syn f2) = traces (syn f1)).
  { unfold f2. destruct (time_shift_mode (obs f1)); reflexivity. }
  cbn zeta in Hg. destruct Hg as (_ & Hout & _).
  specialize (Hout i). rewrite Ht2, Hs2 in Hout.
  destruct Hout as (Hod & Hos); [apply last_group_none; exact Hsel|].
  assert (Hfst : fst (match for_each (time_shift_groups self)
                              (shift_group power self (fst (fst g)) (snd (fst g)) (snd g)) f2 with
                      | (f3, Ok _) =>
                          if Qlt_le_dec 0 (polarity_weight self)
                          then (f3, Raise NotImplementedError) else (f3, Ok tt)
                      | (f3, Raise e) => (f3, Raise e)
                      end)
                 = fst (for_each (time_shift_groups self)
                          (shift_group power self (fst (fst g)) (snd (fst g)) (snd g)) f2)).
  { destruct (for_each _ _ f2) as [f3 [[]|e]]; [destruct (Qlt_le_dec _ _)|]; reflexivity. }
  rewrite Hfst, Hod, Hos. split; [reflexivity|]. apply Hrec.
Qed.

(** After a pass that ended normally: a record keeps the alignment of the
    last group that selects it, and its observed record its residuals. *)
Lemma station_selected (self : Misfit) (f f' : Frame) :
  station power self f = (f', Ok tt) ->
  length (traces (obs f')) = length (traces (obs f)) /\
  length (traces (syn f')) = length (traces (syn f)) /\
  exists (shift : string -> Q) (first last : string -> Z),
    forall i g, last_group (traces (obs f)) (time_shift_groups self) i = Some g ->
      exists si si1 di sr,
        nth_error (traces (syn f)) i = Some si /\
        same_or_padded si si1 /\
        nth_error (traces (obs f)) i = Some di /\
        nth_error (traces (syn f')) i
          = Some (set_alignment (shift g) g (first g) (last g) si1) /\
        nth_error (traces (obs f')) i = Some (set_sum_residuals sr di).
Proof.
  rewrite station_run, waveforms_run.
  destruct (prepare self f) as [f1 [g|e]] eqn:Hprep; [|discriminate].
  destruct (prepare_records self f f1 g Hprep) as (Ho & Hlen1 & Hrec).
  rewrite select_mode_run. cbn [fst].
  match goal with |- context [for_each _ _ ?fr] =>
    pose proof (groups_loop power self (fst (fst g)) (snd (fst g)) (snd g)
                  (time_shift_groups self) fr) as Hg; set (f2 := fr) in * end.
  assert (Ht2 : traces (obs f2) = traces (obs f)).
  { unfold f2. destruct (time_shift_mode (obs f1)); rewrite <- Ho; reflexivity. }
  assert (Hs2 : traces (syn f2) = traces (syn f1)).
  { unfold f2. destruct (time_shift_mode (obs f1)); reflexivity. }
  cbn zeta in Hg.
  destruct (for_each _ _ f2) as [f3 [[]|e]]; cbn [fst snd] in Hg; [|discriminate].
  destruct (Qlt_le_dec 0 (polarity_weight self)); [discriminate|].
  intros Heq; inversion Heq; subst f3. clear Heq.
  destruct Hg as ((_ & _ & Hcd & Hcs) & _ & _ & _ & Hlast & _).
  rewrite Ht2 in Hcd, Hlast. rewrite Hs2 in Hcs, Hlast.
  split; [symmetry; apply (same_core_length _ _ Hcd)|].
  split; [rewrite <- (same_core_length _ _ Hcs); exact Hlen1|].
  exists (fun g0 => lag_time_shift
                      (group_argmax (traces (obs f)) (traces (syn f1))
                                    (time_shift_mode (obs f2)) (snd g) g0)
                      (snd g) (snd (fst g))),
         (fun g0 => slice_start (snd g)
                      (group_argmax (traces (obs f)) (traces (syn f1))
                                    (time_shift_mode (obs f2)) (snd g) g0)),
         (fun g0 => slice_stop (snd g)
                      (group_argmax (traces (obs f)) (traces (syn f1))
                                    (time_shift_mode (obs f2)) (snd g) g0)
                      (fst (fst g))).
  intros i g0 Hl. destruct (Hlast i g0 Hl) as (si1 & di & sr & A & B & _ & D & E).
  specialize (Hrec i). rewrite A in Hrec. destruct Hrec as (si & Hsi & Hpad).
  exists si, si1, di, sr. auto.
Qed.

End WithPower.

Lemma same_or_padded_alignment (t t' : Trace) :
  same_or_padded t t' ->
  same_alignment t t' /\ stats t' = stats t /\ weight t' = weight t /\
  sum_residuals t' = sum_residuals t.
Proof.
  intros [->|(n & ->)]; repeat split.
Qed.





(** C7, as the code has it.  After a call that returned, at every station
    the record lists have their lengths, and there are one time shift, one
    start and one stop per group such that every record that some group
    selects (weight not zero, component in the group) has, on its
    synthetic record, [time_shift], [time_shift_group], [start] and [stop]
    set to the values of the last group that selects it, and, on its
    observed record, [sum_residuals] set, with every other field as it
    was; and a record that no group selects is as it was, on both
    sides (samples of the synthetic record zero-padded if part 1 padded
    the station). *)
Theorem derived_fields (power : Q -> Q -> Q) (self : Misfit)
    (observations synthetics : list Dataset) (k : nat) (d s : Dataset) (v : Q) :
  returned (call power self observations synthetics) = Ok v ->
  nth_error observations k = Some d ->
  nth_error synthetics k = Some s ->
  exists d' s' (shift : string -> Q) (first last : string -> Z),
    nth_error (stations_after (call power self observations synthetics)) k
      = Some (d', s') /\
    length (traces d') = length (traces d) /\
    length (traces s') = length (traces s) /\
    forall i,
      match last_group (traces d) (time_shift_groups self) i with
      | Some g =>
          In g (time_shift_groups self) /\ selected (traces d) g i = true /\
          exists si si' di sr,
            nth_error (traces s) i = Some si /\
            nth_error (traces d) i = Some di /\
            nth_error (traces s') i = Some si' /\
            time_shift si' = Some (shift g) /\
            time_shift_group si' = Some g /\
            start si' = Some (first g) /\
            stop si' = Some (last g) /\
            stats si' = stats si /\ weight si' = weight si /\
            sum_residuals si' = sum_residuals si /\
            nth_error (traces d') i = Some (set_sum_residuals sr di)
      | None =>
          nth_error (traces d') i = nth_error (traces d) i /\
          forall si, nth_error (traces s) i = Some si ->
            exists si', nth_error (traces s') i = Some si' /\
                        same_or_padded si si' /\ same_alignment si si'
      end.
Proof.
  intros Hret Hd Hs.
  destruct (call_stations power self observations synthetics) as (_ & Hc).
  specialize (Hc v Hret).
  pose proof (nth_error_combine _ _ _ _ _ _ _ Hd Hs) as Hk.
  destruct (Forall2_nth_error _ _ _ _ _ _ _ Hc Hk)
    as ([d' s'] & Hk' & total & w & f' & Hrun & Heq).
  cbn [fst snd] in Hrun. inversion Heq; subst d' s'. clear Heq.
  destruct (station_selected power self _ _ Hrun)
    as (Hld & Hls & shift & first & last & Hsel).
  cbn [obs syn] in Hld, Hls, Hsel.
  exists (obs f'), (syn f'), shift, first, last.
  split; [exact Hk'|]. split; [exact Hld|]. split; [exact Hls|].
  intros i.
  destruct (last_group (traces d) (time_shift_groups self) i) as [g|] eqn:Hl.
  - destruct (last_group_some _ _ _ _ Hl) as (Hin & Hs1).
    split; [exact Hin|]. split; [exact Hs1|].
    destruct (Hsel i g Hl) as (si & si1 & di & sr & A & B & C & D & E).
    destruct (same_or_padded_alignment _ _ B) as (_ & Hst & Hw & Hsr).
    exists si, (set_alignment (shift g) g (first g) (last g) si1), di, sr.
    repeat split; auto.
  - pose proof (station_untouched power self (mkFrame d s total w) i) as Hu.
    cbn zeta in Hu. rewrite Hrun in Hu. cbn [fst obs syn] in Hu.
    destruct Hu as (Hod & Hos); [apply last_group_none; exact Hl|].
    split; [exact Hod|]. intros si Hsi.
    destruct (nth_error (traces (syn f')) i) as [si'|]; [|congruence].
    destruct Hos as (t & Ht & Hpad). rewrite Hsi in Ht. inversion Ht; subst t.
    exists si'. split; [reflexivity|]. split; [exact Hpad|].
    apply same_or_padded_alignment. exact Hpad.
Qed.

Lemma derived_fields_witness :
  exists d' s',
    nth_error (stations_after (call power_order1 no_shift [observed_zn] [synthetic_zn])) 0
      = Some (d', s') /\
    length (traces d') = 2%nat /\ length (traces s') = 2%nat.
Proof.
  destruct (derived_fields power_order1 no_shift [observed_zn] [synthetic_zn]
              0 observed_zn synthetic_zn 0 eq_refl eq_refl eq_refl)
    as (d' & s' & _ & _ & _ & Hk & Hld & Hls & _).
  exists d', s'. split; [exact Hk|]. split; [exact Hld|exact Hls].
Defined.

(** C7 as stated fails: after a call that returned, the observed
    vertical record has its residuals but none of the four alignment
    fields, which are on the synthetic record; and the north record,
    whose component is in no group, has no derived field on either
    side. *)
Lemma observed_records_lack_derived_fields :
  exists d' s' dz sz dn sn,
    returned (call power_order1 no_shift [observed_zn] [synthetic_zn]) = Ok 0 /\
    stations_after (call power_order1 no_shift [observed_zn] [synthetic_zn])
      = [(d', s')] /\
    nth_error (traces d') 0 = Some dz /\ nth_error (traces s') 0 = Some sz /\
    sum_residuals dz = Some 0 /\
    time_shift dz = None /\ time_shift_group dz = None /\
    start dz = None /\ stop dz = None /\
    time_shift sz = Some 0 /\ sum_residuals sz = None /\
    nth_error (traces d') 1 = Some dn /\ nth_error (traces s') 1 = Some sn /\
    sum_residuals dn = None /\ time_shift dn = None /\
    time_shift sn = None /\ start sn = None /\ stop sn = None.
Proof.
  do 6 eexists. repeat split.
Qed.

End FieldClaims.

(** ** Slices and lengths *)

Module SliceFacts.

Import NumPy SciPy MtuqMath Cap Frames CapFacts SearchFacts AlignFacts StationFacts.

Lemma slice_in_bounds (a : arr) (i0 i1 : Z) :
  (0 <= i0 <= i1)%Z -> (i1 <= Z.of_nat (length a))%Z ->
  slice a i0 i1 = firstn (Z.to_nat (i1 - i0)) (skipn (Z.to_nat i0) a).
Proof.
  intros H1 H2. unfold slice, slice_bound.
  destruct (i0 <? 0)%Z eqn:E0; [apply Z.ltb_lt in E0; lia|].
  destruct (i1 <? 0)%Z eqn:E1; [apply Z.ltb_lt in E1; lia|].
  rewrite !Nat.min_l by lia. f_equal. lia.
Qed.

Lemma slice_length (a : arr) (i0 i1 : Z) :
  (0 <= i0 <= i1)%Z -> (i1 <= Z.of_nat (length a))%Z ->
  Z.of_nat (length (slice a i0 i1)) = (i1 - i0)%Z.
Proof.
  intros H1 H2. rewrite slice_in_bounds by assumption.
  rewrite length_firstn, length_skipn. lia.
Qed.

Lemma sub_same_length (a b : arr) :
  length a = length b ->
  sub a b = Ok (map (fun xy => fst xy - snd xy) (combine a b)).
Proof.
  intros H. unfold sub. rewrite H, Nat.eqb_refl. reflexivity.
Qed.

(** After part 1 every synthetic record is longer than the data by
    [2*npts_padding], when the records of each side have one length. *)
Lemma prepare_lengths (self : Misfit) (f f1 : Frame) (npts : Z) (dt : Q) (pad : Z) (n : nat) :
  prepare self f = (f1, Ok (npts, dt, pad)) ->
  Forall (fun t => Z.of_nat (length (data t)) = npts) (traces (obs f)) ->
  Forall (fun t => length (data t) = n) (traces (syn f)) ->
  Forall (fun t => Z.of_nat (length (data t)) = npts) (traces (obs f1)) /\
  Forall (fun t => Z.of_nat (length (data t)) = (npts + 2 * pad)%Z) (traces (syn f1)).
Proof.
  intros Hrun Hd Hs. pose proof (prepare_effect self f) as H. cbn zeta in H.
  rewrite Hrun in H. cbn [fst snd] in H.
  destruct H as (Ho & _ & _ & d0 & s0 & Hd0 & Hs0 & _ & Hg & Hcase).
  inversion Hg; subst npts dt pad. clear Hg.
  rewrite Ho. split; [exact Hd|].
  assert (Hn : length (data s0) = n).
  { apply nth_error_In in Hs0. rewrite Forall_forall in Hs. apply Hs. exact Hs0. }
  destruct Hcase as [(Hlen & ->)|(_ & Hlen & Hpad & Ht & _)].
  - rewrite Forall_forall in *. intros t Ht. rewrite (Hs t Ht). lia.
  - rewrite Ht. rewrite Forall_forall in *. intros t' Hin.
    apply in_map_iff in Hin. destruct Hin as (t & <- & Hin).
    cbn [set_data data]. rewrite !length_app, !repeat_length, (Hs t Hin). lia.
Qed.

End SliceFacts.

(** ** The slice of the synthetics *)

Module BoundsClaims.

Import NumPy SciPy MtuqMath Cap Frames CapFacts SearchFacts AlignFacts StationFacts.
Import ArgmaxFacts SliceFacts Examples.

(** C10, as the code has it.  Part 1 validates the first record of each
    side only.  For a station whose observed records all have the
    [npts_dat] samples of the first and whose synthetic records have one
    length, in a call that returns: for every group and every record that
    the group selects, the argmax of the group's profile lies in
    [0, 2*npts_padding]; the synthetic record has
    [npts_dat + 2*npts_padding] samples once part 1 is over; the bounds
    [start = 2*npts_padding - argmax] and [stop = start + npts_dat]
    satisfy [0 <= start <= stop <= npts_syn]; the slice has exactly
    [npts_dat] samples; and the residual of line 160 is the sum over the
    [npts_dat] pairs of samples, nothing cut and nothing broadcast.  For
    the last group that selects the record these are the [time_shift],
    [start] and [stop] that the call leaves on the synthetic record and
    the [sum_residuals] that it leaves on the observed one. *)
Theorem aligned_slice_in_bounds (power : Q -> Q -> Q) (self : Misfit)
    (observations synthetics : list Dataset) (k : nat) (d s : Dataset)
    (d0 : Trace) (n : nat) (v : Q) :
  returned (call power self observations synthetics) = Ok v ->
  nth_error observations k = Some d ->
  nth_error synthetics k = Some s ->
  nth_error (traces d) 0 = Some d0 ->
  Forall (fun t => length (data t) = length (data d0)) (traces d) ->
  Forall (fun t => length (data t) = n) (traces s) ->
  let npts_dat := Z.of_nat (length (data d0)) in
  let dt := delta (stats d0) in
  let npts_padding := py_round (time_shift_max self / dt) in
  exists d' s',
    nth_error (stations_after (call power self observations synthetics)) k
      = Some (d', s') /\
    forall i group,
      In group (time_shift_groups self) ->
      selected (traces d) group i = true ->
      exists (argmax : Z) (si' di : Trace),
        let start := (2 * npts_padding - argmax)%Z in
        let stop := (2 * npts_padding - argmax + npts_dat)%Z in
        let residuals :=
          sum (map (fun x => power (Qabs x) (order self))
                   (map (fun xy => fst xy - snd xy)
                        (combine (slice (data si') start stop) (data di)))) * dt in
        (0 <= argmax <= 2 * npts_padding)%Z /\
        nth_error (traces d) i = Some di /\
        nth_error (traces s') i = Some si' /\
        Z.of_nat (length (data si')) = (npts_dat + 2 * npts_padding)%Z /\
        (0 <= start <= stop)%Z /\
        (stop <= Z.of_nat (length (data si')))%Z /\
        Z.of_nat (length (slice (data si') start stop)) = npts_dat /\
        Z.of_nat (length (combine (slice (data si') start stop) (data di))) = npts_dat /\
        record_residuals power (order self) dt start stop si' di = Ok residuals /\
        (last_group (traces d) (time_shift_groups self) i = Some group ->
           time_shift si' = Some (inject_Z (argmax - npts_padding) * dt) /\
           time_shift_group si' = Some group /\
           Cap.start si' = Some start /\
           Cap.stop si' = Some stop /\
           nth_error (traces d') i = Some (set_sum_residuals residuals di)).
Proof.
  intros Hret Hd Hs Hd0 Hld Hls. cbn zeta.
  destruct (call_stations power self observations synthetics) as (_ & Hc).
  specialize (Hc v Hret).
  pose proof (nth_error_combine _ _ _ _ _ _ _ Hd Hs) as Hk.
  destruct (Forall2_nth_error _ _ _ _ _ _ _ Hc Hk)
    as ([d' s'] & Hk' & total & w & f' & Hrun & Heq).
  cbn [fst snd] in Hrun. inversion Heq; subst d' s'. clear Heq.
  exists (obs f'), (syn f'). split; [exact Hk'|].
  pose proof (prepare_effect self (mkFrame d s total w)) as Hp. cbn zeta in Hp.
  rewrite station_run, waveforms_run in Hrun.
  destruct (prepare self (mkFrame d s total w)) as [f1 [g|e]] eqn:Hprep; [|discriminate].
  cbn [fst snd obs syn] in Hp.
  destruct Hp as (Ho & _ & _ & d0' & s0 & Hd0' & _ & _ & Hg & _).
  rewrite Hd0 in Hd0'. injection Hd0' as <-.
  subst g. cbn [fst snd] in Hrun.
  set (npts := Z.of_nat (length (data d0))) in *.
  set (dt := delta (stats d0)) in *.
  set (pad := py_round (time_shift_max self / dt)) in *.
  assert (Hld' : Forall (fun t => Z.of_nat (length (data t)) = npts)
                        (traces (obs (mkFrame d s total w)))).
  { cbn [obs]. rewrite Forall_forall in *. intros t Ht. rewrite (Hld t Ht). reflexivity. }
  destruct (prepare_lengths self _ f1 npts dt pad n Hprep Hld' Hls) as (Hd1 & Hs1).
  rewrite select_mode_run in Hrun. cbn [fst] in Hrun.
  match type of Hrun with context [for_each _ _ ?fr] =>
    pose proof (groups_loop power self npts dt pad (time_shift_groups self) fr) as Hl;
    set (f2 := fr) in * end.
  assert (Ht2 : traces (obs f2) = traces d).
  { unfold f2. destruct (time_shift_mode (obs f1)); cbn [obs traces set_time_shift_mode];
      rewrite Ho; reflexivity. }
  assert (Hs2 : traces (syn f2) = traces (syn f1)).
  { unfold f2. destruct (time_shift_mode (obs f1)); reflexivity. }
  cbn zeta in Hl.
  destruct (for_each _ _ f2) as [f3 [[]|e]]; [|discriminate].
  assert (f3 = f') by (destruct (Qlt_le_dec _ _); congruence). subst f3.
  cbn [fst snd] in Hl.
  destruct Hl as ((_ & _ & _ & Hcs) & _ & Hpos & Hall & Hlast & _).
  rewrite Ht2 in Hall, Hlast. rewrite Hs2 in Hall, Hlast, Hcs.
  intros i group Hin Hsel.
  assert (Hpad : (0 <= pad)%Z).
  { apply Hpos. intros E. rewrite E in Hin. destruct Hin. }
  destruct (Hall group Hin) as (res & Hsearch & Hlen & Hrecs).
  destruct (Hrecs i Hsel) as (si & di & sr & w0 & Hsi & Hdi & _ & Hres).
  set (am := group_argmax (traces d) (traces (syn f1)) (time_shift_mode (obs f2))
                          pad group) in *.
  assert (Ham : (0 <= am <= 2 * pad)%Z).
  { unfold am, group_argmax. rewrite Hsearch. cbn [fst].
    assert (Hne : res <> []) by (intros ->; cbn [length] in Hlen; lia).
    pose proof (argmax_bound res Hne). lia. }
  destruct (same_core_nth_error _ _ _ _ Hcs Hsi) as (si' & Hsi' & Hcore).
  exists am, si', di.
  assert (Hlsi : Z.of_nat (length (data si)) = (npts + 2 * pad)%Z).
  { rewrite Forall_forall in Hs1. apply Hs1. apply (nth_error_In _ _ Hsi). }
  assert (Hldi : length (data di) = length (data d0)).
  { rewrite Forall_forall in Hld. apply Hld. apply (nth_error_In _ _ Hdi). }
  assert (Hdata : data si' = data si) by (destruct Hcore as (E & _); congruence).
  rewrite Hdata.
  assert (Hslice : Z.of_nat (length (slice (data si) (2 * pad - am) (2 * pad - am + npts)))
                   = npts).
  { rewrite slice_length by lia. lia. }
  assert (Hrr : forall t, data t = data si ->
            record_residuals power (order self) dt (2 * pad - am) (2 * pad - am + npts) t di
            = Ok (sum (map (fun x => power (Qabs x) (order self))
                           (map (fun xy => fst xy - snd xy)
                                (combine (slice (data si) (2 * pad - am)
                                                (2 * pad - am + npts)) (data di))))
                  * dt)).
  { intros t Et. unfold record_residuals. rewrite Et.
    rewrite sub_same_length
      by (apply Nat2Z.inj; rewrite Hslice; unfold npts; rewrite Hldi; reflexivity).
    reflexivity. }
  split; [exact Ham|]. split; [exact Hdi|]. split; [exact Hsi'|].
  split; [exact Hlsi|]. split; [unfold npts; lia|]. split; [lia|].
  split; [exact Hslice|].
  split; [rewrite length_combine, Hldi; fold npts; lia|].
  split; [apply Hrr; exact Hdata|].
  intros Hlg.
  destruct (Hlast i group Hlg) as (si2 & di2 & sr2 & Hsi2 & Hdi2 & Hres2 & Hw2 & Hd2).
  rewrite Hsi in Hsi2. injection Hsi2 as <-.
  rewrite Hdi in Hdi2. injection Hdi2 as <-.
  fold am in Hres2, Hw2.
  rewrite Hsi' in Hw2. injection Hw2 as ->.
  unfold slice_start, slice_stop in Hres2.
  rewrite (Hrr si eq_refl) in Hres2. injection Hres2 as <-.
  cbn [time_shift time_shift_group Cap.start Cap.stop set_alignment].
  repeat split. exact Hd2.
Qed.

Lemma aligned_slice_in_bounds_witness :
  exists d' s' (argmax : Z) (si' : Trace),
    nth_error (stations_after (call power_order1 one_second [observed_z]
                                 [synthetic_z_padded])) 0 = Some (d', s') /\
    (0 <= argmax <= 2)%Z /\
    nth_error (traces s') 0 = Some si' /\
    Z.of_nat (length (slice (data si') (2 - argmax) (2 - argmax + 2))) = 2%Z /\
    Cap.start si' = Some (2 - argmax)%Z /\
    Cap.stop si' = Some (2 - argmax + 2)%Z.
Proof.
  assert (Hld : Forall (fun t => length (data t) = length (data (record [1; 2] "BHZ" (Some 1))))
                       (traces observed_z)) by (repeat constructor).
  assert (Hls : Forall (fun t => length (data t) = 4%nat) (traces synthetic_z_padded))
    by (repeat constructor).
  destruct (aligned_slice_in_bounds power_order1 one_second [observed_z]
              [synthetic_z_padded] 0 observed_z synthetic_z_padded
              (record [1; 2] "BHZ" (Some 1)) 4 0 eq_refl eq_refl eq_refl eq_refl Hld Hls)
    as (d' & s' & Hk & Hrec).
  destruct (Hrec O "ZRT"%string (or_introl eq_refl) eq_refl)
    as (argmax & si' & di & Ham & _ & Hsi' & _ & _ & _ & Hslice & _ & _ & Hlast).
  destruct (Hlast eq_refl) as (_ & _ & Hstart & Hstop & _).
  exists d', s', argmax, si'.
  repeat split; try assumption; apply Ham.
Defined.

(** C10 as stated fails: this station passes the validation of part 1,
    which looks at the first records, and the call returns; the slice
    [s[1].data[0:3]] of the second synthetic record has one sample, not
    three, and numpy broadcasts it against the three samples of the
    data. *)
Lemma slice_cut_after_validation :
  exists d' s' si,
    prepare no_shift (mkFrame observed_uneven synthetic_uneven 0 [])
      = (mkFrame observed_uneven synthetic_uneven 0 [], Ok (3%Z, 1, 0%Z)) /\
    returned (call power_order1 no_shift [observed_uneven] [synthetic_uneven]) = Ok 9 /\
    stations_after (call power_order1 no_shift [observed_uneven] [synthetic_uneven])
      = [(d', s')] /\
    nth_error (traces s') 1 = Some si /\
    Cap.start si = Some 0%Z /\ Cap.stop si = Some 3%Z /\
    length (data si) = 1%nat /\
    length (slice (data si) 0 3) = 1%nat /\
    sub (slice (data si) 0 3) [1; 2; 3] = Ok [4; 3; 2].
Proof. repeat eexists. Qed.

End BoundsClaims.

(** ** The misfit value *)

Module MisfitFacts.

Import NumPy SciPy MtuqMath Cap Frames CapSpec CorrelateFacts.
Import CapFacts SearchFacts AlignFacts StationFacts.

Lemma argmax_from_Qeq (a b : arr) :
  Forall2 Qeq a b ->
  forall best best' besti i, best == best' ->
  argmax_from best besti i a = argmax_from best' besti i b.
Proof.
  induction 1 as [|x y a b Hxy Hab IH]; intros best best' besti i Hb;
    cbn [argmax_from]; [reflexivity|].
  destruct (Qlt_le_dec best x) as [H1|H1]; destruct (Qlt_le_dec best' y) as [H2|H2].
  - apply IH. exact Hxy.
  - exfalso. rewrite Hb, Hxy in H1. apply (Qlt_not_le _ _ H1 H2).
  - exfalso. rewrite Hb, Hxy in H1. apply (Qlt_not_le _ _ H2 H1).
  - apply IH. exact Hb.
Qed.

(** Profiles that agree as rationals have the same argmax. *)
Lemma argmax_Qeq (a b : arr) : Forall2 Qeq a b -> argmax a = argmax b.
Proof.
  intros H. destruct H as [|x y a b Hxy Hab]; cbn [argmax]; [reflexivity|].
  apply argmax_from_Qeq; assumption.
Qed.

Lemma Forall2_Qeq_refl (a : arr) : Forall2 Qeq a a.
Proof. induction a; constructor; auto. reflexivity. Qed.

Lemma Forall2_Qeq_length (a b : arr) : Forall2 Qeq a b -> length a = length b.
Proof. induction 1; cbn; congruence. Qed.

Lemma spec_add_Qeq (a a' b b' : arr) :
  Forall2 Qeq a a' -> Forall2 Qeq b b' -> Forall2 Qeq (spec_add a b) (spec_add a' b').
Proof.
  intros Ha; revert b b'; induction Ha as [|x x' a a' Hx Ha IH]; intros b b' Hb.
  - constructor.
  - destruct Hb as [|y y' b b' Hy Hb]; [constructor|].
    unfold spec_add. cbn [combine map fst snd]. constructor.
    + rewrite Hx, Hy. reflexivity.
    + apply IH. exact Hb.
Qed.

Lemma iadd_same_length (r x : arr) :
  length x = length r -> iadd r x = Ok (spec_add r x).
Proof.
  intros H. unfold iadd. rewrite H, Nat.eqb_refl. reflexivity.
Qed.

Lemma fold_sum (A : Type) (c c' : A -> Q) (l : list A) : forall acc,
  (forall i, In i l -> c i == c' i) ->
  fold_left (fun acc i => acc + c i) l acc == acc + sum (map c' l).
Proof.
  induction l as [|i l IH]; intros acc H; cbn [fold_left map sum fold_right].
  - ring.
  - rewrite IH by (intros; apply H; right; assumption).
    rewrite (H i) by (left; reflexivity). unfold sum. ring.
Qed.

Lemma sum_nonneg (l : arr) : Forall (fun x => 0 <= x) l -> 0 <= sum l.
Proof.
  induction 1 as [|x l Hx Hl IH]; cbn [sum fold_right].
  - apply Qle_refl.
  - apply (Qplus_le_compat 0 x 0 (fold_right Qplus 0 l)); assumption.
Qed.

Lemma sum_map_nonneg (A : Type) (c : A -> Q) (l : list A) :
  (forall i, In i l -> 0 <= c i) -> 0 <= sum (map c l).
Proof.
  intros H. apply sum_nonneg. rewrite Forall_forall. intros x Hx.
  apply in_map_iff in Hx. destruct Hx as (i & <- & Hi). apply H. exact Hi.
Qed.

Lemma nth_error_nth_blank (l : list Trace) (i : nat) (t : Trace) :
  nth_error l i = Some t -> nth i l blank = t.
Proof. intros H. apply nth_error_nth. exact H. Qed.

Lemma accumulate_not_selected dd ss mode g acc i acc' :
  selected dd g i = false ->
  accumulate dd ss mode g acc i = Ok acc' -> acc' = acc.
Proof.
  unfold selected, accumulate, item.
  destruct (nth_error dd i) as [di|]; cbn [rbind]; [|discriminate].
  destruct (zero_weight di); cbn [negb andb].
  - intros _ H; inversion H; reflexivity.
  - destruct (component di) as [c|e]; cbn [rbind]; [|discriminate].
    intros ->. intros H; inversion H; reflexivity.
Qed.

Lemma accumulate_selected dd ss m g acc i :
  selected dd g i = true ->
  exists di,
    nth_error dd i = Some di /\
    accumulate dd ss (Some m) g acc i =
      if (m =? 0)%Z then Ok (fst acc, (snd acc ++ [i])%list)
      else if (m =? 1)%Z then
        rbind (item ss i) (fun si =>
        rbind (iadd (fst acc) (fftconvolve_valid (data di) (reversed (data si))))
              (fun r => Ok (r, (snd acc ++ [i])%list)))
      else if (m =? 2)%Z then
        rbind (item ss i) (fun si =>
        rbind (correlate_valid (data di) (data si)) (fun x =>
        rbind (iadd (fst acc) x) (fun r => Ok (r, (snd acc ++ [i])%list))))
      else Ok (fst acc, (snd acc ++ [i])%list).
Proof.
  unfold selected, accumulate, item.
  destruct (nth_error dd i) as [di|]; [|discriminate]. cbn [rbind].
  destruct (zero_weight di); cbn [negb andb]; [discriminate|].
  destruct (component di) as [c|e]; cbn [rbind]; [|discriminate].
  intros ->. exists di. split; reflexivity.
Qed.

Lemma spec_correlation_length padn a b : length (spec_correlation padn a b) = (2 * padn + 1)%nat.
Proof. unfold spec_correlation. rewrite length_map, length_seq. reflexivity. Qed.

(** Either algorithm adds to the profile what the specification adds. *)
Lemma correlation_step (padn : nat) (vd vs acc x r as' : arr) :
  length vs = (length vd + 2 * padn)%nat ->
  length acc = (2 * padn + 1)%nat ->
  Forall2 Qeq acc as' ->
  (x = fftconvolve_valid vd (reversed vs) \/ correlate_valid vd vs = Ok x) ->
  iadd acc x = Ok r ->
  Forall2 Qeq r (spec_add as' (spec_correlation padn vd vs)).
Proof.
  intros Hvs Hacc Has Hx Hr.
  assert (Hpos : (0 < length vd)%nat).
  { destruct (length vd) as [|n] eqn:E; [|lia]. exfalso.
    destruct Hx as [->|Hx].
    - unfold fftconvolve_valid in Hr. rewrite E in Hr. cbn [Nat.eqb orb] in Hr.
      unfold iadd in Hr. rewrite Hacc in Hr.
      replace (length (@nil Q) =? 2 * padn + 1)%nat with false in Hr
        by (symmetry; apply Nat.eqb_neq; cbn; lia).
      discriminate.
    - unfold correlate_valid in Hx. rewrite E in Hx. cbn [Nat.eqb orb] in Hx.
      discriminate. }
  assert (Hxs : length x = (2 * padn + 1)%nat /\
                forall j, (j <= 2 * padn)%nat ->
                  nth j x 0 == inner vd (window vs (2 * padn - j) (length vd))).
  { destruct Hx as [->|Hx].
    - split.
      + rewrite fftconvolve_valid_length by lia. lia.
      + intros j Hj. rewrite fftconvolve_valid_nth by lia.
        replace (length vs - length vd - j)%nat with (2 * padn - j)%nat by lia.
        reflexivity.
    - destruct (correlate_valid_ok vd vs) as (x' & Hx' & Hlen & Hnth); [lia|].
      rewrite Hx in Hx'. inversion Hx'; subst x'. split; [lia|].
      intros j Hj. rewrite Hnth by lia.
      replace (length vs - length vd - j)%nat with (2 * padn - j)%nat by lia.
      reflexivity. }
  destruct Hxs as (Hlx & Hnx).
  rewrite iadd_same_length in Hr by lia. inversion Hr; subst r.
  apply spec_add_Qeq; [exact Has|].
  apply pointwise_Qeq.
  - rewrite spec_correlation_length. exact Hlx.
  - intros j Hj. rewrite Hlx in Hj. rewrite Hnx by lia.
    unfold spec_correlation. rewrite nth_map_seq by lia. reflexivity.
Qed.

Lemma spec_add_length (a b : arr) :
  length a = length b -> length (spec_add a b) = length a.
Proof.
  intros H. unfold spec_add. rewrite length_map, length_combine. lia.
Qed.

(** The profile that the search accumulates is, entry by entry, the one
    of the specification. *)
Lemma lag_search_profile (padn npts_n : nat) dd ss m g :
  Forall (fun t => length (data t) = npts_n) dd ->
  Forall (fun t => length (data t) = (npts_n + 2 * padn)%nat) ss ->
  forall range acc idx as' res idx',
    length acc = (2 * padn + 1)%nat ->
    Forall2 Qeq acc as' ->
    lag_search dd ss (Some m) g (acc, idx) range = Ok (res, idx') ->
    Forall2 Qeq res
      (match mode_of_flag m with
       | NoShift => as'
       | _ =>
           fold_left
             (fun r i => spec_add r (spec_correlation padn (data (nth i dd blank))
                                                      (data (nth i ss blank))))
             (filter (selected dd g) range) as'
       end).
Proof.
  intros Hd Hs. rewrite Forall_forall in Hd, Hs.
  induction range as [|i range IH]; intros acc idx as' res idx' Hlen Has Hrun.
  - cbn in Hrun. inversion Hrun; subst. cbn [filter fold_left].
    destruct (mode_of_flag m); exact Has.
  - cbn [lag_search] in Hrun. cbn [filter].
    destruct (accumulate dd ss (Some m) g (acc, idx) i) as [[acc1 idx1]|e] eqn:Hacc;
      cbn [rbind] in Hrun; [|discriminate].
    pose proof (accumulate_effect dd ss (Some m) g (acc, idx) i) as Heff.
    rewrite Hacc in Heff. cbn [fst snd] in Heff. destruct Heff as (Hlen1 & _).
    destruct (selected dd g i) eqn:Hsel.
    + destruct (accumulate_selected dd ss m g (acc, idx) i Hsel) as (di & Hdi & Heq).
      rewrite Heq in Hacc. cbn [fst snd] in Hacc. clear Heq.
      unfold mode_of_flag in *.
      destruct (m =? 0)%Z eqn:E0.
      { apply Z.eqb_eq in E0. subst m. cbn [Z.eqb] in *.
        inversion Hacc; subst acc1 idx1.
        apply (IH acc _ as' res idx' Hlen Has Hrun). }
      destruct (m =? 1)%Z eqn:E1.
      { unfold item in Hacc. destruct (nth_error ss i) as [si|] eqn:Hsi;
          cbn [rbind] in Hacc; [|discriminate].
        destruct (iadd acc _) as [r|] eqn:Hr; cbn [rbind] in Hacc; [|discriminate].
        inversion Hacc; subst acc1 idx1. cbn [fold_left].
        eapply IH; [| |exact Hrun]; [congruence|].
        rewrite (nth_error_nth_blank _ _ _ Hdi), (nth_error_nth_blank _ _ _ Hsi).
        eapply correlation_step; [| exact Hlen | exact Has | left; reflexivity | exact Hr].
        rewrite (Hs si (nth_error_In _ _ Hsi)), (Hd di (nth_error_In _ _ Hdi)).
        reflexivity. }
      destruct (m =? 2)%Z eqn:E2.
      { unfold item in Hacc. destruct (nth_error ss i) as [si|] eqn:Hsi;
          cbn [rbind] in Hacc; [|discriminate].
        destruct (correlate_valid (data di) (data si)) as [x|] eqn:Hx;
          cbn [rbind] in Hacc; [|discriminate].
        destruct (iadd acc x) as [r|] eqn:Hr; cbn [rbind] in Hacc; [|discriminate].
        inversion Hacc; subst acc1 idx1. cbn [fold_left].
        eapply IH; [| |exact Hrun]; [congruence|].
        rewrite (nth_error_nth_blank _ _ _ Hdi), (nth_error_nth_blank _ _ _ Hsi).
        eapply correlation_step; [| exact Hlen | exact Has | right; exact Hx | exact Hr].
        rewrite (Hs si (nth_error_In _ _ Hsi)), (Hd di (nth_error_In _ _ Hdi)).
        reflexivity. }
      inversion Hacc; subst acc1 idx1.
      apply (IH acc _ as' res idx' Hlen Has Hrun).
    + pose proof (accumulate_not_selected _ _ _ _ _ _ _ Hsel Hacc) as Heq.
      inversion Heq; subst acc1 idx1.
      apply (IH acc idx as' res idx' Hlen Has Hrun).
Qed.

Lemma weighted_weight (t : Trace) :
  weighted t = true -> exists w, weight t = Some w /\ 0 <= w.
Proof.
  unfold weighted. destruct (weight t) as [w|]; [|discriminate].
  intros H. exists w. split; [reflexivity|]. apply Qle_bool_iff. exact H.
Qed.

(** On records that carry a weight, the test of the code is the one of
    the specification. *)
Lemma selected_spec (dd : list Trace) (g : string) (i : nat) :
  forallb weighted dd = true -> (i < length dd)%nat ->
  selected dd g i = spec_contributes g (nth i dd blank).
Proof.
  intros Hw Hi. unfold selected, spec_contributes.
  destruct (nth_error dd i) as [di|] eqn:Hdi.
  2:{ apply nth_error_None in Hdi. lia. }
  rewrite (nth_error_nth_blank _ _ _ Hdi).
  rewrite forallb_forall in Hw.
  destruct (weighted_weight di (Hw di (nth_error_In _ _ Hdi))) as (w & Hwt & _).
  unfold zero_weight, spec_weight, component, spec_in_group. rewrite Hwt.
  destruct (last_char (channel (stats di))); reflexivity.
Qed.

Lemma members_spec (dd : list Trace) (g : string) :
  forallb weighted dd = true ->
  filter (selected dd g) (seq 0 (length dd)) = spec_members g dd.
Proof.
  intros Hw. unfold spec_members. apply filter_ext_in.
  intros i Hi. apply in_seq in Hi. apply selected_spec; [exact Hw|lia].
Qed.

Lemma uniform_length_forall (ts : list Trace) :
  uniform_length ts = true ->
  Forall (fun t => length (data t) = length (data (nth 0 ts blank))) ts.
Proof.
  unfold uniform_length. intros H. rewrite forallb_forall in H.
  rewrite Forall_forall. intros t Ht. apply Nat.eqb_eq. apply H. exact Ht.
Qed.

Section WithPower.

Variable power : Q -> Q -> Q.

(** What one record adds, in the words of the code and in those of the
    specification. *)
Lemma contribution_spec (self : Misfit) (dt : Q) (pad : Z) (lag npts_n : nat)
    (dd ss : list Trace) (i : nat) (si di : Trace) (w : Q) :
  (0 <= pad)%Z -> (lag <= 2 * Z.to_nat pad)%nat ->
  nth_error ss i = Some si -> nth_error dd i = Some di ->
  weight di = Some w ->
  length (data di) = npts_n ->
  length (data si) = (npts_n + 2 * Z.to_nat pad)%nat ->
  contribution power (order self) dt
    (slice_start pad (Z.of_nat lag))
    (slice_stop pad (Z.of_nat lag) (Z.of_nat npts_n)) dd ss i
  == spec_weight (nth i dd blank)
     * spec_sum_residuals power self dt
         (window (data (nth i ss blank)) (spec_start (Z.to_nat pad) lag) npts_n)
         (data (nth i dd blank)).
Proof.
  intros Hpad Hlag Hsi Hdi Hw Hld Hls.
  unfold contribution. rewrite Hsi, Hdi, Hw.
  rewrite (nth_error_nth_blank _ _ _ Hdi), (nth_error_nth_blank _ _ _ Hsi).
  unfold record_residuals, slice_start, slice_stop.
  rewrite SliceFacts.slice_in_bounds by lia.
  replace (Z.to_nat (2 * pad - Z.of_nat lag + Z.of_nat npts_n - (2 * pad - Z.of_nat lag)))
    with npts_n by lia.
  replace (Z.to_nat (2 * pad - Z.of_nat lag)) with (spec_start (Z.to_nat pad) lag)
    by (unfold spec_start; lia).
  fold (window (data si) (spec_start (Z.to_nat pad) lag) npts_n).
  rewrite SliceFacts.sub_same_length.
  2:{ rewrite window_length; [congruence|]. unfold spec_start. lia. }
  cbn [rbind]. unfold spec_sum_residuals, spec_weight. rewrite Hw, map_map.
  ring.
Qed.

End WithPower.

(** The lag of a group, in the words of the code and in those of the
    specification. *)
Lemma group_lag_spec (padn npts_n : nat) (pad : Z) (dd ss : list Trace) (m : Z)
    (g : string) (res : arr) :
  pad = Z.of_nat padn ->
  Forall (fun t => length (data t) = npts_n) dd ->
  Forall (fun t => length (data t) = (npts_n + 2 * padn)%nat) ss ->
  forallb weighted dd = true ->
  lag_search dd ss (Some m) g (repeat 0 (Z.to_nat (2 * pad + 1)), [])
             (seq 0 (length dd))
    = Ok (res, filter (selected dd g) (seq 0 (length dd))) ->
  group_argmax dd ss (Some m) pad g = Z.of_nat (spec_lag (mode_of_flag m) padn g dd ss) /\
  (spec_lag (mode_of_flag m) padn g dd ss <= 2 * padn)%nat.
Proof.
  intros Hpad Hd Hs Hw Hsearch.
  assert (Hz : Z.to_nat (2 * pad + 1) = (2 * padn + 1)%nat) by lia.
  pose proof (lag_search_profile padn npts_n dd ss m g Hd Hs (seq 0 (length dd))
                (repeat 0 (Z.to_nat (2 * pad + 1))) []
                (repeat 0 (2 * padn + 1)) res
                (filter (selected dd g) (seq 0 (length dd)))) as Hprof.
  rewrite Hz in Hprof, Hsearch.
  specialize (Hprof (repeat_length _ _) (Forall2_Qeq_refl _) Hsearch).
  assert (Hspec : Forall2 Qeq res (spec_profile (mode_of_flag m) padn g dd ss)).
  { unfold spec_profile. rewrite <- (members_spec dd g Hw).
    destruct (mode_of_flag m); exact Hprof. }
  assert (Ham : argmax res = spec_lag (mode_of_flag m) padn g dd ss).
  { unfold spec_lag. apply argmax_Qeq. exact Hspec. }
  split.
  - unfold group_argmax. rewrite Hz, Hsearch. cbn [fst]. rewrite Ham. reflexivity.
  - rewrite <- Ham.
    pose proof (lag_search_effect dd ss (Some m) g (seq 0 (length dd))
                  (repeat 0 (2 * padn + 1), [])) as Hls.
    rewrite Hsearch in Hls. cbn [fst snd] in Hls. destruct Hls as (Hlen & _).
    rewrite repeat_length in Hlen.
    assert (Hne : res <> []) by (intros ->; cbn [length] in Hlen; lia).
    pose proof (ArgmaxFacts.argmax_bound res Hne). lia.
Qed.

Section GroupTotals.

Variable power : Q -> Q -> Q.

(** The total of one group. *)
Lemma group_total_spec (self : Misfit) (d : Dataset) (ss : list Trace) (m : Z)
    (pad : Z) (g : string) (acc : Q) (res : arr) :
  (0 <= pad)%Z ->
  spec_npts_padding self d = pad ->
  spec_mode self d = mode_of_flag m ->
  Forall (fun t => length (data t) = spec_npts d) (traces d) ->
  Forall (fun t => length (data t) = (spec_npts d + 2 * Z.to_nat pad)%nat) ss ->
  forallb weighted (traces d) = true ->
  lag_search (traces d) ss (Some m) g (repeat 0 (Z.to_nat (2 * pad + 1)), [])
             (seq 0 (length (traces d)))
    = Ok (res, filter (selected (traces d) g) (seq 0 (length (traces d)))) ->
  (forall i, selected (traces d) g i = true ->
     exists si di, nth_error ss i = Some si /\ nth_error (traces d) i = Some di) ->
  group_total power (order self) (spec_dt d) (Z.of_nat (spec_npts d)) pad
              (traces d) ss (Some m) g acc
  == acc + spec_group_total power self d ss g.
Proof.
  intros Hpad Hpadding Hmode Hd Hs Hw Hsearch Hrec.
  destruct (group_lag_spec (Z.to_nat pad) (spec_npts d) pad (traces d) ss m g res)
    as (Ham & Hlag); auto; [lia|].
  unfold group_total, spec_group_total. rewrite Ham.
  rewrite (members_spec (traces d) g Hw).
  apply fold_sum. intros i Hi.
  rewrite <- (members_spec (traces d) g Hw) in Hi. apply selected_in in Hi.
  destruct (Hrec i Hi) as (si & di & Hsi & Hdi).
  rewrite forallb_forall in Hw.
  destruct (weighted_weight di (Hw di (nth_error_In _ _ Hdi))) as (w & Hwt & _).
  rewrite Forall_forall in Hd, Hs.
  rewrite (contribution_spec power self (spec_dt d) pad _ (spec_npts d)
             (traces d) ss i si di w Hpad Hlag Hsi Hdi Hwt
             (Hd di (nth_error_In _ _ Hdi)) (Hs si (nth_error_In _ _ Hsi))).
  unfold spec_record_residuals. rewrite Hpadding, Hmode. reflexivity.
Qed.

Lemma spec_group_total_nonneg (self : Misfit) (d : Dataset) (ss : list Trace) (g : string) :
  (forall x y, 0 <= x -> 0 <= power x y) ->
  forallb weighted (traces d) = true ->
  0 <= spec_dt d ->
  0 <= spec_group_total power self d ss g.
Proof.
  intros Hpow Hw Hdt. unfold spec_group_total. apply sum_map_nonneg.
  intros i Hi. unfold spec_members in Hi. apply filter_In in Hi.
  destruct Hi as (Hi & _). apply in_seq in Hi.
  destruct (nth_error (traces d) i) as [di|] eqn:Hdi.
  2:{ apply nth_error_None in Hdi. lia. }
  rewrite (nth_error_nth_blank _ _ _ Hdi).
  rewrite forallb_forall in Hw.
  destruct (weighted_weight di (Hw di (nth_error_In _ _ Hdi))) as (w & Hwt & Hw0).
  unfold spec_weight. rewrite Hwt.
  apply Qmult_le_0_compat; [exact Hw0|].
  unfold spec_record_residuals, spec_sum_residuals.
  apply Qmult_le_0_compat; [exact Hdt|].
  apply sum_map_nonneg. intros xy _. apply Hpow. apply Qabs_nonneg.
Qed.

End GroupTotals.

Lemma mode_of_choose_mode (npts pad : Z) :
  mode_of_flag (choose_mode npts pad) = spec_choose_mode npts pad.
Proof.
  unfold mode_of_flag, choose_mode, spec_choose_mode.
  rewrite !Z.gtb_ltb.
  destruct (pad =? 0)%Z; [reflexivity|].
  destruct ((2000 <? npts)%Z || (200 <? pad)%Z); reflexivity.
Qed.

Lemma sampled_positive (t : Trace) : sampled t = true -> 0 < delta (stats t).
Proof.
  unfold sampled. intros H. apply negb_true_iff in H.
  destruct (Qlt_le_dec 0 (delta (stats t))) as [Hlt|Hle]; [exact Hlt|].
  apply Qle_bool_iff in Hle. congruence.
Qed.

Lemma fold_groups (G : string -> Q -> Q) (c : string -> Q) (l : list string) :
  (forall g, In g l -> forall acc, G g acc == acc + c g) ->
  forall acc, fold_left (fun acc g => G g acc) l acc == acc + sum (map c l).
Proof.
  induction l as [|g l IH]; intros H acc; cbn [fold_left map sum fold_right].
  - ring.
  - rewrite IH by (intros; apply H; right; assumption).
    rewrite (H g) by (left; reflexivity). unfold sum. ring.
Qed.

Section StationTotals.

Variable power : Q -> Q -> Q.
Hypothesis power_nonneg : forall x y, 0 <= x -> 0 <= power x y.

(** One pass of the loop body adds the total of the station. *)
Lemma station_total (self : Misfit) (d s : Dataset) (total : Q) (w : list string)
    (f' : Frame) :
  well_formed_station (d, s) = true ->
  station power self (mkFrame d s total w) = (f', Ok tt) ->
  sum_misfit f' == total + spec_station_total power self d s /\
  0 <= spec_station_total power self d s.
Proof.
  unfold well_formed_station. cbn [fst snd]. intros Hwf Hrun.
  apply andb_prop in Hwf. destruct Hwf as (Hwf & Hsamp).
  apply andb_prop in Hwf. destruct Hwf as (Hwf & Hw).
  apply andb_prop in Hwf. destruct Hwf as (Hud & Hus).
  apply uniform_length_forall in Hud. apply uniform_length_forall in Hus.
  rewrite station_run, waveforms_run in Hrun.
  pose proof (prepare_effect self (mkFrame d s total w)) as Hp. cbn zeta in Hp.
  destruct (prepare self (mkFrame d s total w)) as [f1 [g|e]] eqn:Hprep;
    [|discriminate].
  cbn [fst snd obs syn sum_misfit] in Hp.
  destruct Hp as (Ho & Hsum1 & _ & d0 & s0 & Hd0 & Hs0 & Hdtnz & Hg & Hcase).
  subst g. cbn [fst snd] in Hrun, Hcase.
  rewrite select_mode_run in Hrun. cbn [fst] in Hrun.
  set (npts := Z.of_nat (length (data d0))) in *.
  set (dt := delta (stats d0)) in *.
  set (pad := py_round (time_shift_max self / dt)) in *.
  assert (Hnpts : spec_npts d = length (data d0)).
  { unfold spec_npts. rewrite (nth_error_nth_blank _ _ _ Hd0). reflexivity. }
  assert (Hdt : spec_dt d = dt).
  { unfold spec_dt. rewrite (nth_error_nth_blank _ _ _ Hd0). reflexivity. }
  assert (Hpadding : spec_npts_padding self d = pad).
  { unfold spec_npts_padding. rewrite Hdt. reflexivity. }
  assert (Hdt0 : 0 <= spec_dt d).
  { rewrite Hdt. apply Qlt_le_weak, sampled_positive.
    rewrite forallb_forall in Hsamp. apply Hsamp. apply (nth_error_In _ _ Hd0). }
  assert (Hnonneg : 0 <= spec_station_total power self d s).
  { unfold spec_station_total. apply sum_map_nonneg. intros g0 _.
    apply spec_group_total_nonneg; assumption. }
  split; [|exact Hnonneg].
  match type of Hrun with context [for_each _ _ ?fr] =>
    pose proof (groups_loop power self npts dt pad (time_shift_groups self) fr) as Hg;
    set (f2 := fr) in * end.
  assert (Ht2 : traces (obs f2) = traces d).
  { unfold f2. destruct (time_shift_mode (obs f1));
      cbn [obs traces set_time_shift_mode]; rewrite Ho; reflexivity. }
  assert (Hs2 : traces (syn f2) = traces (syn f1)).
  { unfold f2. destruct (time_shift_mode (obs f1)); reflexivity. }
  assert (Hsum2 : sum_misfit f2 = total).
  { unfold f2. destruct (time_shift_mode (obs f1)); exact Hsum1. }
  assert (Hm2 : exists m, time_shift_mode (obs f2) = Some m /\
                          spec_mode self d = mode_of_flag m).
  { unfold f2, spec_mode. rewrite Ho. destruct (time_shift_mode d) as [m0|] eqn:Hm0.
    - exists m0. rewrite Ho, Hm0. split; reflexivity.
    - exists (choose_mode npts pad). cbn [obs set_time_shift_mode time_shift_mode].
      split; [reflexivity|]. rewrite Hnpts, Hpadding. symmetry.
      apply mode_of_choose_mode. }
  destruct Hm2 as (m & Hm & Hspecm).
  cbn zeta in Hg. rewrite Ht2, Hs2, Hm, Hsum2 in Hg.
  destruct (for_each _ _ f2) as [f3 [[]|e]]; cbn [fst snd] in Hg; [|discriminate].
  destruct (Qlt_le_dec 0 (polarity_weight self)); [discriminate|].
  inversion Hrun; subst f3. clear Hrun.
  destruct Hg as (_ & _ & Hpadnn & Hall & _ & Hsum).
  rewrite Hsum. unfold spec_station_total.
  apply fold_groups. intros g0 Hg0 acc.
  assert (Hpad0 : (0 <= pad)%Z).
  { apply Hpadnn. intros Hnil. rewrite Hnil in Hg0. destruct Hg0. }
  assert (Hsyn : traces (syn f1) = spec_synthetics self d s /\
                 Forall (fun t => length (data t) = (spec_npts d + 2 * Z.to_nat pad)%nat)
                        (traces (syn f1))).
  { unfold spec_synthetics. rewrite (nth_error_nth_blank _ _ _ Hs0), Hnpts, Hpadding.
    rewrite (nth_error_nth_blank _ _ _ Hs0) in Hus.
    destruct Hcase as [(Hlen & ->)|(Hneq & Hlen & _ & Ht & _)].
    - replace (Z.of_nat (length (data s0)) =? Z.of_nat (length (data d0)) + 2 * pad)%Z
        with true by (symmetry; apply Z.eqb_eq; lia).
      split; [reflexivity|]. cbn [syn].
      rewrite Forall_forall in *. intros t Ht. rewrite (Hus t Ht). lia.
    - replace (Z.of_nat (length (data s0)) =? Z.of_nat (length (data d0)) + 2 * pad)%Z
        with false by (symmetry; apply Z.eqb_neq; lia).
      split; [exact Ht|]. rewrite Ht.
      rewrite Forall_forall in *. intros t' Hin.
      apply in_map_iff in Hin. destruct Hin as (t & <- & Hin).
      cbn [set_data data]. rewrite !length_app, !repeat_length, (Hus t Hin). lia. }
  destruct Hsyn as (Hsyn & Hlens). rewrite <- Hsyn.
  destruct (Hall g0 Hg0) as (res & Hsearch & _ & Hrec).
  rewrite <- Hdt. unfold npts. rewrite <- Hnpts.
  apply (group_total_spec power self d (traces (syn f1)) m pad g0 acc res); auto.
  intros i Hi. destruct (Hrec i Hi) as (si & di & sr & w0 & A & B & _).
  exists si, di. split; assumption.
Qed.

(** The loop over the stations adds the totals of the stations. *)
Lemma station_loop_total (self : Misfit) (pairs : list (Dataset * Dataset)) :
  forallb well_formed_station pairs = true ->
  forall total w T,
    returned (station_loop power self pairs total w) = Ok T ->
    T == total + sum (map (fun ds => spec_station_total power self (fst ds) (snd ds)) pairs) /\
    0 <= sum (map (fun ds => spec_station_total power self (fst ds) (snd ds)) pairs).
Proof.
  induction pairs as [|[d s] rest IH]; intros Hwf total w T Hret.
  - cbn in Hret |- *. inversion Hret; subst. split; [ring|apply Qle_refl].
  - cbn [forallb] in Hwf. apply andb_prop in Hwf. destruct Hwf as (Hwf1 & Hwf2).
    cbn [station_loop] in Hret.
    destruct (station power self (mkFrame d s total w)) as [f' [[]|e]] eqn:Hrun;
      cbn [returned] in Hret; [|discriminate].
    destruct (station_total self d s total w f' Hwf1 Hrun) as (Hsum & Hnn).
    destruct (IH Hwf2 _ _ _ Hret) as (HT & Hrest).
    cbn [map sum fold_right fst snd]. split.
    + rewrite HT, Hsum. unfold sum. ring.
    + apply (Qplus_le_compat 0 _ 0 _); assumption.
Qed.

End StationTotals.

(** The value of a call that returns. *)
Lemma call_value (power : Q -> Q -> Q) (self : Misfit)
    (observations synthetics : list Dataset) (v : Q) :
  (forall x y, 0 <= x -> 0 <= power x y) ->
  forallb well_formed_station (combine observations synthetics) = true ->
  returned (call power self observations synthetics) = Ok v ->
  exists total,
    v = power total (1 / order self) /\
    total == spec_total power self observations synthetics /\
    0 <= total /\ 0 <= v.
Proof.
  intros Hpow Hwf Hret. unfold call in Hret. cbn [returned] in Hret.
  destruct (returned (station_loop power self (combine observations synthetics) 0 []))
    as [T|e] eqn:Hloop; cbn [rbind] in Hret; [|discriminate].
  unfold py_div in Hret. destruct (Qeq_bool (order self) 0); [discriminate|].
  cbn [rbind] in Hret. unfold power_of_total in Hret.
  destruct (negb _ && negb _); [discriminate|].
  inversion Hret; subst v. clear Hret.
  destruct (station_loop_total power Hpow self _ Hwf 0 [] T Hloop) as (HT & Hnn).
  assert (Htot : T == spec_total power self observations synthetics).
  { rewrite HT. unfold spec_total. ring. }
  assert (H0 : 0 <= T).
  { rewrite Htot. exact Hnn. }
  exists T. split; [reflexivity|]. split; [exact Htot|]. split; [exact H0|].
  apply Hpow. exact H0.
Qed.

End MisfitFacts.

(** ** Valid input makes the call return *)

Module ReturnFacts.

Import NumPy SciPy MtuqMath Cap Frames CapSpec CorrelateFacts.
Import CapFacts SearchFacts AlignFacts StationFacts MisfitFacts.

Lemma Forall_same_core (P : Trace -> Prop) (l l' : list Trace) :
  (forall t t', same_core t t' -> P t -> P t') ->
  Forall2 same_core l l' -> Forall P l -> Forall P l'.
Proof.
  intros HP H. induction H as [|t t' l l' Ht Hl IH]; intros HF; [constructor|].
  inversion HF; subst. constructor; [eapply HP; eauto|auto].
Qed.

Lemma ready_step (padn npts_n : nat) (f f' : Frame) :
  frame_step f f' -> ready padn npts_n f -> ready padn npts_n f'.
Proof.
  intros (Hm & _ & Hcd & Hcs) (Hd & Hs & Hlen & Hn & m & Hmode).
  split; [|split; [|split; [|split]]].
  - apply (Forall_same_core _ _ _) with (2 := Hcd) (3 := Hd).
    intros t t' (A & B & C). unfold weighted, has_channel. rewrite <- A, <- B, <- C. auto.
  - apply (Forall_same_core _ _ _) with (2 := Hcs) (3 := Hs).
    intros t t' (A & _). rewrite <- A. auto.
  - rewrite <- (same_core_length _ _ Hcd), <- (same_core_length _ _ Hcs). exact Hlen.
  - exact Hn.
  - exists m. congruence.
Qed.

Lemma accumulate_succeeds (padn npts_n : nat) (f : Frame) (g : string)
    (acc : arr * list nat) (i : nat) :
  ready padn npts_n f -> (i < length (traces (obs f)))%nat ->
  length (fst acc) = (2 * padn + 1)%nat ->
  exists acc', accumulate (traces (obs f)) (traces (syn f)) (time_shift_mode (obs f))
                          g acc i = Ok acc'.
Proof.
  intros (Hd & Hs & Hlen & Hn & m & Hmode) Hi Hacc. rewrite Hmode.
  destruct (selected (traces (obs f)) g i) eqn:Hsel.
  2:{ unfold selected in Hsel. unfold accumulate, item.
      destruct (nth_error (traces (obs f)) i) as [di|] eqn:Hdi.
      2:{ apply nth_error_None in Hdi. lia. }
      cbn [rbind]. destruct (zero_weight di); [eauto|]. cbn [negb andb] in Hsel.
      rewrite Forall_forall in Hd.
      destruct (Hd di (nth_error_In _ _ Hdi)) as (_ & _ & Hch).
      unfold has_channel in Hch. unfold component in *.
      destruct (last_char (channel (stats di))); [|discriminate].
      cbn [rbind]. rewrite Hsel. eauto. }
  destruct (accumulate_selected (traces (obs f)) (traces (syn f)) m g acc i Hsel)
    as (di & Hdi & Heq).
  rewrite Heq. clear Heq.
  destruct (m =? 0)%Z; [eauto|].
  destruct (nth_error (traces (syn f)) i) as [si|] eqn:Hsi.
  2:{ apply nth_error_None in Hsi. lia. }
  rewrite Forall_forall in Hd, Hs.
  destruct (Hd di (nth_error_In _ _ Hdi)) as (Hld & _).
  pose proof (Hs si (nth_error_In _ _ Hsi)) as Hls.
  unfold item. rewrite Hsi. cbn [rbind].
  destruct (m =? 1)%Z.
  { rewrite iadd_same_length; [cbn [rbind]; eauto|].
    rewrite fftconvolve_valid_length by lia. lia. }
  destruct (m =? 2)%Z; [|eauto].
  destruct (correlate_valid_ok (data di) (data si)) as (x & Hx & Hlx & _); [lia|].
  rewrite Hx. cbn [rbind]. rewrite iadd_same_length; [cbn [rbind]; eauto|]. lia.
Qed.

Lemma lag_search_succeeds (padn npts_n : nat) (f : Frame) (g : string) (range : list nat) :
  ready padn npts_n f ->
  (forall i, In i range -> (i < length (traces (obs f)))%nat) ->
  forall acc, length (fst acc) = (2 * padn + 1)%nat ->
  exists acc', lag_search (traces (obs f)) (traces (syn f)) (time_shift_mode (obs f))
                          g acc range = Ok acc'.
Proof.
  intros Hready. induction range as [|i range IH]; intros Hrange acc Hacc;
    cbn [lag_search]; [eauto|].
  destruct (accumulate_succeeds padn npts_n f g acc i Hready) as (acc1 & Hacc1);
    [apply Hrange; left; reflexivity|exact Hacc|].
  rewrite Hacc1. cbn [rbind].
  apply IH; [intros; apply Hrange; right; assumption|].
  pose proof (accumulate_effect (traces (obs f)) (traces (syn f))
                (time_shift_mode (obs f)) g acc i) as He.
  rewrite Hacc1 in He. destruct He as (Hl & _). exact (eq_trans Hl Hacc).
Qed.

Section WithPower.

Variable power : Q -> Q -> Q.

Lemma record_residuals_ok (p dt : Q) (padn npts_n : nat) (i0 i1 : Z) (si di : Trace) :
  length (data di) = npts_n ->
  length (data si) = (npts_n + 2 * padn)%nat ->
  (0 <= i0 <= 2 * Z.of_nat padn)%Z -> i1 = (i0 + Z.of_nat npts_n)%Z ->
  exists sr, record_residuals power p dt i0 i1 si di = Ok sr.
Proof.
  intros Hd Hs Hi0 Hi1. unfold record_residuals.
  rewrite SliceFacts.sub_same_length; [cbn [rbind]; eauto|].
  apply Nat2Z.inj. rewrite SliceFacts.slice_length by lia. lia.
Qed.

Lemma align_succeeds (p dt ts : Q) (g : string) (padn npts_n : nat) (i0 i1 : Z)
    (i : nat) (f : Frame) :
  ready padn npts_n f -> (i < length (traces (obs f)))%nat ->
  (0 <= i0 <= 2 * Z.of_nat padn)%Z -> i1 = (i0 + Z.of_nat npts_n)%Z ->
  snd (align power p dt ts g i0 i1 i f) = Ok tt.
Proof.
  intros (Hd & Hs & Hlen & Hn & _) Hi Hi0 Hi1.
  destruct (nth_error (traces (obs f)) i) as [di|] eqn:Hdi.
  2:{ apply nth_error_None in Hdi. lia. }
  destruct (nth_error (traces (syn f)) i) as [si|] eqn:Hsi.
  2:{ apply nth_error_None in Hsi. lia. }
  rewrite Forall_forall in Hd, Hs.
  destruct (Hd di (nth_error_In _ _ Hdi)) as (Hld & Hwt & _).
  pose proof (Hs si (nth_error_In _ _ Hsi)) as Hls.
  destruct (weighted_weight di Hwt) as (w & Hw & _).
  destruct (record_residuals_ok p dt padn npts_n i0 i1 si di Hld Hls Hi0 Hi1) as (sr & Hsr).
  unfold align, bind, modify_s. rewrite Hsi. cbn -[update_nth].
  unfold get_s, item. cbn -[update_nth]. rewrite update_nth_same, Hsi. cbn -[update_nth].
  unfold get_d, item. cbn -[update_nth]. rewrite Hdi. cbn -[update_nth].
  unfold lift.
  rewrite (record_residuals_core power p dt i0 i1 si _ di di
             (set_alignment_core ts g i0 i1 si) (same_core_refl di)).
  rewrite Hsr. cbn -[update_nth].
  unfold modify_d. cbn -[update_nth]. rewrite Hdi. cbn -[update_nth].
  rewrite update_nth_same, Hdi. cbn -[update_nth]. rewrite Hw. reflexivity.
Qed.

Lemma align_loop_succeeds (p dt ts : Q) (g : string) (padn npts_n : nat) (i0 i1 : Z)
    (idx : list nat) :
  (0 <= i0 <= 2 * Z.of_nat padn)%Z -> i1 = (i0 + Z.of_nat npts_n)%Z ->
  forall f, ready padn npts_n f ->
    (forall i, In i idx -> (i < length (traces (obs f)))%nat) ->
    snd (for_each idx (align power p dt ts g i0 i1) f) = Ok tt.
Proof.
  intros Hi0 Hi1. induction idx as [|i idx IH]; intros f Hready Hidx; [reflexivity|].
  cbn [for_each]. rewrite bind_run.
  pose proof (align_succeeds p dt ts g padn npts_n i0 i1 i f Hready
                (Hidx i (or_introl eq_refl)) Hi0 Hi1) as Hok.
  pose proof (align_effect power p dt ts g i0 i1 i f) as He. cbn zeta in He.
  destruct (align power p dt ts g i0 i1 i f) as [f1 [[]|e]]; cbn [fst snd] in *;
    [|discriminate].
  destruct He as (Hstep & _).
  apply IH; [eapply ready_step; eauto|].
  intros j Hj. destruct Hstep as (_ & _ & Hcd & _).
  rewrite <- (same_core_length _ _ Hcd). apply Hidx. right. exact Hj.
Qed.

Lemma shift_group_succeeds (self : Misfit) (padn npts_n : nat) (dt : Q) (g : string)
    (f : Frame) :
  ready padn npts_n f ->
  snd (shift_group power self (Z.of_nat npts_n) dt (Z.of_nat padn) g f) = Ok tt.
Proof.
  intros Hready. rewrite shift_group_run.
  replace (2 * Z.of_nat padn + 1 <? 0)%Z with false by (symmetry; apply Z.ltb_ge; lia).
  destruct (lag_search_succeeds padn npts_n f g (seq 0 (length (traces (obs f)))) Hready)
    with (acc := (repeat 0 (Z.to_nat (2 * Z.of_nat padn + 1)), @nil nat))
    as ([res idx] & Hsearch).
  { intros i Hi. apply in_seq in Hi. lia. }
  { cbn [fst]. rewrite repeat_length. lia. }
  rewrite Hsearch. cbn [fst snd].
  pose proof (lag_search_effect (traces (obs f)) (traces (syn f))
                (time_shift_mode (obs f)) g (seq 0 (length (traces (obs f))))
                (repeat 0 (Z.to_nat (2 * Z.of_nat padn + 1)), [])) as He.
  rewrite Hsearch in He. cbn [fst snd app] in He. destruct He as (Hlen & Hidx).
  rewrite repeat_length in Hlen.
  assert (Hne : res <> []) by (intros ->; cbn [length] in Hlen; lia).
  pose proof (ArgmaxFacts.argmax_bound res Hne) as Hb.
  apply (align_loop_succeeds _ _ _ _ padn npts_n); auto.
  - unfold slice_start. lia.
  - intros i Hi. subst idx. apply filter_In in Hi. destruct Hi as (Hi & _).
    apply in_seq in Hi. lia.
Qed.

Lemma groups_succeed (self : Misfit) (padn npts_n : nat) (dt : Q) (groups : list string) :
  forall f, ready padn npts_n f ->
    snd (for_each groups (shift_group power self (Z.of_nat npts_n) dt (Z.of_nat padn)) f)
      = Ok tt.
Proof.
  induction groups as [|g gs IH]; intros f Hready; [reflexivity|].
  cbn [for_each]. rewrite bind_run.
  pose proof (shift_group_succeeds self padn npts_n dt g f Hready) as Hok.
  pose proof (shift_group_effect power self (Z.of_nat npts_n) dt (Z.of_nat padn) g f) as He.
  cbn zeta in He.
  destruct (shift_group power self (Z.of_nat npts_n) dt (Z.of_nat padn) g f)
    as [f1 [[]|e]]; cbn [fst snd] in *; [|discriminate].
  destruct He as (Hstep & _). apply IH. eapply ready_step; eauto.
Qed.

Lemma station_succeeds (self : Misfit) (d s : Dataset) (total : Q) (w : list string) :
  valid_configuration self = true ->
  valid_station self (d, s) = true ->
  snd (station power self (mkFrame d s total w)) = Ok tt.
Proof.
  unfold valid_configuration, valid_station, well_formed_station. cbn [fst snd].
  intros Hc Hv.
  apply andb_prop in Hc. destruct Hc as (Hc & Htsm).
  apply andb_prop in Hc. destruct Hc as (_ & Hpol).
  apply Qle_bool_iff in Htsm. apply Qle_bool_iff in Hpol.
  apply andb_prop in Hv. destruct Hv as (Hv & Hlenrel).
  apply andb_prop in Hv. destruct Hv as (Hv & Hnpts).
  apply andb_prop in Hv. destruct Hv as (Hv & Hch).
  apply andb_prop in Hv. destruct Hv as (Hv & Hds).
  apply andb_prop in Hv. destruct Hv as (Hwf & Hd1).
  apply andb_prop in Hwf. destruct Hwf as (Hwf & Hsamp).
  apply andb_prop in Hwf. destruct Hwf as (Hwf & Hw).
  apply andb_prop in Hwf. destruct Hwf as (Hud & Hus).
  apply uniform_length_forall in Hud. apply uniform_length_forall in Hus.
  apply Nat.leb_le in Hd1. apply Nat.leb_le in Hds. apply Nat.leb_le in Hnpts.
  destruct (nth_error (traces d) 0) as [d0|] eqn:Hd0.
  2:{ apply nth_error_None in Hd0. lia. }
  destruct (nth_error (traces s) 0) as [s0|] eqn:Hs0.
  2:{ apply nth_error_None in Hs0. lia. }
  unfold spec_npts_padding, spec_dt, spec_npts in *.
  rewrite (nth_error_nth_blank _ _ _ Hd0) in *.
  rewrite (nth_error_nth_blank _ _ _ Hs0) in *.
  assert (Hdt : 0 < delta (stats d0)).
  { apply sampled_positive. rewrite forallb_forall in Hsamp. apply Hsamp.
    apply (nth_error_In _ _ Hd0). }
  pose proof (PaddingFacts.padding_nonneg _ _ Htsm Hdt) as Hpad.
  set (pad := py_round (time_shift_max self / delta (stats d0))) in *.
  rewrite station_run, waveforms_run, prepare_run. cbn [obs syn sum_misfit warnings].
  rewrite Hd0, Hs0. cbn zeta.
  rewrite (PaddingFacts.positive_not_zero _ Hdt). fold pad.
  assert (Hgo : forall f1,
            obs f1 = d ->
            Forall (fun t => length (data t) = (length (data d0) + 2 * Z.to_nat pad)%nat)
                   (traces (syn f1)) ->
            length (traces (syn f1)) = length (traces s) ->
            snd (match
                   for_each (time_shift_groups self)
                     (shift_group power self (Z.of_nat (length (data d0)))
                        (delta (stats d0)) pad)
                     (fst (select_mode (Z.of_nat (length (data d0))) pad f1))
                 with
                 | (f3, Ok _) =>
                     if Qlt_le_dec 0 (polarity_weight self)
                     then (f3, Raise NotImplementedError) else (f3, Ok tt)
                 | (f3, Raise e) => (f3, Raise e)
                 end) = Ok tt).
  { intros f1 Ho Hlens Hlen1.
    rewrite select_mode_run. cbn [fst].
    match goal with |- context [for_each _ _ ?fr] => set (f2 := fr) end.
    assert (Hready : ready (Z.to_nat pad) (length (data d0)) f2).
    { assert (Ht2 : traces (obs f2) = traces d).
      { unfold f2. destruct (time_shift_mode (obs f1));
          cbn [obs traces set_time_shift_mode]; rewrite Ho; reflexivity. }
      assert (Hs2 : traces (syn f2) = traces (syn f1)).
      { unfold f2. destruct (time_shift_mode (obs f1)); reflexivity. }
      unfold ready. rewrite Ht2, Hs2. split; [|split; [|split; [|split]]].
      - rewrite forallb_forall in Hw, Hch. rewrite Forall_forall in *.
        intros t Ht. split; [apply (Hud t Ht)|]. split; [apply Hw|apply Hch]; exact Ht.
      - exact Hlens.
      - lia.
      - exact Hnpts.
      - unfold f2. destruct (time_shift_mode (obs f1)) as [m|] eqn:Hm.
        + exists m. exact Hm.
        + eexists. reflexivity. }
    pose proof (groups_succeed self (Z.to_nat pad) (length (data d0)) (delta (stats d0))
                  (time_shift_groups self) f2 Hready) as Hok.
    rewrite Z2Nat.id in Hok by exact Hpad.
    destruct (for_each _ _ f2) as [f3 [[]|e]]; cbn [snd] in Hok; [|discriminate].
    destruct (Qlt_le_dec 0 (polarity_weight self)) as [Hlt|_]; [|reflexivity].
    exfalso. apply (Qlt_not_le _ _ Hlt Hpol). }
  destruct (_ =? _)%Z eqn:E1.
  - apply Z.eqb_eq in E1. apply Hgo; [reflexivity| |reflexivity]. cbn [syn].
    rewrite Forall_forall in *. intros t Ht. rewrite (Hus t Ht). lia.
  - cbn [orb] in Hlenrel. apply Nat.eqb_eq in Hlenrel.
    rewrite Hlenrel, Z.eqb_refl. rewrite pad_traces_run.
    replace (pad <? 0)%Z with false by (symmetry; apply Z.ltb_ge; exact Hpad).
    apply Hgo; cbn [obs syn set_traces traces]; [reflexivity| |apply length_map].
    rewrite Forall_forall in *. intros t' Hin.
    apply in_map_iff in Hin. destruct Hin as (t & <- & Hin).
    cbn [set_data data]. rewrite !length_app, !repeat_length, (Hus t Hin). lia.
Qed.

Lemma station_loop_succeeds (self : Misfit) (pairs : list (Dataset * Dataset)) :
  valid_configuration self = true ->
  forallb (valid_station self) pairs = true ->
  forall total w, exists T, returned (station_loop power self pairs total w) = Ok T.
Proof.
  intros Hc. induction pairs as [|[d s] rest IH]; intros Hv total w.
  - cbn. eauto.
  - cbn [forallb] in Hv. apply andb_prop in Hv. destruct Hv as (Hv1 & Hv2).
    cbn [station_loop].
    pose proof (station_succeeds self d s total w Hc Hv1) as Hok.
    destruct (station power self (mkFrame d s total w)) as [f' [[]|e]];
      cbn [snd] in Hok; [|discriminate].
    cbn [returned]. apply IH. exact Hv2.
Qed.

Lemma call_succeeds (self : Misfit) (observations synthetics : list Dataset) :
  valid_configuration self = true ->
  forallb (valid_station self) (combine observations synthetics) = true ->
  exists v, returned (call power self observations synthetics) = Ok v.
Proof.
  intros Hc Hv. unfold call. cbn [returned].
  destruct (station_loop_succeeds self _ Hc Hv 0 []) as (T & HT).
  rewrite HT. cbn [rbind]. unfold py_div.
  unfold valid_configuration in Hc.
  apply andb_prop in Hc. destruct Hc as (Hc & _).
  apply andb_prop in Hc. destruct Hc as (Hord & _).
  destruct (Qeq_bool (order self) 0) eqn:E.
  - apply Qeq_bool_eq in E. apply negb_true_iff in Hord.
    assert (Hle : order self <= 0) by (rewrite E; apply Qle_refl).
    apply Qle_bool_iff in Hle. congruence.
  - cbn [rbind]. unfold power_of_total.
    assert (Hpos : Qle_bool 0 (1 / order self) = true).
    { apply Qle_bool_iff. apply negb_true_iff in Hord.
      destruct (Qlt_le_dec 0 (order self)) as [Hlt|Hle].
      - apply Qle_shift_div_l; [exact Hlt|]. rewrite Qmult_0_l. discriminate.
      - apply Qle_bool_iff in Hle. congruence. }
    rewrite Hpos, andb_false_r. eauto.
Qed.

End WithPower.

End ReturnFacts.

Module MisfitClaims.

Import NumPy SciPy MtuqMath Cap Frames CapSpec.
Import MisfitFacts ReturnFacts Examples.

(** C1, as the code has it, in exact arithmetic.  A record is counted
    once for every group that holds its component, not once; nothing is
    said of the value being finite in binary64.
    Over stations whose observed records share one sample count
    and carry a weight that is not negative and a positive sampling
    interval, and whose synthetic records share one length: whenever the
    call returns, the value is [total ** (1/p)] where [total] equals the
    sum, over the stations, the groups and the records that take part in
    the group (weight not zero, component in the group), of
    [weight * sum_residuals], with [sum_residuals = dt * sum(|aligned
    synthetic slice - observed data| ** p)]; the total and the value are
    not negative; and the call does return on every valid input (positive
    norm order, no polarity term, a maximum lag that is not negative, and
    on every station at least one record and one sample, a channel code on
    every observed record, a synthetic record for every observed one, and
    synthetics padded by [2*npts_padding] samples or as long as the
    data).  [power] is any function that is not negative on a base that
    is not negative. *)
Theorem misfit_value (power : Q -> Q -> Q) (self : Misfit)
    (observations synthetics : list Dataset) :
  (forall x y, 0 <= x -> 0 <= power x y) ->
  forallb well_formed_station (combine observations synthetics) = true ->
  (forall v, returned (call power self observations synthetics) = Ok v ->
     exists total,
       v = power total (1 / order self) /\
       total == spec_total power self observations synthetics /\
       0 <= total /\ 0 <= v /\
       (Proper (Qeq ==> Qeq ==> Qeq) power ->
          v == spec_misfit power self observations synthetics)) /\
  (valid_configuration self = true ->
   forallb (valid_station self) (combine observations synthetics) = true ->
   exists v, returned (call power self observations synthetics) = Ok v).
Proof.
  intros Hpow Hwf. split.
  - intros v Hret.
    destruct (call_value power self observations synthetics v Hpow Hwf Hret)
      as (total & Hv & Htot & H0 & Hv0).
    exists total. repeat split; auto.
    intros Hproper. unfold spec_misfit. rewrite Hv.
    apply Hproper; [exact Htot|reflexivity].
  - intros Hc Hv. apply call_succeeds; assumption.
Qed.

Lemma misfit_value_witness :
  exists v total,
    returned (call power_order1 one_second [observed_z] [synthetic_z_padded]) = Ok v /\
    v = power_order1 total (1 / order one_second) /\
    total == spec_total power_order1 one_second [observed_z] [synthetic_z_padded] /\
    0 <= v.
Proof.
  assert (Hpow : forall x y : Q, 0 <= x -> 0 <= power_order1 x y)
    by (intros x y H; exact H).
  destruct (misfit_value power_order1 one_second [observed_z] [synthetic_z_padded]
              Hpow eq_refl) as (Hval & Hret).
  destruct (Hret eq_refl eq_refl) as (v & Hv).
  destruct (Hval v Hv) as (total & H1 & H2 & _ & H4 & _).
  exists v, total. repeat split; assumption.
Defined.

(** C1 as stated fails: with the groups ['ZR', 'Z'] the one record, a
    vertical one of weight 1 whose residuals are 9, takes part in both
    groups; line 161 adds its weighted residuals twice and the call
    returns 18, where the sum over the records gives 9. *)
Lemma record_counted_once_per_group :
  exists d' s' dz,
    valid_configuration overlapping = true /\
    valid_station overlapping (observed_z, synthetic_far) = true /\
    returned (call power_order1 overlapping [observed_z] [synthetic_far]) = Ok 18 /\
    stations_after (call power_order1 overlapping [observed_z] [synthetic_far])
      = [(d', s')] /\
    traces d' = [dz] /\ weight dz = Some 1 /\ sum_residuals dz = Some 9 /\
    claimed_total [(d', s')] == 9 /\
    ~ 18 == power_order1 9 (1 / order overlapping).
Proof.
  do 3 eexists.
  split; [reflexivity|]. split; [reflexivity|]. split; [reflexivity|].
  split; [reflexivity|]. split; [reflexivity|]. split; [reflexivity|].
  split; [reflexivity|]. split; [reflexivity|].
  intros H. discriminate H.
Qed.

End MisfitClaims.

(** ** The sampling intervals of mtuq/util/math.py *)

Module IntervalFacts.

Import NumPy MtuqIntervals CorrelateFacts.

Lemma every_second_nth (l : arr) (k : nat) :
  nth k (every_second l) 0 = nth (2 * k) l 0.
Proof.
  revert l; induction k as [|k IH]; intros l.
  - destruct l; reflexivity.
  - replace (2 * S k)%nat with (S (S (2 * k))) by lia.
    destruct l as [|x [|y l]]; cbn [every_second nth].
    + reflexivity.
    + destruct k; reflexivity.
    + apply IH.
Qed.

Lemma every_second_length_le (n : nat) (l : arr) :
  (length l <= n)%nat -> length (every_second l) = Nat.div2 (S (length l)).
Proof.
  revert l; induction n as [|n IH]; intros l H.
  - destruct l; [reflexivity|simpl in H; lia].
  - destruct l as [|x [|y l]]; [reflexivity|reflexivity|].
    cbn [every_second length Nat.div2]. f_equal.
    rewrite IH by (simpl in H; lia). reflexivity.
Qed.

Lemma every_second_length (l : arr) :
  length (every_second l) = Nat.div2 (S (length l)).
Proof. apply (every_second_length_le (length l)); lia. Qed.

Lemma div2_double (n : nat) : Nat.div2 (2 * n) = n.
Proof. rewrite Nat.div2_div, Nat.mul_comm. apply Nat.div_mul. lia. Qed.

Lemma linspace_run (start stop : Q) (num : Z) :
  (0 <= num)%Z ->
  linspace start stop num =
  Ok (map (linspace_point start stop num) (seq 0 (Z.to_nat num))).
Proof.
  intros H. unfold linspace.
  destruct (num <? 0)%Z eqn:E; [apply Z.ltb_lt in E; lia|reflexivity].
Qed.

Lemma linspace_negative (start stop : Q) (num : Z) :
  (num < 0)%Z -> linspace start stop num = Raise ValueError.
Proof.
  intros H. unfold linspace. apply Z.ltb_lt in H. rewrite H. reflexivity.
Qed.

Lemma nth_linspace (start stop : Q) (num : Z) (i : nat) :
  (Z.of_nat i < num)%Z ->
  nth i (map (linspace_point start stop num) (seq 0 (Z.to_nat num))) 0 =
  linspace_point start stop num i.
Proof. intros H. apply nth_map_seq. lia. Qed.

(** A point of [linspace] in closed form. *)
Lemma linspace_point_value (start stop : Q) (num : Z) (i : nat) :
  (2 <= num)%Z -> (Z.of_nat i < num)%Z ->
  linspace_point start stop num i ==
  start + (inject_Z (Z.of_nat i) / inject_Z (num - 1)) * (stop - start).
Proof.
  intros H2 Hi. unfold linspace_point, linspace_step.
  assert (Hd : ~ inject_Z (num - 1) == 0).
  { intros E. unfold Qeq, inject_Z in E. simpl in E. lia. }
  destruct (1 <? num)%Z eqn:E1; [|apply Z.ltb_ge in E1; lia].
  destruct (num =? 1)%Z eqn:E2; [apply Z.eqb_eq in E2; lia|].
  cbn [andb].
  destruct (Z.of_nat i =? num - 1)%Z eqn:E3.
  - apply Z.eqb_eq in E3. rewrite E3. field. exact Hd.
  - field. exact Hd.
Qed.

(** The odd points of [linspace] with [2*nx+1] points, save the last. *)
Lemma odd_interior_nth (x1 x2 : Q) (nx : Z) (k : nat) :
  (Z.of_nat k < nx)%Z ->
  nth k (odd_interior
           (map (linspace_point x1 x2 (2 * nx + 1)) (seq 0 (Z.to_nat (2 * nx + 1))))) 0 =
  linspace_point x1 x2 (2 * nx + 1) (2 * k + 1).
Proof.
  intros H. unfold odd_interior. rewrite every_second_nth.
  set (a := map _ _).
  assert (Hlen : length a = Z.to_nat (2 * nx + 1)).
  { unfold a. rewrite length_map, length_seq. reflexivity. }
  unfold slice, slice_bound. cbn [Z.ltb Z.compare].
  rewrite Hlen.
  rewrite nth_firstn_Q.
  - rewrite nth_skipn_Q.
    replace (Nat.min (Z.to_nat 1) (Z.to_nat (2 * nx + 1)) + 2 * k)%nat
      with (2 * k + 1)%nat by lia.
    unfold a. apply nth_linspace. lia.
  - lia.
Qed.

Lemma odd_interior_length (x1 x2 : Q) (nx : Z) :
  (0 <= nx)%Z ->
  length (odd_interior
            (map (linspace_point x1 x2 (2 * nx + 1)) (seq 0 (Z.to_nat (2 * nx + 1))))) =
  Z.to_nat nx.
Proof.
  intros H. unfold odd_interior. rewrite every_second_length.
  set (a := map _ _).
  assert (Hlen : length a = Z.to_nat (2 * nx + 1)).
  { unfold a. rewrite length_map, length_seq. reflexivity. }
  unfold slice, slice_bound. cbn [Z.ltb Z.compare].
  rewrite Hlen, length_firstn, length_skipn, Hlen.
  destruct (Z.to_nat nx) as [|m] eqn:E.
  - replace (Z.to_nat (2 * nx + 1)) with 1%nat by lia. reflexivity.
  - replace (S (Nat.min _ _)) with (2 * S m)%nat by lia.
    apply div2_double.
Qed.

Lemma open_interval_run (x1 x2 : Q) (nx : Z) :
  (0 <= nx)%Z ->
  open_interval x1 x2 nx =
  Ok (odd_interior
        (map (linspace_point x1 x2 (2 * nx + 1)) (seq 0 (Z.to_nat (2 * nx + 1))))).
Proof.
  intros H. unfold open_interval. rewrite linspace_run by lia. reflexivity.
Qed.

(** A point of [open_interval] in closed form. *)
Lemma open_point_value (x1 x2 : Q) (nx : Z) (k : nat) :
  (Z.of_nat k < nx)%Z ->
  linspace_point x1 x2 (2 * nx + 1) (2 * k + 1) ==
  x1 + (inject_Z (2 * Z.of_nat k + 1) / inject_Z (2 * nx)) * (x2 - x1).
Proof.
  intros H. rewrite linspace_point_value by lia.
  replace (Z.of_nat (2 * k + 1)) with (2 * Z.of_nat k + 1)%Z by lia.
  replace (2 * nx + 1 - 1)%Z with (2 * nx)%Z by lia.
  reflexivity.
Qed.


Lemma add_same_length (a b : arr) :
  length a = length b ->
  add a b = Ok (map (fun xy => fst xy + snd xy) (combine a b)).
Proof.
  intros H. unfold add. rewrite H, Nat.eqb_refl. reflexivity.
Qed.

Lemma nth_combine_map (f : Q * Q -> Q) (a b : arr) (k : nat) :
  length a = length b -> (k < length a)%nat ->
  nth k (map f (combine a b)) 0 = f (nth k a 0, nth k b 0).
Proof.
  intros Hl Hk. rewrite (combine_as_seq a b Hl), map_map.
  apply (nth_map_seq (fun n => f (nth n a 0, nth n b 0))). exact Hk.
Qed.

Lemma nth_scale (a : arr) (c : Q) (k : nat) :
  (k < length a)%nat -> nth k (scale a c) 0 = nth k a 0 * c.
Proof.
  intros H. unfold scale.
  rewrite (nth_indep _ 0 ((fun x => x * c) 0)) by (rewrite length_map; exact H).
  apply (map_nth (fun x => x * c)).
Qed.

(** [tight_interval] computed: the two grids have [nx] points each. *)
Lemma tight_interval_run (x1 x2 : Q) (nx : Z) (tightness : Q) :
  (0 <= nx)%Z ->
  exists Lo Lc a,
    open_interval x1 x2 nx = Ok Lo /\
    closed_interval x1 x2 nx = Ok Lc /\
    tight_interval x1 x2 nx tightness = Ok a /\
    length Lo = Z.to_nat nx /\ length Lc = Z.to_nat nx /\ length a = Z.to_nat nx /\
    forall k, (k < Z.to_nat nx)%nat ->
      nth k a 0 = nth k Lo 0 * (1 - tightness) + nth k Lc 0 * tightness.
Proof.
  intros H.
  pose proof (odd_interior_length x1 x2 nx H) as Hlo.
  set (Lo := odd_interior _) in Hlo.
  set (Lc := map (linspace_point x1 x2 nx) (seq 0 (Z.to_nat nx))).
  assert (Hlc : length Lc = Z.to_nat nx).
  { unfold Lc. rewrite length_map, length_seq. reflexivity. }
  assert (Hs : length (scale Lo (1 - tightness)) = length (scale Lc tightness)).
  { unfold scale. rewrite !length_map. congruence. }
  exists Lo, Lc, (map (fun xy => fst xy + snd xy)
                    (combine (scale Lo (1 - tightness)) (scale Lc tightness))).
  split; [apply open_interval_run; exact H|].
  split; [apply linspace_run; exact H|].
  split.
  { unfold tight_interval. rewrite open_interval_run by exact H.
    unfold closed_interval. rewrite linspace_run by exact H.
    cbn [rbind]. apply add_same_length. exact Hs. }
  split; [exact Hlo|]. split; [exact Hlc|].
  split.
  { rewrite length_map, length_combine, <- Hs, Nat.min_id.
    unfold scale. rewrite length_map. exact Hlo. }
  intros k Hk.
  rewrite nth_combine_map; [|exact Hs|unfold scale; rewrite length_map; lia].
  cbn [fst snd]. rewrite !nth_scale by lia. reflexivity.
Qed.


End IntervalFacts.

Module IntervalProperties.

Import NumPy MtuqIntervals CorrelateFacts IntervalFacts.

(** X1. [closed_interval(x1, x2, nx)] with at least two points returns
    [nx] equally spaced points: point [i] is
    [x1 + i/(nx-1) * (x2 - x1)], the first is [x1] and the last is [x2]
    itself. *)
Theorem closed_interval_points (x1 x2 : Q) (nx : Z) :
  (2 <= nx)%Z ->
  exists a,
    closed_interval x1 x2 nx = Ok a /\
    length a = Z.to_nat nx /\
    nth 0 a 0 == x1 /\
    nth (Z.to_nat nx - 1) a 0 = x2 /\
    forall i, (i < Z.to_nat nx)%nat ->
      nth i a 0 == x1 + (inject_Z (Z.of_nat i) / inject_Z (nx - 1)) * (x2 - x1).
Proof.
  intros H. unfold closed_interval. rewrite linspace_run by lia.
  eexists; split; [reflexivity|].
  split; [rewrite length_map, length_seq; reflexivity|].
  assert (Hf : forall i, (i < Z.to_nat nx)%nat ->
            nth i (map (linspace_point x1 x2 nx) (seq 0 (Z.to_nat nx))) 0 ==
            x1 + (inject_Z (Z.of_nat i) / inject_Z (nx - 1)) * (x2 - x1)).
  { intros i Hi. rewrite nth_linspace by lia.
    apply linspace_point_value; lia. }
  split.
  { rewrite Hf by lia. cbn [Z.of_nat]. unfold Qdiv. ring. }
  split; [|exact Hf].
  rewrite nth_linspace by lia. unfold linspace_point.
  destruct (1 <? nx)%Z eqn:E1; [|apply Z.ltb_ge in E1; lia].
  destruct (Z.of_nat (Z.to_nat nx - 1) =? nx - 1)%Z eqn:E2;
    [reflexivity|apply Z.eqb_neq in E2; lia].
Qed.

Lemma closed_interval_points_witness :
  exists a,
    closed_interval 0 1 3 = Ok a /\
    length a = Z.to_nat 3 /\
    nth 0 a 0 == 0 /\
    nth (Z.to_nat 3 - 1) a 0 = 1 /\
    forall i, (i < Z.to_nat 3)%nat ->
      nth i a 0 == 0 + (inject_Z (Z.of_nat i) / inject_Z (3 - 1)) * (1 - 0).
Proof. apply (closed_interval_points 0 1 3). lia. Defined.



(** X3. The points of [open_interval(x1, x2, nx)] are the midpoints of
    the consecutive points of [closed_interval(x1, x2, nx + 1)]. *)
Theorem open_interval_midpoints (x1 x2 : Q) (nx : Z) :
  (1 <= nx)%Z ->
  exists Lo Lc,
    open_interval x1 x2 nx = Ok Lo /\
    closed_interval x1 x2 (nx + 1) = Ok Lc /\
    length Lc = S (length Lo) /\
    forall k, (k < length Lo)%nat ->
      nth k Lo 0 == (nth k Lc 0 + nth (S k) Lc 0) / 2.
Proof.
  intros H. rewrite open_interval_run by lia.
  unfold closed_interval. rewrite linspace_run by lia.
  do 2 eexists. split; [reflexivity|]. split; [reflexivity|].
  rewrite odd_interior_length by lia.
  split; [rewrite length_map, length_seq; lia|].
  intros k Hk.
  rewrite odd_interior_nth by lia.
  rewrite open_point_value by lia.
  rewrite !nth_linspace by lia.
  rewrite !linspace_point_value by lia.
  replace (nx + 1 - 1)%Z with nx by lia.
  replace (Z.of_nat (S k)) with (Z.of_nat k + 1)%Z by lia.
  replace (2 * Z.of_nat k + 1)%Z with (Z.of_nat k + (Z.of_nat k + 1))%Z by lia.
  rewrite !inject_Z_mult, !inject_Z_plus.
  assert (Hd : ~ inject_Z nx == 0).
  { intros E. unfold Qeq, inject_Z in E. simpl in E. lia. }
  change (inject_Z 2) with 2. change (inject_Z 1) with 1.
  field. exact Hd.
Qed.

Lemma open_interval_midpoints_witness :
  exists Lo Lc,
    open_interval 0 1 2 = Ok Lo /\
    closed_interval 0 1 (2 + 1) = Ok Lc /\
    length Lc = S (length Lo) /\
    forall k, (k < length Lo)%nat ->
      nth k Lo 0 == (nth k Lc 0 + nth (S k) Lc 0) / 2.
Proof. apply (open_interval_midpoints 0 1 2). lia. Defined.

(** X4. [tight_interval] at its two ends: with [tightness] 0 it returns
    the points of [open_interval], with [tightness] 1 those of
    [closed_interval]. *)
Theorem tight_interval_reduces (x1 x2 : Q) (nx : Z) :
  (0 <= nx)%Z ->
  exists Lo Lc a0 a1,
    open_interval x1 x2 nx = Ok Lo /\
    closed_interval x1 x2 nx = Ok Lc /\
    tight_interval x1 x2 nx 0 = Ok a0 /\
    tight_interval x1 x2 nx 1 = Ok a1 /\
    Forall2 Qeq a0 Lo /\ Forall2 Qeq a1 Lc.
Proof.
  intros H.
  destruct (tight_interval_run x1 x2 nx 0 H)
    as (Lo & Lc & a0 & HLo & HLc & Ha0 & Hlo & Hlc & Hl0 & Hn0).
  destruct (tight_interval_run x1 x2 nx 1 H)
    as (Lo' & Lc' & a1 & HLo' & HLc' & Ha1 & _ & _ & Hl1 & Hn1).
  assert (Lo' = Lo) by congruence. assert (Lc' = Lc) by congruence. subst Lo' Lc'.
  exists Lo, Lc, a0, a1. repeat (split; [assumption|]).
  split; apply pointwise_Qeq; try congruence; intros j Hj.
  - rewrite Hn0 by lia. ring.
  - rewrite Hn1 by lia. ring.
Qed.

Lemma tight_interval_reduces_witness :
  exists Lo Lc a0 a1,
    open_interval 0 1 2 = Ok Lo /\
    closed_interval 0 1 2 = Ok Lc /\
    tight_interval 0 1 2 0 = Ok a0 /\
    tight_interval 0 1 2 1 = Ok a1 /\
    Forall2 Qeq a0 Lo /\ Forall2 Qeq a1 Lc.
Proof. apply (tight_interval_reduces 0 1 2). lia. Defined.



(** X6. The three intervals on a count that is not positive: a negative
    [nx] is a [ValueError] of [np.linspace], and [nx = 0] gives the empty
    array. *)
Theorem intervals_without_points (x1 x2 : Q) (nx : Z) (tightness : Q) :
  (nx <= 0)%Z ->
  let expected := if (nx <? 0)%Z then Raise ValueError else Ok [] in
  open_interval x1 x2 nx = expected /\
  closed_interval x1 x2 nx = expected /\
  tight_interval x1 x2 nx tightness = expected.
Proof.
  intros H. cbn zeta.
  destruct (nx <? 0)%Z eqn:E.
  - apply Z.ltb_lt in E.
    assert (Ho : open_interval x1 x2 nx = Raise ValueError).
    { unfold open_interval. rewrite linspace_negative by lia. reflexivity. }
    split; [exact Ho|].
    split; [apply linspace_negative; exact E|].
    unfold tight_interval. rewrite Ho. reflexivity.
  - apply Z.ltb_ge in E. assert (nx = 0%Z) by lia. subst nx.
    repeat split.
Qed.

Lemma intervals_without_points_witness :
  let expected := if (-1 <? 0)%Z then Raise ValueError else Ok [] in
  open_interval 0 1 (-1) = expected /\
  closed_interval 0 1 (-1) = expected /\
  tight_interval 0 1 (-1) default_tightness = expected.
Proof. apply (intervals_without_points 0 1 (-1) default_tightness). lia. Defined.

End IntervalProperties.
(** ** The list intersections of mtuq/util/math.py *)

Module ListFacts.

Import MtuqLists.

Section Lists.

Variable A : Type.
Variable eq_dec : forall x y : A, {x = y} + {x <> y}.

Lemma member_iff (x : A) (l : list A) : member A eq_dec x l = true <-> In x l.
Proof.
  unfold member. destruct (in_dec eq_dec x l); split; intros; try assumption;
    try reflexivity; try discriminate; contradiction.
Qed.

Lemma list_intersect_in (a b : list A) (x : A) :
  In x (list_intersect A eq_dec a b) <-> In x a /\ In x b.
Proof.
  unfold list_intersect, intersection, set_of.
  rewrite filter_In, member_iff, !nodup_In. reflexivity.
Qed.

Lemma list_intersect_nodup (a b : list A) : NoDup (list_intersect A eq_dec a b).
Proof.
  unfold list_intersect, intersection, set_of.
  apply NoDup_filter, NoDup_nodup.
Qed.

Lemma index_found (a : list A) (x : A) :
  In x a ->
  exists i, index A eq_dec a x = Ok i /\ nth_error a i = Some x /\
            forall j, (j < i)%nat -> nth_error a j <> Some x.
Proof.
  induction a as [|y a IH]; intros Hin; [destruct Hin|].
  cbn [index]. destruct (eq_dec x y) as [E|E].
  - subst y. exists O. split; [reflexivity|]. split; [reflexivity|]. intros j Hj. lia.
  - destruct Hin as [Hin|Hin]; [congruence|].
    destruct (IH Hin) as (i & Hi & Hn & Hfirst).
    exists (S i). rewrite Hi. split; [reflexivity|]. split; [exact Hn|].
    intros [|j] Hj; cbn [nth_error].
    + congruence.
    + apply Hfirst. lia.
Qed.

Lemma index_missing (a : list A) (x : A) :
  ~ In x a -> index A eq_dec a x = Raise ValueError.
Proof.
  induction a as [|y a IH]; intros Hn; [reflexivity|].
  cbn [index]. destruct (eq_dec x y) as [E|E].
  - exfalso. apply Hn. left. congruence.
  - rewrite IH; [reflexivity|]. intros H. apply Hn. right. exact H.
Qed.

Lemma indices_of_found (a items : list A) :
  (forall x, In x items -> In x a) ->
  exists indices,
    indices_of A eq_dec a items = Ok indices /\
    Forall2 (fun x i => index A eq_dec a x = Ok i) items indices.
Proof.
  induction items as [|x items IH]; intros H.
  - exists []. split; [reflexivity|constructor].
  - destruct (index_found a x (H x (or_introl eq_refl))) as (i & Hi & _).
    destruct IH as (r & Hr & HF); [intros y Hy; apply H; right; exact Hy|].
    exists (i :: r). cbn [indices_of]. rewrite Hi. cbn [rbind]. rewrite Hr.
    split; [reflexivity|]. constructor; assumption.
Qed.

Lemma indices_nodup (a items : list A) (indices : list nat) :
  NoDup items ->
  Forall2 (fun x i => index A eq_dec a x = Ok i) items indices ->
  NoDup indices.
Proof.
  intros Hnd HF. induction HF as [|x i items indices Hx HF IH].
  - constructor.
  - inversion Hnd as [|? ? Hnot Hnd']; subst.
    constructor; [|apply IH; exact Hnd'].
    intros Hin. apply Hnot.
    clear IH Hnd Hnd' Hnot.
    induction HF as [|y j items indices Hy HF IH]; [destruct Hin|].
    destruct Hin as [E|Hin].
    + subst j. left.
      assert (Hax : In x a).
      { destruct (in_dec eq_dec x a) as [I|I]; [exact I|].
        rewrite (index_missing a x I) in Hx. discriminate. }
      assert (Hay : In y a).
      { destruct (in_dec eq_dec y a) as [I|I]; [exact I|].
        rewrite (index_missing a y I) in Hy. discriminate. }
      destruct (index_found a x Hax) as (i1 & H1 & N1 & _).
      destruct (index_found a y Hay) as (i2 & H2 & N2 & _).
      congruence.
    + right. apply IH. exact Hin.
Qed.

(** Every enumeration of the intersection has its elements, once each. *)
Lemma list_intersect_returns_elements (a b l : list A) :
  list_intersect_returns A eq_dec a b l ->
  NoDup l /\ (forall x, In x l <-> In x a /\ In x b).
Proof.
  unfold list_intersect_returns. intros HP. split.
  - apply (Permutation_NoDup HP), list_intersect_nodup.
  - intros x. rewrite <- list_intersect_in.
    split; apply Permutation_in; [symmetry|]; exact HP.
Qed.

End Lists.

End ListFacts.

Module ListProperties.

Import MtuqLists ListFacts.

(** X7. Whatever the order in which Python enumerates the set,
    [list_intersect(a, b)] holds every value that is in both [a] and [b]
    once, and nothing else; it is also a value of [list_intersect(b, a)]. *)
Theorem list_intersect_elements (A : Type) (eq_dec : forall x y : A, {x = y} + {x <> y})
    (a b l : list A) :
  list_intersect_returns A eq_dec a b l ->
  NoDup l /\
  (forall x, In x l <-> In x a /\ In x b) /\
  list_intersect_returns A eq_dec b a l.
Proof.
  intros HP.
  destruct (list_intersect_returns_elements A eq_dec a b l HP) as (Hnd & Hin).
  split; [exact Hnd|]. split; [exact Hin|]. unfold list_intersect_returns.
  apply NoDup_Permutation; [apply list_intersect_nodup|exact Hnd|].
  intros x. rewrite list_intersect_in, Hin. tauto.
Qed.

Lemma list_intersect_elements_witness :
  NoDup [3%Z; 2%Z] /\
  (forall x, In x [3%Z; 2%Z] <-> In x [1%Z; 2%Z; 2%Z; 3%Z] /\ In x [3%Z; 2%Z; 5%Z]) /\
  list_intersect_returns Z Z.eq_dec [3%Z; 2%Z; 5%Z] [1%Z; 2%Z; 2%Z; 3%Z] [3%Z; 2%Z].
Proof.
  apply (list_intersect_elements Z Z.eq_dec [1%Z; 2%Z; 2%Z; 3%Z] [3%Z; 2%Z; 5%Z]).
  unfold list_intersect_returns. vm_compute. apply perm_swap.
Defined.

(** X8. [list_intersect_with_indices(a, b)] never raises: for every
    order [l] of the intersection it returns [l] with as many indices,
    all different, and index [k] is the first position of [l[k]] in [a]. *)
Theorem list_intersect_indices (A : Type) (eq_dec : forall x y : A, {x = y} + {x <> y})
    (a b l : list A) :
  list_intersect_returns A eq_dec a b l ->
  exists indices,
    list_intersect_with_indices_from A eq_dec a l = Ok (l, indices) /\
    length indices = length l /\
    NoDup indices /\
    forall k x, nth_error l k = Some x ->
      exists i, nth_error indices k = Some i /\
                nth_error a i = Some x /\
                forall j, (j < i)%nat -> nth_error a j <> Some x.
Proof.
  intros HP.
  destruct (list_intersect_returns_elements A eq_dec a b l HP) as (Hnd & Hin).
  destruct (indices_of_found A eq_dec a l) as (indices & Hrun & HF).
  { intros x Hx. apply Hin. exact Hx. }
  exists indices. unfold list_intersect_with_indices_from. rewrite Hrun.
  split; [reflexivity|].
  split; [symmetry; apply (Forall2_length HF)|].
  split; [apply (indices_nodup A eq_dec a l indices Hnd HF)|].
  intros k x Hk.
  assert (Hx : In x a) by (apply Hin; apply (nth_error_In l k Hk)).
  destruct (index_found A eq_dec a x Hx) as (i & Hi & Hn & Hfirst).
  exists i. split; [|split; assumption].
  clear - HF Hk Hi. revert k Hk.
  induction HF as [|y j items indices Hy HF IH]; intros k Hk.
  - destruct k; discriminate.
  - destruct k as [|k]; cbn [nth_error] in *.
    + injection Hk as ->. congruence.
    + apply IH. exact Hk.
Qed.

Lemma list_intersect_indices_witness :
  exists indices,
    list_intersect_with_indices_from Z Z.eq_dec [1%Z; 2%Z; 2%Z; 3%Z] [3%Z; 2%Z]
      = Ok ([3%Z; 2%Z], indices) /\
    length indices = length [3%Z; 2%Z] /\
    NoDup indices /\
    forall k x, nth_error [3%Z; 2%Z] k = Some x ->
      exists i, nth_error indices k = Some i /\
                nth_error [1%Z; 2%Z; 2%Z; 3%Z] i = Some x /\
                forall j, (j < i)%nat -> nth_error [1%Z; 2%Z; 2%Z; 3%Z] j <> Some x.
Proof.
  apply (list_intersect_indices Z Z.eq_dec [1%Z; 2%Z; 2%Z; 3%Z] [3%Z; 2%Z; 5%Z]).
  unfold list_intersect_returns. vm_compute. apply perm_swap.
Defined.

End ListProperties.
(** ** [isclose] *)

Module CloseFacts.

Import NumPy MtuqIntervals CorrelateFacts.

Lemma norm_squared_nonneg (a : arr) : 0 <= norm_squared a.
Proof.
  unfold norm_squared. induction a as [|x a IH]; cbn [map sum fold_right].
  - apply Qle_refl.
  - change (fold_right Qplus 0 (map (fun x => x * x) a)) with (sum (map (fun x => x * x) a)).
    nra.
Qed.

Lemma norm_squared_bounds (a : arr) (i : nat) :
  (i < length a)%nat -> nth i a 0 * nth i a 0 <= norm_squared a.
Proof.
  revert i; induction a as [|x a IH]; intros i Hi; [simpl in Hi; lia|].
  pose proof (norm_squared_nonneg a) as Hn.
  unfold norm_squared in *. cbn [map sum fold_right].
  change (fold_right Qplus 0 (map (fun x => x * x) a)) with (sum (map (fun x => x * x) a)).
  destruct i as [|i]; cbn [nth].
  - nra.
  - specialize (IH i ltac:(simpl in Hi; lia)). nra.
Qed.

Lemma norm_squared_Qeq (a b : arr) :
  Forall2 (fun u v => u * u == v * v) a b -> norm_squared a == norm_squared b.
Proof.
  unfold norm_squared. induction 1 as [|u v a b Huv HF IH]; cbn [map sum fold_right].
  - reflexivity.
  - change (fold_right Qplus 0 (map (fun x => x * x) a)) with (sum (map (fun x => x * x) a)).
    change (fold_right Qplus 0 (map (fun x => x * x) b)) with (sum (map (fun x => x * x) b)).
    rewrite Huv, IH. reflexivity.
Qed.

Lemma Forall2_map_both (A : Type) (f g : A -> Q) (R : Q -> Q -> Prop) (l : list A) :
  (forall x, R (f x) (g x)) -> Forall2 R (map f l) (map g l).
Proof. intros H. induction l; constructor; auto. Qed.

Lemma Forall2_combine_swap (f g : Q * Q -> Q) (R : Q -> Q -> Prop) (a b : arr) :
  (forall x y, R (f (x, y)) (g (y, x))) ->
  Forall2 R (map f (combine a b)) (map g (combine b a)).
Proof.
  intros H. revert b; induction a as [|x a IH]; intros [|y b]; cbn [combine map];
    constructor; auto.
Qed.

(** Exchanging the operands of a subtraction changes the signs only. *)
Lemma sub_exchanged (a b : arr) :
  match sub a b, sub b a with
  | Ok r, Ok r' => Forall2 (fun u v => u * u == v * v) r r'
  | Raise e, Raise e' => e = e'
  | _, _ => False
  end.
Proof.
  unfold sub. rewrite (Nat.eqb_sym (length b) (length a)).
  destruct (length a =? length b)%nat eqn:E.
  - apply Forall2_combine_swap. intros x y. cbn [fst snd]. ring.
  - apply Nat.eqb_neq in E.
    destruct a as [|x [|x' a]], b as [|y [|y' b]]; cbn [length] in E; try lia;
      try reflexivity; cbn [map];
      repeat (apply Forall2_cons; [ring|]);
      try apply Forall2_nil;
      apply (Forall2_map_both _ _ _ (fun u v => u * u == v * v)); intros; ring.
Qed.

Lemma EPSVAL_positive : 0 < EPSVAL.
Proof. reflexivity. Qed.

End CloseFacts.

Module CloseProperties.

Import NumPy MtuqIntervals CorrelateFacts SliceFacts CloseFacts.

(** X9. [isclose] is reflexive and symmetric: an array is close to
    itself, and [isclose(X, Y)] and [isclose(Y, X)] give the same answer
    or the same error. *)
Theorem isclose_reflexive_symmetric (X Y : arr) :
  isclose X X = Ok true /\ isclose X Y = isclose Y X.
Proof.
  split.
  - unfold isclose. rewrite sub_same_length by reflexivity. cbn [rbind].
    set (r := map _ _).
    assert (Hr : norm_squared r == 0).
    { unfold r, norm_squared. clear r.
      induction X as [|x X IH]; cbn [combine map sum fold_right]; [reflexivity|].
      change (fold_right Qplus 0 ?l) with (sum l).
      rewrite IH. cbn [fst snd]. ring. }
    destruct (Qlt_le_dec (norm_squared r) (EPSVAL * EPSVAL)) as [L|L]; [reflexivity|].
    rewrite Hr in L. exfalso. revert L. apply Qlt_not_le. reflexivity.
  - unfold isclose. pose proof (sub_exchanged X Y) as H.
    destruct (sub X Y) as [r|e], (sub Y X) as [r'|e']; try contradiction; cbn [rbind].
    + pose proof (norm_squared_Qeq r r' H) as Hn.
      destruct (Qlt_le_dec (norm_squared r) (EPSVAL * EPSVAL)) as [L|L],
               (Qlt_le_dec (norm_squared r') (EPSVAL * EPSVAL)) as [L'|L'];
        try reflexivity; exfalso; rewrite Hn in L; revert L'; 
        [apply Qlt_not_le|apply Qle_not_lt]; exact L.
    + congruence.
Qed.

(** X10. When [isclose(X, Y)] holds for two arrays of one length, every
    pair of components differs by less than [EPSVAL = 1.e-6]. *)
Theorem isclose_componentwise (X Y : arr) (i : nat) :
  length X = length Y ->
  isclose X Y = Ok true ->
  (i < length X)%nat ->
  Qabs (nth i X 0 - nth i Y 0) < EPSVAL.
Proof.
  intros Hl Hc Hi. unfold isclose in Hc.
  rewrite sub_same_length in Hc by exact Hl. cbn [rbind] in Hc.
  destruct (Qlt_le_dec _ _) as [L|L] in Hc; [|discriminate].
  set (r := map _ _) in L.
  assert (Hr : nth i r 0 = nth i X 0 - nth i Y 0).
  { unfold r. rewrite (combine_as_seq X Y Hl), map_map.
    apply (nth_map_seq (fun n => nth n X 0 - nth n Y 0)). exact Hi. }
  assert (Hlen : length r = length X).
  { unfold r. rewrite length_map, length_combine. lia. }
  pose proof (norm_squared_bounds r i ltac:(lia)) as Hb.
  rewrite Hr in Hb.
  set (u := nth i X 0 - nth i Y 0) in *.
  pose proof EPSVAL_positive as He.
  apply Qabs_Qlt_condition. split; nra.
Qed.

Lemma isclose_componentwise_witness :
  Qabs (nth 1 [1; 2] 0 - nth 1 [1; 2 + (1 # 10000000)] 0) < EPSVAL.
Proof.
  apply (isclose_componentwise [1; 2] [1; 2 + (1 # 10000000)] 1).
  - reflexivity.
  - vm_compute. reflexivity.
  - simpl. lia.
Defined.

End CloseProperties.

(** ** Keyword defaults *)

Module DefaultsFacts.

Import DoubleCouple.

Section Dict.

Variable V : Type.

Lemma get_setitem (d : dict V) (key : string) (v : V) (k : string) :
  lookup V (setitem V d key v) k = if String.eqb k key then Some v else lookup V d k.
Proof.
  induction d as [|[k' v'] d IH]; cbn [setitem lookup].
  - reflexivity.
  - destruct (String.eqb key k') eqn:E; cbn [lookup].
    + apply String.eqb_eq in E. subst k'. destruct (String.eqb k key); reflexivity.
    + rewrite IH. destruct (String.eqb k k') eqn:E1; [|reflexivity].
      apply String.eqb_eq in E1. subst k'.
      rewrite String.eqb_sym, E. reflexivity.
Qed.

Lemma setitem_new (d : dict V) (key : string) (v : V) :
  lookup V d key = None -> setitem V d key v = (d ++ [(key, v)])%list.
Proof.
  induction d as [|[k' v'] d IH]; intros H; cbn [setitem lookup app] in *.
  - reflexivity.
  - destruct (String.eqb key k'); [discriminate|]. rewrite IH by exact H. reflexivity.
Qed.

Lemma get_app (d e : dict V) (k : string) :
  lookup V (d ++ e)%list k = match lookup V d k with Some v => Some v | None => lookup V e k end.
Proof.
  induction d as [|[k' v'] d IH]; cbn [app lookup]; [reflexivity|].
  destruct (String.eqb k k'); [reflexivity|apply IH].
Qed.

Lemma get_in (d : dict V) (k : string) (v : V) :
  lookup V d k = Some v -> In k (map fst d).
Proof.
  induction d as [|[k' v'] d IH]; cbn [lookup map fst]; [discriminate|].
  destruct (String.eqb k k') eqn:E.
  - apply String.eqb_eq in E. left. congruence.
  - intros H. right. apply IH. exact H.
Qed.

Lemma get_not_in (d : dict V) (k : string) :
  lookup V d k = None -> ~ In k (map fst d).
Proof.
  induction d as [|[k' v'] d IH]; cbn [lookup map fst]; [tauto|].
  destruct (String.eqb k k') eqn:E; [discriminate|].
  apply String.eqb_neq in E. intros H [H1|H1]; [congruence|]. apply (IH H H1).
Qed.

(** One key of the loop. *)
Lemma default_one_get (defaults kwargs : dict V) (key k : string) :
  lookup V (default_one V defaults kwargs key) k =
  match lookup V kwargs k with
  | Some v => Some v
  | None => if String.eqb k key then lookup V defaults key else None
  end.
Proof.
  unfold default_one, has_key.
  destruct (lookup V kwargs key) as [w|] eqn:Ek.
  - destruct (lookup V kwargs k) as [v|] eqn:E; [reflexivity|].
    destruct (String.eqb k key) eqn:E1; [|reflexivity].
    apply String.eqb_eq in E1. congruence.
  - destruct (lookup V defaults key) as [v|] eqn:Ed.
    + rewrite get_setitem. destruct (String.eqb k key) eqn:E1.
      * apply String.eqb_eq in E1. subst k. rewrite Ek. reflexivity.
      * destruct (lookup V kwargs k); reflexivity.
    + destruct (lookup V kwargs k); [reflexivity|].
      destruct (String.eqb k key); reflexivity.
Qed.

Lemma defaults_loop_get (defaults kwargs : dict V) (keys : list string) (k : string) :
  lookup V (fold_left (default_one V defaults) keys kwargs) k =
  match lookup V kwargs k with
  | Some v => Some v
  | None => if in_dec string_dec k keys then lookup V defaults k else None
  end.
Proof.
  revert kwargs; induction keys as [|key keys IH]; intros kwargs; cbn [fold_left].
  - destruct (lookup V kwargs k); reflexivity.
  - rewrite IH, default_one_get.
    destruct (lookup V kwargs k) as [v|]; [reflexivity|].
    destruct (String.eqb k key) eqn:E.
    + apply String.eqb_eq in E. subst key.
      destruct (in_dec string_dec k (k :: keys)) as [I|I]; [|exfalso; apply I; left; reflexivity].
      destruct (lookup V defaults k); [reflexivity|].
      destruct (in_dec string_dec k keys); reflexivity.
    + apply String.eqb_neq in E.
      destruct (in_dec string_dec k keys) as [I|I],
               (in_dec string_dec k (key :: keys)) as [I'|I']; try reflexivity.
      * exfalso. apply I'. right. exact I.
      * exfalso. destruct I' as [I'|I']; [congruence|contradiction].
Qed.

(** One key either changes nothing or appends its default. *)
Lemma default_one_cases (defaults kwargs : dict V) (key : string) :
  default_one V defaults kwargs key = kwargs \/
  exists v, lookup V kwargs key = None /\ lookup V defaults key = Some v /\
            default_one V defaults kwargs key = (kwargs ++ [(key, v)])%list.
Proof.
  unfold default_one, has_key.
  destruct (lookup V kwargs key) as [w|] eqn:Ek; [left; reflexivity|].
  destruct (lookup V defaults key) as [v|] eqn:Ed; [|left; reflexivity].
  right. exists v. rewrite setitem_new by exact Ek. repeat split.
Qed.

(** The loop only appends. *)
Lemma defaults_loop_appends (defaults kwargs : dict V) (keys : list string) :
  exists added,
    fold_left (default_one V defaults) keys kwargs = (kwargs ++ added)%list /\
    forall k v, In (k, v) added -> lookup V kwargs k = None /\ lookup V defaults k = Some v.
Proof.
  revert kwargs; induction keys as [|key keys IH]; intros kwargs; cbn [fold_left].
  - exists []. rewrite app_nil_r. split; [reflexivity|]. intros k v [].
  - destruct (IH (default_one V defaults kwargs key)) as (added & Hrun & Hadd).
    destruct (default_one_cases defaults kwargs key) as [E|(v & Ek & Ed & E)];
      rewrite E in Hrun, Hadd; rewrite E.
    + exists added. split; assumption.
    + exists ((key, v) :: added). rewrite Hrun, <- app_assoc.
      split; [reflexivity|].
      intros k v0 [E0|Hin].
      * injection E0 as <- <-. split; assumption.
      * destruct (Hadd k v0 Hin) as [H1 H2]. split; [|exact H2].
        rewrite get_app in H1. destruct (lookup V kwargs k); [discriminate|reflexivity].
Qed.

(** The value of a key after the loop over all keys of [defaults]. *)
Lemma defaults_get (kwargs defaults : dict V) (key : string) :
  lookup V (_defaults V kwargs defaults) key =
  match lookup V kwargs key with
  | Some v => Some v
  | None => lookup V defaults key
  end.
Proof.
  unfold _defaults. rewrite defaults_loop_get.
  destruct (lookup V kwargs key); [reflexivity|].
  destruct (in_dec string_dec key (map fst defaults)) as [I|I]; [reflexivity|].
  destruct (lookup V defaults key) as [v|] eqn:E; [|reflexivity].
  exfalso. apply I. apply (get_in defaults key v E).
Qed.

End Dict.

End DefaultsFacts.

Module DefaultsProperties.

Import DoubleCouple DefaultsFacts.

(** X11. After [_defaults(kwargs, defaults)] a key that the caller gave
    keeps the caller's value, a key that only [defaults] has gets the
    default, and no other key appears. *)
Theorem defaults_lookup (V : Type) (kwargs defaults : dict V) (key : string) :
  lookup V (_defaults V kwargs defaults) key =
  match lookup V kwargs key with
  | Some v => Some v
  | None => lookup V defaults key
  end.
Proof. apply defaults_get. Qed.

(** X12. [_defaults] leaves the entries of [kwargs] where they are, adds
    the missing defaults after them, and a second call with the same
    defaults changes nothing. *)
Theorem defaults_appends_once (V : Type) (kwargs defaults : dict V) :
  (exists added,
     _defaults V kwargs defaults = (kwargs ++ added)%list /\
     forall k v, In (k, v) added -> lookup V kwargs k = None /\ lookup V defaults k = Some v) /\
  _defaults V (_defaults V kwargs defaults) defaults = _defaults V kwargs defaults.
Proof.
  split; [apply defaults_loop_appends|].
  set (d := _defaults V kwargs defaults).
  assert (Hall : forall k, In k (map fst defaults) -> has_key V d k = true).
  { intros k Hk. unfold has_key, d. rewrite defaults_get.
    destruct (lookup V kwargs k); [reflexivity|].
    destruct (lookup V defaults k) eqn:E; [reflexivity|].
    exfalso. apply (get_not_in V defaults k E Hk). }
  unfold _defaults at 1.
  generalize dependent (map fst defaults). intros keys Hall.
  induction keys as [|k keys IH]; cbn [fold_left]; [reflexivity|].
  unfold default_one at 2. rewrite Hall by (left; reflexivity).
  apply IH. intros k' Hk'. apply Hall. right. exact Hk'.
Qed.

End DefaultsProperties.
(** ** [correlate] outside the padded case *)

Module CorrelateEdgeFacts.

Import NumPy SciPy MtuqMath CorrelateFacts.

Lemma sum_app (a b : arr) : sum (a ++ b) == sum a + sum b.
Proof.
  unfold sum. induction a as [|x a IH]; cbn [app fold_right].
  - ring.
  - rewrite IH. ring.
Qed.

Lemma sum_zero (A : Type) (f : A -> Q) (l : list A) :
  (forall i, In i l -> f i == 0) -> sum (map f l) == 0.
Proof.
  intros H. induction l as [|i l IH]; cbn [map sum fold_right].
  - reflexivity.
  - change (fold_right Qplus 0 (map f l)) with (sum (map f l)).
    rewrite (H i) by (left; reflexivity).
    rewrite IH by (intros; apply H; right; assumption). ring.
Qed.

Lemma seq_from (j n : nat) : seq j n = map (fun k => (k + j)%nat) (seq 0 n).
Proof.
  revert j; induction n as [|n IH]; intros j; cbn [seq map]; [reflexivity|].
  f_equal. rewrite (IH (S j)), <- seq_shift, map_map.
  apply map_ext. intros k. lia.
Qed.

Lemma centered_start_long (n1 n2 : nat) :
  (0 < n2 <= n1)%nat ->
  ((n1 + n2 - 1 - (Nat.max n1 n2 - Nat.min n1 n2 + 1)) / 2 = n2 - 1)%nat.
Proof.
  intros H. rewrite Nat.max_l, Nat.min_r by lia.
  replace (n1 + n2 - 1 - (n1 - n2 + 1))%nat with ((n2 - 1) * 2)%nat by lia.
  apply Nat.div_mul. lia.
Qed.

Lemma fftconvolve_valid_long (v1 v2 : arr) :
  (0 < length v2 <= length v1)%nat ->
  fftconvolve_valid v1 (reversed v2) =
  firstn (length v1 - length v2 + 1)
         (skipn (length v2 - 1) (convolve_full v1 (rev v2))).
Proof.
  intros H. unfold fftconvolve_valid, reversed, centered.
  rewrite length_rev.
  destruct (length v1 =? 0)%nat eqn:E1; [apply Nat.eqb_eq in E1; lia|].
  destruct (length v2 =? 0)%nat eqn:E2; [apply Nat.eqb_eq in E2; lia|].
  cbn [orb]. rewrite convolve_full_length, length_rev.
  rewrite centered_start_long by assumption.
  rewrite Nat.max_l, Nat.min_r by lia. reflexivity.
Qed.

(** With the longer array first, entry [j] of the frequency-domain result
    pairs [v2] with the samples of [v1] from offset [j] on. *)
Lemma fftconvolve_valid_long_nth (v1 v2 : arr) (j : nat) :
  (0 < length v2 <= length v1)%nat ->
  (j <= length v1 - length v2)%nat ->
  nth j (fftconvolve_valid v1 (reversed v2)) 0 == dot_at v1 v2 j.
Proof.
  intros H Hj.
  rewrite fftconvolve_valid_long by assumption.
  rewrite nth_firstn_Q by lia. rewrite nth_skipn_Q.
  unfold convolve_full. rewrite length_rev.
  rewrite nth_map_seq by lia.
  set (m := (length v2 - 1 + j)%nat).
  replace (length v1) with (j + (length v2 + (length v1 - j - length v2)))%nat at 1 by lia.
  rewrite !seq_app, !map_app, !sum_app. cbn [Nat.add].
  rewrite (sum_zero _ _ (seq 0 j)).
  2:{ intros i Hi. apply in_seq in Hi. unfold conv_term. rewrite length_rev.
      replace (m - i <? length v2)%nat with false
        by (symmetry; apply Nat.ltb_ge; unfold m; lia).
      rewrite andb_false_r. reflexivity. }
  rewrite (sum_zero _ _ (seq (j + length v2) _)).
  2:{ intros i Hi. apply in_seq in Hi. unfold conv_term.
      replace (i <=? m)%nat with false
        by (symmetry; apply Nat.leb_gt; unfold m; lia).
      reflexivity. }
  rewrite Qplus_0_l, Qplus_0_r.
  rewrite (seq_from j (length v2)), map_map.
  unfold dot_at. apply sum_ext. intros n Hn. apply in_seq in Hn.
  unfold conv_term. rewrite length_rev.
  replace (n + j <=? m)%nat with true by (symmetry; apply Nat.leb_le; unfold m; lia).
  replace (m - (n + j) <? length v2)%nat with true
    by (symmetry; apply Nat.ltb_lt; unfold m; lia).
  cbn [andb]. rewrite rev_nth by (unfold m; lia).
  replace (length v2 - S (m - (n + j)))%nat with n by (unfold m; lia).
  reflexivity.
Qed.

Lemma dot_at_window (v1 v2 : arr) (j : nat) :
  (j + length v2 <= length v1)%nat ->
  dot_at v1 v2 j == inner v2 (window v1 j (length v2)).
Proof.
  intros H. rewrite inner_window by lia. unfold dot_at.
  apply sum_ext. intros n Hn.
  replace (j + n)%nat with (n + j)%nat by lia. apply Qmult_comm.
Qed.

End CorrelateEdgeFacts.

Module CorrelateEdges.

Import NumPy SciPy MtuqMath CorrelateFacts CorrelateEdgeFacts.

(** X13. When the first array of [correlate] is the longer one, both
    algorithms return the same [n1 - n2 + 1] values, and the order is not
    reversed: entry [o] is the inner product of [v2] with the window of
    [v1] at offset [o]. *)
Theorem correlate_longer_first (v1 v2 : arr) :
  (0 < length v2 < length v1)%nat ->
  exists r rf rt,
    correlate v1 v2 = Ok r /\
    length r = (length v1 - length v2 + 1)%nat /\
    (forall o, (o <= length v1 - length v2)%nat ->
       nth o r 0 == inner v2 (window v1 o (length v2))) /\
    correlate_frequency v1 v2 = Ok rf /\
    correlate_time v1 v2 = Ok rt /\
    Forall2 Qeq rf rt.
Proof.
  intros H.
  assert (Ht : correlate_valid v1 v2 =
               Ok (map (dot_at v1 v2) (seq 0 (length v1 - length v2 + 1)))).
  { unfold correlate_valid.
    destruct (length v1 =? 0)%nat eqn:E1; [apply Nat.eqb_eq in E1; lia|].
    destruct (length v2 =? 0)%nat eqn:E2; [apply Nat.eqb_eq in E2; lia|].
    cbn [orb].
    destruct (length v1 <? length v2)%nat eqn:E; [apply Nat.ltb_lt in E; lia|].
    reflexivity. }
  assert (Hlf : length (fftconvolve_valid v1 (reversed v2))
                = (length v1 - length v2 + 1)%nat).
  { rewrite fftconvolve_valid_long by lia.
    rewrite length_firstn, length_skipn, convolve_full_length, length_rev. lia. }
  assert (Hlt : length (map (dot_at v1 v2) (seq 0 (length v1 - length v2 + 1)))
                = (length v1 - length v2 + 1)%nat).
  { rewrite length_map, length_seq. reflexivity. }
  assert (Hnt : forall o, (o <= length v1 - length v2)%nat ->
            nth o (map (dot_at v1 v2) (seq 0 (length v1 - length v2 + 1))) 0
            = dot_at v1 v2 o).
  { intros o Ho. apply nth_map_seq. lia. }
  exists (match correlate_algorithm (length v1) (length v2) with
          | FrequencyDomain => fftconvolve_valid v1 (reversed v2)
          | TimeDomain => map (dot_at v1 v2) (seq 0 (length v1 - length v2 + 1))
          end),
         (fftconvolve_valid v1 (reversed v2)),
         (map (dot_at v1 v2) (seq 0 (length v1 - length v2 + 1))).
  split.
  { unfold correlate, correlate_frequency, correlate_time. rewrite Ht.
    destruct (correlate_algorithm _ _); reflexivity. }
  split; [destruct (correlate_algorithm _ _); assumption|].
  split.
  { intros o Ho. rewrite <- dot_at_window by lia.
    destruct (correlate_algorithm _ _).
    - apply fftconvolve_valid_long_nth; lia.
    - rewrite Hnt by exact Ho. reflexivity. }
  split; [reflexivity|]. split; [exact Ht|].
  apply pointwise_Qeq; [congruence|].
  intros j Hj. rewrite Hlf in Hj.
  rewrite fftconvolve_valid_long_nth by lia. rewrite Hnt by lia. reflexivity.
Qed.

Lemma correlate_longer_first_witness :
  exists r rf rt,
    correlate [3; 0; 1; 5] [1; 2] = Ok r /\
    length r = (length [3; 0; 1; 5] - length [1; 2] + 1)%nat /\
    (forall o, (o <= length [3; 0; 1; 5] - length [1; 2])%nat ->
       nth o r 0 == inner [1; 2] (window [3; 0; 1; 5] o (length [1; 2]))) /\
    correlate_frequency [3; 0; 1; 5] [1; 2] = Ok rf /\
    correlate_time [3; 0; 1; 5] [1; 2] = Ok rt /\
    Forall2 Qeq rf rt.
Proof. apply (correlate_longer_first [3; 0; 1; 5] [1; 2]). simpl. lia. Defined.

(** X14. [correlate] with an empty array: the frequency-domain path
    returns an empty array and the time-domain path raises [ValueError],
    so an empty [v1] gives an empty result against more than 200 samples
    and an error against fewer. *)
Theorem correlate_empty (v1 v2 : arr) :
  length v1 = O \/ length v2 = O ->
  correlate v1 v2 =
    match correlate_algorithm (length v1) (length v2) with
    | FrequencyDomain => Ok []
    | TimeDomain => Raise ValueError
    end /\
  (length v1 = O ->
     correlate v1 v2 = if (200 <? length v2)%nat then Ok [] else Raise ValueError).
Proof.
  intros H.
  assert (Hf : fftconvolve_valid v1 (reversed v2) = []).
  { unfold fftconvolve_valid, reversed. rewrite length_rev.
    destruct H as [H|H]; rewrite H; [reflexivity|].
    rewrite orb_true_r. reflexivity. }
  assert (Ht : correlate_valid v1 v2 = Raise ValueError).
  { unfold correlate_valid.
    destruct H as [H|H]; rewrite H; [reflexivity|].
    rewrite orb_true_r. reflexivity. }
  assert (Hc : correlate v1 v2 =
               match correlate_algorithm (length v1) (length v2) with
               | FrequencyDomain => Ok []
               | TimeDomain => Raise ValueError
               end).
  { unfold correlate, correlate_frequency, correlate_time. rewrite Hf, Ht. reflexivity. }
  split; [exact Hc|].
  intros H1. rewrite Hc, H1. unfold correlate_algorithm.
  cbn [Z.of_nat Z.ltb Z.compare orb]. rewrite Z.sub_0_r.
  destruct (200 <? length v2)%nat eqn:E.
  - apply Nat.ltb_lt in E.
    replace (200 <? Z.of_nat (length v2))%Z with true
      by (symmetry; apply Z.ltb_lt; lia).
    reflexivity.
  - apply Nat.ltb_ge in E.
    replace (200 <? Z.of_nat (length v2))%Z with false
      by (symmetry; apply Z.ltb_ge; lia).
    reflexivity.
Qed.

Lemma correlate_empty_witness :
  correlate [] [1; 2] =
    match correlate_algorithm (length (@nil Q)) (length [1; 2]) with
    | FrequencyDomain => Ok []
    | TimeDomain => Raise ValueError
    end /\
  (length (@nil Q) = O ->
     correlate [] [1; 2] = if (200 <? length [1; 2])%nat then Ok [] else Raise ValueError).
Proof. apply (correlate_empty [] [1; 2]). left. reflexivity. Defined.

End CorrelateEdges.
(** ** The constructor and the inputs of a call *)

Module ConfigurationFacts.

Import NumPy Cap Frames CapFacts SearchFacts AlignFacts StationFacts.

Lemma is_component_iff (c : ascii) :
  is_component c = true <-> c = "Z"%char \/ c = "R"%char \/ c = "T"%char.
Proof.
  unfold is_component. cbn [contains]. rewrite !orb_true_iff, !Ascii.eqb_eq.
  split; [intros [H|[H|[H|H]]]; auto; discriminate|tauto].
Qed.

Lemma all_components_iff (group : string) :
  all_components group = true <->
  forall c, contains group c = true -> is_component c = true.
Proof.
  induction group as [|c' group IH]; cbn [all_components contains].
  - split; [intros _ c H; discriminate|reflexivity].
  - rewrite andb_true_iff, IH. split.
    + intros [H1 H2] c Hc. apply orb_true_iff in Hc. destruct Hc as [Hc|Hc].
      * apply Ascii.eqb_eq in Hc. subst c. exact H1.
      * apply H2. exact Hc.
    + intros H. split.
      * apply H. rewrite Ascii.eqb_refl. reflexivity.
      * intros c Hc. apply H. rewrite Hc. apply orb_true_r.
Qed.

(** A group that is not accepted holds a character other than Z, R, T. *)
Lemma all_components_false (group : string) :
  all_components group = false ->
  exists c, contains group c = true /\ is_component c = false.
Proof.
  induction group as [|c' group IH]; cbn [all_components contains]; [discriminate|].
  destruct (is_component c') eqn:E; cbn [andb].
  - intros H. destruct (IH H) as (c & Hc & Hn). exists c. rewrite Hc.
    split; [apply orb_true_r|exact Hn].
  - intros _. exists c'. rewrite Ascii.eqb_refl. split; [reflexivity|exact E].
Qed.

(** What the constructor has checked when it returns. *)
Lemma init_accepted (norm_order polarity_weight : Q) (groups : list string)
    (tsm : Q) (self : Misfit) :
  init norm_order polarity_weight groups tsm = Ok self ->
  self = mkMisfit norm_order tsm groups polarity_weight /\
  forall group c, In group groups -> contains group c = true ->
    c = "Z"%char \/ c = "R"%char \/ c = "T"%char.
Proof.
  unfold init. destruct (forallb all_components groups) eqn:E; [|discriminate].
  intros H. injection H as <-. split; [reflexivity|].
  intros group c Hin Hc. apply is_component_iff.
  rewrite forallb_forall in E.
  apply (proj1 (all_components_iff group) (E group Hin) c Hc).
Qed.

Lemma py_round_zero (x : Q) : x == 0 -> py_round x = 0%Z.
Proof.
  intros H. unfold py_round.
  assert (Hf : Qfloor x = 0%Z) by (rewrite H; reflexivity).
  rewrite Hf.
  assert (Hc : Qcompare (x - inject_Z 0) (1 # 2) = Lt).
  { rewrite H. reflexivity. }
  rewrite Hc. reflexivity.
Qed.

End ConfigurationFacts.

Module Configuration.

Import NumPy Cap Frames CapFacts SearchFacts AlignFacts StationFacts.
Import ArgmaxFacts FieldClaims ConfigurationFacts Examples.

(** X15. The constructor accepts the groups exactly when every character
    of every group is one of the upper-case letters Z, R, T, and then
    stores its four arguments as they are; otherwise it fails with an
    [AssertionError]. *)
Theorem init_checks_groups (norm_order polarity_weight : Q)
    (time_shift_groups : list string) (time_shift_max : Q) :
  (init norm_order polarity_weight time_shift_groups time_shift_max
     = Ok (mkMisfit norm_order time_shift_max time_shift_groups polarity_weight) /\
   forall group c, In group time_shift_groups -> contains group c = true ->
     c = "Z"%char \/ c = "R"%char \/ c = "T"%char)
  \/
  (init norm_order polarity_weight time_shift_groups time_shift_max
     = Raise AssertionError /\
   exists group c, In group time_shift_groups /\ contains group c = true /\
     c <> "Z"%char /\ c <> "R"%char /\ c <> "T"%char).
Proof.
  unfold init.
  destruct (forallb all_components time_shift_groups) eqn:E.
  - left. split; [reflexivity|].
    intros group c Hin Hc. apply is_component_iff.
    rewrite forallb_forall in E.
    apply (proj1 (all_components_iff group) (E group Hin) c Hc).
  - right. split; [reflexivity|].
    assert (H : exists group, In group time_shift_groups /\ all_components group = false).
    { clear -E. induction time_shift_groups as [|g gs IH]; cbn [forallb] in E; [discriminate|].
      destruct (all_components g) eqn:Eg; cbn [andb] in E.
      - destruct (IH E) as (g' & Hin & Hf). exists g'. split; [right; exact Hin|exact Hf].
      - exists g. split; [left; reflexivity|exact Eg]. }
    destruct H as (group & Hin & Hf).
    destruct (all_components_false group Hf) as (c & Hc & Hn).
    exists group, c. split; [exact Hin|]. split; [exact Hc|].
    repeat split; intros ->; discriminate.
Qed.

(** X16. With a configuration that the constructor accepted, a record
    whose component (the upper-cased last letter of its channel) is none
    of Z, R, T is selected by no group: the call leaves its observed
    record as it is, and its synthetic record without alignment fields
    of this call. *)
Theorem other_components_untouched (power : Q -> Q -> Q)
    (norm_order polarity_weight : Q) (groups : list string) (tsm : Q) (self : Misfit)
    (observations synthetics : list Dataset) (k : nat) (d s : Dataset)
    (i : nat) (di : Trace) (c : ascii) :
  init norm_order polarity_weight groups tsm = Ok self ->
  nth_error observations k = Some d ->
  nth_error synthetics k = Some s ->
  nth_error (traces d) i = Some di ->
  component di = Ok c ->
  c <> "Z"%char -> c <> "R"%char -> c <> "T"%char ->
  (forall group, In group (time_shift_groups self) ->
     selected (traces d) group i = false) /\
  exists d' s',
    nth_error (stations_after (call power self observations synthetics)) k
      = Some (d', s') /\
    nth_error (traces d') i = Some di /\
    forall si, nth_error (traces s) i = Some si ->
      exists si', nth_error (traces s') i = Some si' /\
                  same_or_padded si si' /\ same_alignment si si'.
Proof.
  intros Hinit Hd Hs Hi Hc HZ HR HT.
  assert (Hsel : forall group, In group (time_shift_groups self) ->
                   selected (traces d) group i = false).
  { intros group Hin. unfold selected. rewrite Hi, Hc.
    destruct (contains group c) eqn:E; [|apply andb_false_r].
    exfalso.
    destruct (init_accepted _ _ _ _ _ Hinit) as (-> & Hall).
    cbn [time_shift_groups] in Hin.
    destruct (Hall group c Hin E) as [?|[?|?]]; contradiction. }
  split; [exact Hsel|].
  destruct (call_stations power self observations synthetics) as (Hv & _).
  pose proof (nth_error_combine _ _ _ _ _ _ _ Hd Hs) as Hk.
  destruct (Forall2_nth_error _ _ _ _ _ _ _ Hv Hk) as ([d' s'] & Hk' & Hrel).
  exists d', s'. split; [exact Hk'|].
  destruct Hrel as [Heq|(total & w0 & Heq)].
  - inversion Heq; subst. split; [exact Hi|]. intros si Hsi.
    exists si. split; [exact Hsi|]. split; [left; reflexivity|repeat split].
  - cbn [fst snd] in Heq. inversion Heq; subst d' s'. clear Heq.
    pose proof (station_untouched power self (mkFrame d s total w0) i) as Hu.
    cbn zeta in Hu. cbn [obs syn] in Hu.
    destruct Hu as (Hod & Hos); [exact Hsel|].
    split; [rewrite Hod; exact Hi|]. intros si Hsi.
    destruct (nth_error (traces (syn (fst (station power self (mkFrame d s total w0))))) i)
      as [si'|].
    + destruct Hos as (t & Ht & Hpad). rewrite Hsi in Ht. inversion Ht; subst t.
      exists si'. split; [reflexivity|]. split; [exact Hpad|].
      apply same_or_padded_alignment. exact Hpad.
    + congruence.
Qed.

Lemma other_components_untouched_witness :
  (forall group, In group (time_shift_groups no_shift) ->
     selected (traces observed_zn) group 1 = false) /\
  exists d' s',
    nth_error (stations_after (call power_order1 no_shift [observed_zn] [synthetic_zn])) 0
      = Some (d', s') /\
    nth_error (traces d') 1 = Some (record [3; 5] "BHN" (Some 1)) /\
    forall si, nth_error (traces synthetic_zn) 1 = Some si ->
      exists si', nth_error (traces s') 1 = Some si' /\
                  same_or_padded si si' /\ same_alignment si si'.
Proof.
  apply (other_components_untouched power_order1 1 0 ["ZRT"%string] 0 no_shift
           [observed_zn] [synthetic_zn] 0 observed_zn synthetic_zn 1
           (record [3; 5] "BHN" (Some 1)) "N"%char);
    try reflexivity; discriminate.
Defined.

End Configuration.
(** ** What a call does to its inputs *)

Module InputFacts.

Import NumPy Cap Frames Oblivious CapFacts SearchFacts AlignFacts StationFacts.
Import ArgmaxFacts.

Lemma padded_core_refl (t : Trace) : padded_core t t.
Proof.
  repeat split. exists O. cbn [repeat app]. rewrite app_nil_r. reflexivity.
Qed.

Lemma padded_core_list_refl (l : list Trace) : Forall2 padded_core l l.
Proof. induction l; constructor; [apply padded_core_refl|assumption]. Qed.

Lemma padded_core_map (n : nat) (l : list Trace) :
  Forall2 padded_core l
    (map (fun t => set_data t (repeat 0 n ++ data t ++ repeat 0 n)%list) l).
Proof.
  induction l as [|t l IH]; cbn [map]; constructor; [|exact IH].
  repeat split. exists n. reflexivity.
Qed.

Lemma padded_core_then_core (l l1 l2 : list Trace) :
  Forall2 padded_core l l1 -> Forall2 same_core l1 l2 -> Forall2 padded_core l l2.
Proof.
  intros H. revert l2. induction H as [|t t1 l l1 Ht H IH]; intros l2 H2.
  - inversion H2. constructor.
  - inversion H2 as [|? t2 ? l2' Hc H2']; subst. constructor; [|apply IH; exact H2'].
    destruct Ht as (A & B & n & C). destruct Hc as (A' & B' & C').
    repeat split; try congruence. exists n. congruence.
Qed.

Section WithPower.

Variable power : Q -> Q -> Q.

(** The frame after [station], in terms of the frame after part 1. *)
Lemma station_frames (self : Misfit) (f : Frame) :
  let f' := fst (station power self f) in
  match prepare self f with
  | (f1, Ok g) =>
      let f2 := fst (select_mode (fst (fst g)) (snd g) f1) in
      f' = fst (for_each (time_shift_groups self)
                  (shift_group power self (fst (fst g)) (snd (fst g)) (snd g)) f2) /\
      traces (obs f2) = traces (obs f) /\ syn f2 = syn f1 /\
      warnings f2 = warnings f1 /\ sum_misfit f2 = sum_misfit f1
  | (f1, Raise _) => f' = f1
  end.
Proof.
  cbn zeta. rewrite station_run, waveforms_run.
  pose proof (prepare_effect self f) as Hp. cbn zeta in Hp.
  destruct (prepare self f) as [f1 [g|e]]; cbn [fst snd] in *; [|reflexivity].
  destruct Hp as (Ho & _).
  rewrite select_mode_run. cbn [fst].
  split.
  - destruct (for_each _ _ _) as [f3 [[]|e]]; [destruct (Qlt_le_dec _ _)|]; reflexivity.
  - destruct (time_shift_mode (obs f1)); cbn [obs syn warnings sum_misfit traces set_time_shift_mode];
      rewrite <- Ho; repeat split.
Qed.

Lemma station_inputs (self : Misfit) (f : Frame) :
  let f' := fst (station power self f) in
  Forall2 same_core (traces (obs f)) (traces (obs f')) /\
  Forall2 padded_core (traces (syn f)) (traces (syn f')) /\
  (warnings f' = warnings f \/ warnings f' = (warnings f ++ [padding_warning])%list).
Proof.
  cbn zeta. pose proof (station_frames self f) as Hs. cbn zeta in Hs.
  rewrite prepare_run in Hs.
  destruct (nth_error (traces (obs f)) 0) as [d0|].
  2:{ rewrite Hs. split; [apply same_core_list_refl|].
      split; [apply padded_core_list_refl|left; reflexivity]. }
  destruct (nth_error (traces (syn f)) 0) as [s0|].
  2:{ rewrite Hs. split; [apply same_core_list_refl|].
      split; [apply padded_core_list_refl|left; reflexivity]. }
  cbn zeta in Hs.
  destruct (Qeq_bool (delta (stats d0)) 0).
  { rewrite Hs. split; [apply same_core_list_refl|].
    split; [apply padded_core_list_refl|left; reflexivity]. }
  set (pad := py_round (time_shift_max self / delta (stats d0))) in *.
  assert (Hgroups : forall f1 g f2,
            f2 = fst (select_mode (fst (fst g)) (snd g) f1) ->
            fst (station power self f)
              = fst (for_each (time_shift_groups self)
                       (shift_group power self (fst (fst g)) (snd (fst g)) (snd g)) f2) ->
            traces (obs f2) = traces (obs f) -> syn f2 = syn f1 ->
            warnings f2 = warnings f1 ->
            Forall2 padded_core (traces (syn f)) (traces (syn f1)) ->
            Forall2 same_core (traces (obs f)) (traces (obs (fst (station power self f)))) /\
            Forall2 padded_core (traces (syn f)) (traces (syn (fst (station power self f)))) /\
            warnings (fst (station power self f)) = warnings f1).
  { intros f1 g f2 Hf2 Hrun Ho Hsy Hw Hpad.
    pose proof (groups_loop power self (fst (fst g)) (snd (fst g)) (snd g)
                  (time_shift_groups self) f2) as Hg.
    cbn zeta in Hg. destruct Hg as ((_ & Hw' & Hco & Hcs) & _).
    rewrite <- Hrun in Hw', Hco, Hcs. rewrite Ho in Hco. rewrite Hsy in Hcs.
    split; [exact Hco|]. split; [|congruence].
    apply (padded_core_then_core _ _ _ Hpad Hcs). }
  destruct (_ =? 2 * pad)%Z.
  { destruct Hs as (Hrun & Ho & Hsy & Hw & _).
    destruct (Hgroups f _ _ eq_refl Hrun Ho Hsy Hw (padded_core_list_refl _))
      as (A & B & C).
    split; [exact A|]. split; [exact B|left; exact C]. }
  destruct (_ =? _)%Z.
  2:{ rewrite Hs. split; [apply same_core_list_refl|].
      split; [apply padded_core_list_refl|left; reflexivity]. }
  rewrite pad_traces_run in Hs.
  destruct (pad <? 0)%Z.
  - destruct (traces (syn f)) as [|t ts] eqn:Et.
    + destruct Hs as (Hrun & Ho & Hsy & Hw & _).
      match type of Hrun with _ = fst (for_each _ _ (fst (select_mode _ _ ?x))) =>
        destruct (Hgroups x _ _ eq_refl Hrun Ho Hsy Hw) as (A & B & C) end.
      { cbn [syn set_traces traces]. constructor. }
      split; [exact A|]. split; [exact B|right; exact C].
    + rewrite Hs. cbn [obs syn warnings]. rewrite Et.
      split; [apply same_core_list_refl|].
      split; [apply padded_core_list_refl|right; reflexivity].
  - destruct Hs as (Hrun & Ho & Hsy & Hw & _).
    match type of Hrun with _ = fst (for_each _ _ (fst (select_mode _ _ ?x))) =>
      destruct (Hgroups x _ _ eq_refl Hrun Ho Hsy Hw) as (A & B & C) end.
    { cbn [syn set_traces traces]. apply padded_core_map. }
    split; [exact A|]. split; [exact B|right; exact C].
Qed.

Lemma station_loop_inputs (self : Misfit) (pairs : list (Dataset * Dataset)) :
  forall total w,
    let o := station_loop power self pairs total w in
    Forall2 (fun ds ds' =>
               Forall2 same_core (traces (fst ds)) (traces (fst ds')) /\
               Forall2 padded_core (traces (snd ds)) (traces (snd ds')))
            pairs (stations_after o) /\
    exists extra,
      warned o = (w ++ extra)%list /\
      Forall (eq padding_warning) extra /\
      (length extra <= length pairs)%nat.
Proof.
  assert (Hrefl : forall l : list (Dataset * Dataset),
            Forall2 (fun ds ds' =>
               Forall2 same_core (traces (fst ds)) (traces (fst ds')) /\
               Forall2 padded_core (traces (snd ds)) (traces (snd ds'))) l l).
  { induction l; constructor; [|assumption].
    split; [apply same_core_list_refl|apply padded_core_list_refl]. }
  induction pairs as [|[d s] rest IH]; intros total w; cbn zeta.
  - cbn [station_loop stations_after warned]. split; [constructor|].
    exists []. rewrite app_nil_r. split; [reflexivity|]. split; [constructor|].
    cbn [length]. lia.
  - cbn [station_loop].
    pose proof (station_inputs self (mkFrame d s total w)) as Hs.
    cbn zeta in Hs. cbn [obs syn warnings] in Hs.
    destruct (station power self (mkFrame d s total w)) as [f [u|e]];
      cbn [fst] in Hs; destruct Hs as (A & B & C).
    + specialize (IH (sum_misfit f) (warnings f)). cbn zeta in IH.
      destruct IH as (IH1 & extra & E1 & E2 & E3).
      cbn [stations_after warned]. split.
      * constructor; [split; assumption|exact IH1].
      * rewrite E1. destruct C as [C|C]; rewrite C.
        -- exists extra. split; [reflexivity|]. split; [exact E2|]. cbn [length]. lia.
        -- exists (padding_warning :: extra). rewrite <- app_assoc.
           split; [reflexivity|]. split; [constructor; [reflexivity|exact E2]|].
           cbn [length]. lia.
    + cbn [stations_after warned]. split.
      * constructor; [split; assumption|apply Hrefl].
      * destruct C as [C|C]; rewrite C.
        -- exists []. rewrite app_nil_r. split; [reflexivity|]. split; [constructor|].
           cbn [length]. lia.
        -- exists [padding_warning]. split; [reflexivity|].
           split; [constructor; [reflexivity|constructor]|]. cbn [length]. lia.
Qed.

End WithPower.

End InputFacts.

Module InputProperties.

Import NumPy Cap Frames Oblivious CapFacts SearchFacts AlignFacts StationFacts.
Import ArgmaxFacts InputFacts ConfigurationFacts Examples.

(** X17. With [time_shift_max] zero — the default — every record that a
    completed call aligns gets the time shift 0 and the whole of its
    synthetic record: [start] is 0 and [stop] the sample count of the
    data. *)
Theorem no_shift_without_time_shift_max (power : Q -> Q -> Q) (self : Misfit)
    (observations synthetics : list Dataset) (k : nat) (d s : Dataset)
    (d0 : Trace) (v : Q) :
  time_shift_max self == 0 ->
  returned (call power self observations synthetics) = Ok v ->
  nth_error observations k = Some d ->
  nth_error synthetics k = Some s ->
  nth_error (traces d) 0 = Some d0 ->
  exists d' s',
    nth_error (stations_after (call power self observations synthetics)) k
      = Some (d', s') /\
    forall i g, last_group (traces d) (time_shift_groups self) i = Some g ->
      exists si' ts,
        nth_error (traces s') i = Some si' /\
        time_shift si' = Some ts /\ ts == 0 /\
        time_shift_group si' = Some g /\
        start si' = Some 0%Z /\
        stop si' = Some (Z.of_nat (length (data d0))).
Proof.
  intros Hz Hret Hd Hs Hd0.
  destruct (call_stations power self observations synthetics) as (_ & Hc).
  specialize (Hc v Hret).
  pose proof (nth_error_combine _ _ _ _ _ _ _ Hd Hs) as Hk.
  destruct (Forall2_nth_error _ _ _ _ _ _ _ Hc Hk)
    as ([d' s'] & Hk' & total & w & f' & Hrun & Heq).
  cbn [fst snd] in Hrun. inversion Heq; subst d' s'. clear Heq.
  exists (obs f'), (syn f'). split; [exact Hk'|].
  pose proof (station_frames power self (mkFrame d s total w)) as Hf.
  cbn zeta in Hf. rewrite Hrun in Hf. cbn [fst] in Hf.
  pose proof (prepare_effect self (mkFrame d s total w)) as Hp. cbn zeta in Hp.
  rewrite station_run, waveforms_run in Hrun.
  destruct (prepare self (mkFrame d s total w)) as [f1 [g|e]]; [|discriminate].
  cbn [fst snd obs syn] in Hp.
  destruct Hp as (_ & _ & _ & d0' & s0 & Hd0' & _ & _ & Hg & _).
  rewrite Hd0 in Hd0'. injection Hd0' as <-.
  assert (Hpad : snd g = 0%Z).
  { rewrite Hg. cbn [snd]. apply py_round_zero. rewrite Hz. unfold Qdiv. ring. }
  assert (Hnpts : fst (fst g) = Z.of_nat (length (data d0))) by (rewrite Hg; reflexivity).
  destruct Hf as (Hf' & Ho & _).
  pose proof (groups_loop power self (fst (fst g)) (snd (fst g)) (snd g)
                (time_shift_groups self)
                (fst (select_mode (fst (fst g)) (snd g) f1))) as Hl.
  cbn zeta in Hl.
  destruct (for_each _ _ (fst (select_mode (fst (fst g)) (snd g) f1))) as [f3 [[]|e]];
    [|discriminate].
  cbn [fst snd] in Hl, Hf'. subst f3.
  destruct Hl as (_ & _ & _ & Hall & Hlast & _).
  cbn [obs] in Ho. rewrite Ho in Hall, Hlast.
  intros i g0 Hlg.
  destruct (Hlast i g0 Hlg) as (si & di & sr & _ & _ & _ & Hsi' & _).
  destruct (last_group_some _ _ _ _ Hlg) as (Hin & _).
  destruct (Hall g0 Hin) as (res & Hsearch & Hlen & _).
  assert (Ham : group_argmax (traces d)
                  (traces (syn (fst (select_mode (fst (fst g)) (snd g) f1))))
                  (time_shift_mode (obs (fst (select_mode (fst (fst g)) (snd g) f1))))
                  (snd g) g0 = 0%Z).
  { unfold group_argmax. rewrite Hsearch. cbn [fst].
    rewrite Hpad in Hlen. change (Z.to_nat (2 * 0 + 1)) with 1%nat in Hlen.
    assert (Hne : res <> []) by (intros ->; discriminate).
    pose proof (argmax_bound res Hne). lia. }
  rewrite Ham, Hpad, Hnpts in Hsi'.
  eexists; eexists. split; [exact Hsi'|].
  cbn [time_shift time_shift_group start stop set_alignment].
  split; [reflexivity|]. split.
  { unfold lag_time_shift. cbn [Z.sub Z.opp Z.add inject_Z]. ring. }
  split; [reflexivity|]. split; [reflexivity|].
  unfold slice_stop. f_equal; lia.
Qed.

Lemma no_shift_without_time_shift_max_witness :
  exists d' s',
    nth_error (stations_after (call power_order1 no_shift [observed_zn] [synthetic_zn])) 0
      = Some (d', s') /\
    forall i g, last_group (traces observed_zn) (time_shift_groups no_shift) i = Some g ->
      exists si' ts,
        nth_error (traces s') i = Some si' /\
        time_shift si' = Some ts /\ ts == 0 /\
        time_shift_group si' = Some g /\
        start si' = Some 0%Z /\
        stop si' = Some (Z.of_nat (length (data (record [1; 2] "BHZ" (Some 1))))).
Proof.
  apply (no_shift_without_time_shift_max power_order1 no_shift
           [observed_zn] [synthetic_zn] 0 observed_zn synthetic_zn
           (record [1; 2] "BHZ" (Some 1)) 0);
    reflexivity.
Defined.

(** X18. The pass over one group writes to the records that the group
    selects and to no other: whatever its outcome, the observed and the
    synthetic record at an index that the group does not select are as
    before. *)
Theorem group_writes_its_records_only (power : Q -> Q -> Q) (self : Misfit)
    (npts : Z) (dt : Q) (npts_padding : Z) (group : string) (f : Frame) (j : nat) :
  selected (traces (obs f)) group j = false ->
  nth_error (traces (obs (fst (shift_group power self npts dt npts_padding group f)))) j
    = nth_error (traces (obs f)) j /\
  nth_error (traces (syn (fst (shift_group power self npts dt npts_padding group f)))) j
    = nth_error (traces (syn f)) j.
Proof.
  intros H.
  pose proof (shift_group_effect power self npts dt npts_padding group f) as He.
  cbn zeta in He. destruct He as (_ & Hout & _). apply Hout. exact H.
Qed.

Lemma group_writes_its_records_only_witness :
  nth_error (traces (obs (fst (shift_group power_order1 no_shift 2 1 0 "ZRT"
                                 (mkFrame observed_zn synthetic_zn 0 []))))) 1
    = nth_error (traces observed_zn) 1 /\
  nth_error (traces (syn (fst (shift_group power_order1 no_shift 2 1 0 "ZRT"
                                 (mkFrame observed_zn synthetic_zn 0 []))))) 1
    = nth_error (traces synthetic_zn) 1.
Proof.
  apply (group_writes_its_records_only power_order1 no_shift 2 1 0 "ZRT"
           (mkFrame observed_zn synthetic_zn 0 []) 1).
  reflexivity.
Defined.

(** X19. Whatever its outcome, a call leaves the samples, the [stats]
    and the weight of every observed record as they were, and changes the
    samples of a synthetic record by zero padding at both ends only. *)
Theorem call_preserves_inputs (power : Q -> Q -> Q) (self : Misfit)
    (observations synthetics : list Dataset) :
  Forall2 (fun ds ds' =>
             Forall2 same_core (traces (fst ds)) (traces (fst ds')) /\
             Forall2 padded_core (traces (snd ds)) (traces (snd ds')))
          (combine observations synthetics)
          (stations_after (call power self observations synthetics)).
Proof.
  unfold call. cbn [stations_after].
  apply (station_loop_inputs power self (combine observations synthetics) 0 []).
Qed.

(** X20. The station loop is a [zip]: it visits as many stations as the
    shorter of the two lists has, and what either list holds beyond that
    has no effect on the call. *)
Theorem surplus_stations_ignored (power : Q -> Q -> Q) (self : Misfit)
    (observations synthetics : list Dataset) :
  let n := Nat.min (length observations) (length synthetics) in
  length (stations_after (call power self observations synthetics)) = n /\
  call power self observations synthetics
    = call power self (firstn n observations) (firstn n synthetics).
Proof.
  cbn zeta. split.
  - destruct (station_loop_inputs power self (combine observations synthetics) 0 [])
      as (H & _).
    apply Forall2_length in H. unfold call. cbn [stations_after].
    rewrite <- H. apply length_combine.
  - unfold call. rewrite <- combine_firstn.
    rewrite firstn_all2 by (rewrite length_combine; lia). reflexivity.
Qed.

(** X21. The evaluator calls [warnings.warn] with the padding message
    only (lines 82-84), at most once for each station that it visits,
    whatever the number of groups and records.  The warnings that numpy
    itself may issue on overflow are not among these messages. *)
Theorem warnings_are_padding_warnings (power : Q -> Q -> Q) (self : Misfit)
    (observations synthetics : list Dataset) :
  Forall (eq padding_warning) (warned (call power self observations synthetics)) /\
  (length (warned (call power self observations synthetics))
     <= Nat.min (length observations) (length synthetics))%nat.
Proof.
  unfold call. cbn [warned].
  destruct (station_loop_inputs power self (combine observations synthetics) 0 [])
    as (_ & extra & E1 & E2 & E3).
  cbn [app] in E1. rewrite E1. split; [exact E2|].
  rewrite length_combine in E3. exact E3.
Qed.

(** X22. A record that a group selects must have a [weight] attribute
    and a synthetic record at its index: the test of line 122 lets a
    record without [weight] through, and line 161 reads the attribute,
    so the call then ends in an exception. *)
Theorem selected_record_needs_weight (power : Q -> Q -> Q) (self : Misfit)
    (observations synthetics : list Dataset) (k : nat) (d s : Dataset)
    (i : nat) (di : Trace) (group : string) :
  nth_error observations k = Some d ->
  nth_error synthetics k = Some s ->
  In group (time_shift_groups self) ->
  selected (traces d) group i = true ->
  nth_error (traces d) i = Some di ->
  weight di = None \/ nth_error (traces s) i = None ->
  exists e, returned (call power self observations synthetics) = Raise e.
Proof.
  intros Hd Hs Hin Hsel Hi Hmiss.
  destruct (returned (call power self observations synthetics)) as [v|e] eqn:Hret;
    [exfalso|exists e; reflexivity].
  destruct (call_stations power self observations synthetics) as (_ & Hc).
  specialize (Hc v Hret).
  pose proof (nth_error_combine _ _ _ _ _ _ _ Hd Hs) as Hk.
  destruct (Forall2_nth_error _ _ _ _ _ _ _ Hc Hk)
    as ([d' s'] & Hk' & total & w & f' & Hrun & Heq).
  cbn [fst snd] in Hrun.
  pose proof (station_frames power self (mkFrame d s total w)) as Hf.
  cbn zeta in Hf. rewrite Hrun in Hf. cbn [fst] in Hf.
  pose proof (FieldClaims.prepare_records self (mkFrame d s total w)) as Hrec.
  rewrite station_run, waveforms_run in Hrun.
  destruct (prepare self (mkFrame d s total w)) as [f1 [g|e]]; [|discriminate].
  destruct (Hrec f1 g eq_refl) as (_ & _ & Hrec'). clear Hrec.
  destruct Hf as (Hf' & Ho & Hsy & _).
  pose proof (groups_loop power self (fst (fst g)) (snd (fst g)) (snd g)
                (time_shift_groups self)
                (fst (select_mode (fst (fst g)) (snd g) f1))) as Hl.
  cbn zeta in Hl.
  destruct (for_each _ _ (fst (select_mode (fst (fst g)) (snd g) f1))) as [f3 [[]|e]];
    [|discriminate].
  cbn [fst snd] in Hl.
  destruct Hl as (_ & _ & _ & Hall & _).
  cbn [obs] in Ho. rewrite Ho, Hsy in Hall.
  destruct (Hall group Hin) as (res & _ & _ & Hrecs).
  destruct (Hrecs i Hsel) as (si & di' & sr & w' & Hsi & Hdi & Hw & _).
  rewrite Hi in Hdi. injection Hdi as <-.
  destruct Hmiss as [Hmiss|Hmiss]; [congruence|].
  specialize (Hrec' i). rewrite Hsi in Hrec'. cbn [syn] in Hrec'.
  destruct Hrec' as (t & Ht & _). congruence.
Qed.

Lemma selected_record_needs_weight_witness :
  exists e,
    returned (call power_order1 no_shift [observed_unweighted] [synthetic_z]) = Raise e.
Proof.
  apply (selected_record_needs_weight power_order1 no_shift
           [observed_unweighted] [synthetic_z] 0 observed_unweighted synthetic_z 0
           (record [1; 2] "BHZ" None) "ZRT");
    try reflexivity.
  - left. reflexivity.
  - left. reflexivity.
Defined.

End InputProperties.
(** ** Padding in advance *)

Module ObliviousFacts.

Import NumPy Cap Frames Oblivious CapFacts SearchFacts AlignFacts StationFacts.

Lemma oblivious_bind (A B : Type) (m : M A) (k : A -> M B) :
  oblivious m -> (forall a, oblivious (k a)) -> oblivious (bind m k).
Proof.
  intros Hm Hk f g Hfg. rewrite !bind_run.
  destruct (Hm f g Hfg) as [H1 H2].
  destruct (m f) as [f' [a|e]], (m g) as [g' [a'|e']]; cbn [fst snd] in *;
    try discriminate.
  - injection H2 as <-. apply Hk. exact H1.
  - split; [assumption|congruence].
Qed.

Lemma oblivious_ret (A : Type) (a : A) : oblivious (ret a).
Proof. intros f g H. split; [exact H|reflexivity]. Qed.

Lemma oblivious_raise (A : Type) (e : exn) : oblivious (@raise A e).
Proof. intros f g H. split; [exact H|reflexivity]. Qed.

Lemma oblivious_lift (A : Type) (r : result A) : oblivious (lift r).
Proof. intros f g H. split; [exact H|reflexivity]. Qed.

Lemma oblivious_get_d (i : nat) : oblivious (get_d i).
Proof.
  intros f g H. split; [exact H|]. destruct H as (Ho & _).
  unfold get_d. cbn [snd]. rewrite Ho. reflexivity.
Qed.

Lemma oblivious_get_s (i : nat) : oblivious (get_s i).
Proof.
  intros f g H. split; [exact H|]. destruct H as (_ & Hs & _).
  unfold get_s. cbn [snd]. rewrite Hs. reflexivity.
Qed.

Lemma oblivious_modify_d (i : nat) (h : Trace -> Trace) : oblivious (modify_d i h).
Proof.
  intros f g (Ho & Hs & Hm). unfold modify_d. rewrite Ho.
  destruct (nth_error (traces (obs g)) i); cbn [fst snd].
  - split; [|reflexivity]. repeat split; cbn [obs syn sum_misfit]; congruence.
  - split; [|reflexivity]. repeat split; assumption.
Qed.

Lemma oblivious_modify_s (i : nat) (h : Trace -> Trace) : oblivious (modify_s i h).
Proof.
  intros f g (Ho & Hs & Hm). unfold modify_s. rewrite Hs.
  destruct (nth_error (traces (syn g)) i); cbn [fst snd].
  - split; [|reflexivity]. repeat split; cbn [obs syn sum_misfit]; congruence.
  - split; [|reflexivity]. repeat split; assumption.
Qed.

Lemma oblivious_add_misfit (x : Q) : oblivious (add_misfit x).
Proof.
  intros f g (Ho & Hs & Hm). unfold add_misfit. cbn [fst snd].
  split; [|reflexivity]. repeat split; cbn [obs syn sum_misfit]; congruence.
Qed.

Lemma oblivious_for_each (A : Type) (l : list A) (body : A -> M unit) :
  (forall x, oblivious (body x)) -> oblivious (for_each l body).
Proof.
  intros H. induction l as [|x l IH]; cbn [for_each].
  - apply oblivious_ret.
  - apply oblivious_bind; [apply H|intros _; exact IH].
Qed.

Section WithPower.

Variable power : Q -> Q -> Q.

Lemma oblivious_align (p dt ts : Q) (group : string) (i0 i1 : Z) (i : nat) :
  oblivious (align power p dt ts group i0 i1 i).
Proof.
  unfold align.
  apply oblivious_bind; [apply oblivious_modify_s|intros _].
  apply oblivious_bind; [apply oblivious_get_s|intros si].
  apply oblivious_bind; [apply oblivious_get_d|intros di].
  apply oblivious_bind; [apply oblivious_lift|intros sr].
  apply oblivious_bind; [apply oblivious_modify_d|intros _].
  apply oblivious_bind; [apply oblivious_get_d|intros di'].
  destruct (weight di'); [apply oblivious_add_misfit|apply oblivious_raise].
Qed.

Lemma oblivious_shift_group (self : Misfit) (npts : Z) (dt : Q) (pad : Z) (group : string) :
  oblivious (shift_group power self npts dt pad group).
Proof.
  intros f g Hfg. rewrite !shift_group_run.
  destruct (2 * pad + 1 <? 0)%Z; [split; [exact Hfg|reflexivity]|].
  pose proof Hfg as (Ho & Hs & _). rewrite Ho, Hs.
  destruct (lag_search _ _ _ _ _ _) as [found|e]; [|split; [exact Hfg|reflexivity]].
  apply oblivious_for_each; [|exact Hfg]. intros i. apply oblivious_align.
Qed.

(** Part 2 and part 3 of one station, from two frames that part 1 left
    different in their warnings only. *)
Lemma station_after_prepare (self : Misfit) (f fp f1 fp1 : Frame) (g : Z * Q * Z) :
  prepare self f = (f1, Ok g) ->
  prepare self fp = (fp1, Ok g) ->
  same_but_warnings f1 fp1 ->
  same_but_warnings (fst (station power self f)) (fst (station power self fp)) /\
  snd (station power self f) = snd (station power self fp).
Proof.
  intros H1 H2 Hsame. rewrite !station_run, !waveforms_run, H1, H2.
  rewrite !select_mode_run. cbn [fst].
  set (f2 := match time_shift_mode (obs f1) with Some _ => f1 | None => _ end).
  set (fp2 := match time_shift_mode (obs fp1) with Some _ => fp1 | None => _ end).
  assert (H2' : same_but_warnings f2 fp2).
  { unfold f2, fp2. destruct Hsame as (Ho & Hs & Hm). rewrite Ho.
    destruct (time_shift_mode (obs fp1)); repeat split; cbn [obs syn sum_misfit];
      congruence. }
  destruct (oblivious_for_each _ (time_shift_groups self)
              (shift_group power self (fst (fst g)) (snd (fst g)) (snd g))
              (fun group => oblivious_shift_group self _ _ _ group) f2 fp2 H2')
    as (Hf & Hr).
  destruct (for_each _ _ f2) as [f3 [[]|e]], (for_each _ _ fp2) as [fp3 [[]|e']];
    cbn [fst snd] in *; try discriminate.
  - destruct (Qlt_le_dec 0 (polarity_weight self)); split; auto.
  - split; assumption.
Qed.

Lemma set_data_same (t : Trace) : set_data t (data t ++ [])%list = t.
Proof. rewrite app_nil_r. destruct t; reflexivity. Qed.

Lemma padded_by_nothing (self : Misfit) (d s : Dataset) (d0 : Trace) :
  nth_error (traces d) 0 = Some d0 ->
  Z.to_nat (py_round (time_shift_max self / delta (stats d0))) = O ->
  padded_in_advance self d s = s.
Proof.
  intros Hd0 Hn. unfold padded_in_advance. rewrite Hd0. cbn zeta. rewrite Hn.
  cbn [repeat app].
  assert (Hm : map (fun t => set_data t (data t ++ [])%list) (traces s) = traces s).
  { induction (traces s) as [|t l IH]; cbn [map]; [reflexivity|].
    rewrite set_data_same, IH. reflexivity. }
  rewrite Hm. destruct s; reflexivity.
Qed.

(** One station, its synthetics as given or padded in advance. *)
Lemma station_padded (self : Misfit) (d s : Dataset) (total : Q) (w w' : list string) :
  unpadded (d, s) = true ->
  let r := station power self (mkFrame d s total w) in
  let r' := station power self (mkFrame d (padded_in_advance self d s) total w') in
  snd r' = snd r /\
  (forall u, snd r = Ok u -> same_but_warnings (fst r) (fst r')).
Proof.
  intros Hu. cbn zeta. unfold unpadded in Hu. cbn [fst snd] in Hu.
  destruct (nth_error (traces d) 0) as [d0|] eqn:Hd0; [|discriminate].
  destruct (nth_error (traces s) 0) as [s0|] eqn:Hs0; [|discriminate].
  apply Nat.eqb_eq in Hu.
  set (pad := py_round (time_shift_max self / delta (stats d0))).
  assert (Hs0' : nth_error (traces (padded_in_advance self d s)) 0
                 = Some (set_data s0 (repeat 0 (Z.to_nat pad) ++ data s0
                                        ++ repeat 0 (Z.to_nat pad))%list)).
  { unfold padded_in_advance. rewrite Hd0. cbn zeta. cbn [set_traces traces].
    destruct (traces s) as [|t l]; [discriminate|].
    cbn [nth_error] in Hs0. injection Hs0 as ->. reflexivity. }
  pose proof (prepare_run self (mkFrame d s total w)) as Hp.
  pose proof (prepare_run self (mkFrame d (padded_in_advance self d s) total w')) as Hp'.
  cbn [obs syn] in Hp, Hp'.
  rewrite Hd0, Hs0 in Hp. rewrite Hd0, Hs0' in Hp'. cbn zeta in Hp, Hp'.
  cbn [data set_data] in Hp'.
  destruct (Qeq_bool (delta (stats d0)) 0).
  { rewrite !station_run, !waveforms_run, Hp, Hp'. cbn [snd].
    split; [reflexivity|discriminate]. }
  fold pad in Hp, Hp'.
  rewrite !length_app, !repeat_length in Hp'.
  destruct (Z_lt_le_dec pad 0) as [Hneg|Hpos].
  - (* a negative padding: [np.pad] fails on both sides *)
    replace (Z.of_nat (length (data s0)) - Z.of_nat (length (data d0)) =? 2 * pad)%Z
      with false in Hp by (symmetry; apply Z.eqb_neq; lia).
    replace (Z.of_nat (length (data d0)) =? Z.of_nat (length (data s0)))%Z
      with true in Hp by (symmetry; apply Z.eqb_eq; lia).
    replace (Z.of_nat (Z.to_nat pad + (length (data s0) + Z.to_nat pad))
             - Z.of_nat (length (data d0)) =? 2 * pad)%Z
      with false in Hp' by (symmetry; apply Z.eqb_neq; lia).
    replace (Z.of_nat (length (data d0))
             =? Z.of_nat (Z.to_nat pad + (length (data s0) + Z.to_nat pad)))%Z
      with true in Hp' by (symmetry; apply Z.eqb_eq; lia).
    rewrite pad_traces_run in Hp, Hp'.
    replace (pad <? 0)%Z with true in Hp, Hp' by (symmetry; apply Z.ltb_lt; lia).
    destruct (traces (padded_in_advance self d s)) as [|t' l']; [discriminate|].
    destruct (traces s) as [|t l]; [discriminate|].
    rewrite !station_run, !waveforms_run, Hp, Hp'. cbn [snd].
    split; [reflexivity|discriminate].
  - destruct (Z.eq_dec pad 0) as [Hzero|Hnz].
    + (* no padding asked for *)
      assert (E : padded_in_advance self d s = s).
      { apply (padded_by_nothing self d s d0 Hd0). fold pad. lia. }
      replace (Z.of_nat (length (data s0)) - Z.of_nat (length (data d0)) =? 2 * pad)%Z
        with true in Hp by (symmetry; apply Z.eqb_eq; lia).
      replace (Z.of_nat (Z.to_nat pad + (length (data s0) + Z.to_nat pad))
               - Z.of_nat (length (data d0)) =? 2 * pad)%Z
        with true in Hp' by (symmetry; apply Z.eqb_eq; lia).
      assert (Hsame : same_but_warnings (mkFrame d s total w)
                        (mkFrame d (padded_in_advance self d s) total w')).
      { rewrite E. repeat split. }
      destruct (station_after_prepare self _ _ _ _ _ Hp Hp' Hsame) as (A & B).
      split; [symmetry; exact B|intros _ _; exact A].
    + (* the fallback on one side, test A on the other *)
      replace (Z.of_nat (length (data s0)) - Z.of_nat (length (data d0)) =? 2 * pad)%Z
        with false in Hp by (symmetry; apply Z.eqb_neq; lia).
      replace (Z.of_nat (length (data d0)) =? Z.of_nat (length (data s0)))%Z
        with true in Hp by (symmetry; apply Z.eqb_eq; lia).
      replace (Z.of_nat (Z.to_nat pad + (length (data s0) + Z.to_nat pad))
               - Z.of_nat (length (data d0)) =? 2 * pad)%Z
        with true in Hp' by (symmetry; apply Z.eqb_eq; lia).
      rewrite pad_traces_run in Hp.
      replace (pad <? 0)%Z with false in Hp by (symmetry; apply Z.ltb_ge; lia).
      match type of Hp with _ = (?f1, _) =>
        assert (Hsame : same_but_warnings f1
                          (mkFrame d (padded_in_advance self d s) total w')) end.
      { unfold padded_in_advance. rewrite Hd0. repeat split. }
      destruct (station_after_prepare self _ _ _ _ _ Hp Hp' Hsame) as (A & B).
      split; [symmetry; exact B|intros _ _; exact A].
Qed.

Lemma station_loop_padded (self : Misfit) (pairs : list (Dataset * Dataset)) :
  forallb unpadded pairs = true ->
  forall total w w',
    let o := station_loop power self pairs total w in
    let o' := station_loop power self
                (map (fun ds => (fst ds, padded_in_advance self (fst ds) (snd ds))) pairs)
                total w' in
    returned o' = returned o /\
    (forall v, returned o = Ok v -> stations_after o' = stations_after o).
Proof.
  induction pairs as [|[d s] rest IH]; intros Hall total w w'; cbn zeta.
  - cbn [map station_loop returned stations_after]. split; [reflexivity|reflexivity].
  - cbn [forallb] in Hall. apply andb_true_iff in Hall. destruct Hall as (Hu & Hall).
    cbn [map station_loop fst snd].
    destruct (station_padded self d s total w w' Hu) as (Hr & Hsame).
    cbn zeta in Hr, Hsame.
    destruct (station power self (mkFrame d s total w)) as [f [u|e]];
      destruct (station power self (mkFrame d (padded_in_advance self d s) total w'))
        as [fp [u'|e']]; cbn [fst snd] in Hr, Hsame; try discriminate.
    + destruct (Hsame u eq_refl) as (Ho & Hs & Hm).
      specialize (IH Hall (sum_misfit f) (warnings f) (warnings fp)). cbn zeta in IH.
      rewrite <- Hm. destruct IH as (IH1 & IH2).
      cbn [returned stations_after]. split; [exact IH1|].
      intros v Hv. rewrite (IH2 v Hv), Ho, Hs. reflexivity.
    + cbn [returned stations_after]. split; [congruence|discriminate].
Qed.

Lemma combine_pad_all (self : Misfit) (observations synthetics : list Dataset) :
  combine observations (pad_all self observations synthetics)
  = map (fun ds => (fst ds, padded_in_advance self (fst ds) (snd ds)))
        (combine observations synthetics).
Proof.
  unfold pad_all. revert synthetics.
  induction observations as [|d ds IH]; intros [|s ss]; cbn [combine map fst snd];
    try reflexivity.
  rewrite IH. reflexivity.
Qed.

(** Line 161 runs or not by the observed records alone. *)
Lemma accumulates_observed (self : Misfit) (h : Dataset * Dataset -> Dataset)
    (pairs : list (Dataset * Dataset)) :
  accumulates self (map (fun ds => (fst ds, h ds)) pairs) = accumulates self pairs.
Proof.
  unfold accumulates. induction pairs as [|ds pairs IH]; cbn [map existsb fst].
  - reflexivity.
  - rewrite IH. reflexivity.
Qed.

End WithPower.

End ObliviousFacts.

Module PaddingInAdvance.

Import NumPy Cap Frames Oblivious ObliviousFacts Examples.

(** X23. Padding the synthetics in advance and leaving the padding to
    the call are the same to the result: when no station has padded
    synthetics, the call on the synthetics padded as lines 85-86 pad them
    returns the same value or raises the same exception, and when it
    returns it leaves the same records. *)
Theorem padding_in_advance_is_equivalent (power : Q -> Q -> Q) (self : Misfit)
    (observations synthetics : list Dataset) :
  forallb unpadded (combine observations synthetics) = true ->
  returned (call power self observations (pad_all self observations synthetics))
    = returned (call power self observations synthetics) /\
  forall v, returned (call power self observations synthetics) = Ok v ->
    stations_after (call power self observations (pad_all self observations synthetics))
      = stations_after (call power self observations synthetics).
Proof.
  intros H. unfold call. cbn [returned stations_after].
  rewrite combine_pad_all.
  rewrite (accumulates_observed self
             (fun ds => padded_in_advance self (fst ds) (snd ds))).
  destruct (station_loop_padded power self (combine observations synthetics) H 0 [] [])
    as (Hr & Hs).
  cbn zeta in Hr, Hs. rewrite Hr. split; [reflexivity|].
  intros v Hv.
  destruct (returned (station_loop power self (combine observations synthetics) 0 []))
    as [total|e] eqn:E; [|discriminate].
  apply (Hs total). reflexivity.
Qed.

Lemma padding_in_advance_is_equivalent_witness :
  returned (call power_order1 one_second [observed_z]
              (pad_all one_second [observed_z] [synthetic_z]))
    = returned (call power_order1 one_second [observed_z] [synthetic_z]) /\
  forall v, returned (call power_order1 one_second [observed_z] [synthetic_z]) = Ok v ->
    stations_after (call power_order1 one_second [observed_z]
                      (pad_all one_second [observed_z] [synthetic_z]))
      = stations_after (call power_order1 one_second [observed_z] [synthetic_z]).
Proof.
  apply (padding_in_advance_is_equivalent power_order1 one_second
           [observed_z] [synthetic_z]).
  reflexivity.
Defined.

End PaddingInAdvance.
(** ** The total at the return statement *)

Module TotalFacts.

Import NumPy Cap Frames Oblivious CapFacts SearchFacts AlignFacts StationFacts.
Import InputFacts.

Lemma filter_none (A : Type) (f : A -> bool) (l : list A) :
  existsb f l = false -> filter f l = [].
Proof.
  induction l as [|x l IH]; cbn [existsb filter]; [reflexivity|].
  intros H. apply orb_false_iff in H. destruct H as (Hx & Hl).
  rewrite Hx. apply IH. exact Hl.
Qed.

Lemma existsb_none (A : Type) (f : A -> bool) (l : list A) (x : A) :
  existsb f l = false -> In x l -> f x = false.
Proof.
  intros H Hin. destruct (f x) eqn:E; [|reflexivity].
  assert (Ht : existsb f l = true) by (apply existsb_exists; exists x; split; assumption).
  congruence.
Qed.

Section WithPower.

Variable power : Q -> Q -> Q.

(** A station none of whose records enters [_indices] leaves the running
    total as it found it: line 161 does not run. *)
Lemma station_adds_nothing (self : Misfit) (d s : Dataset) (total : Q)
    (w : list string) (f' : Frame) :
  existsb (fun group => existsb (in_indices d group) (seq 0 (length (traces d))))
          (time_shift_groups self) = false ->
  station power self (mkFrame d s total w) = (f', Ok tt) ->
  sum_misfit f' = total.
Proof.
  intros Hnone Hrun.
  pose proof (station_frames power self (mkFrame d s total w)) as Hf.
  cbn zeta in Hf. rewrite Hrun in Hf. cbn [fst] in Hf.
  pose proof (prepare_effect self (mkFrame d s total w)) as Hp. cbn zeta in Hp.
  rewrite station_run, waveforms_run in Hrun.
  destruct (prepare self (mkFrame d s total w)) as [f1 [g|e]]; [|discriminate].
  cbn [fst snd obs syn sum_misfit] in Hp. destruct Hp as (_ & Hsum1 & _).
  destruct Hf as (Hf' & Ho & _ & _ & Hsum2).
  pose proof (groups_loop power self (fst (fst g)) (snd (fst g)) (snd g)
                (time_shift_groups self)
                (fst (select_mode (fst (fst g)) (snd g) f1))) as Hl.
  cbn zeta in Hl.
  destruct (for_each _ _ (fst (select_mode (fst (fst g)) (snd g) f1))) as [f3 [[]|e]];
    [|discriminate].
  cbn [fst snd] in Hl, Hf'. subst f3.
  destruct Hl as (_ & _ & _ & _ & _ & Hsum).
  cbn [obs] in Ho. rewrite Ho, Hsum2, Hsum1 in Hsum. rewrite Hsum.
  clear Hsum Hrun.
  generalize total.
  induction (time_shift_groups self) as [|group groups IH]; intros acc;
    cbn [fold_left]; [reflexivity|].
  cbn [existsb] in Hnone. apply orb_false_iff in Hnone. destruct Hnone as (Hg & Hrest).
  rewrite (IH Hrest). unfold group_total.
  change (selected (traces d) group) with (in_indices d group).
  rewrite (filter_none _ _ _ Hg). reflexivity.
Qed.

(** A loop that reaches line 173 without line 161 having run returns the
    total with which it started: [sum_misfit] is still the float of line
    62. *)
Lemma loop_adds_nothing (self : Misfit) (pairs : list (Dataset * Dataset)) :
  accumulates self pairs = false ->
  forall total w T,
    returned (station_loop power self pairs total w) = Ok T -> T = total.
Proof.
  unfold accumulates.
  induction pairs as [|[d s] rest IH]; intros Hnone total w T Hret.
  - cbn [station_loop returned] in Hret. congruence.
  - cbn [existsb fst] in Hnone. apply orb_false_iff in Hnone.
    destruct Hnone as (Hd & Hrest).
    cbn [station_loop] in Hret.
    destruct (station power self (mkFrame d s total w)) as [f [[]|e]] eqn:Hrun;
      cbn [returned] in Hret; [|discriminate].
    rewrite (IH Hrest _ _ _ Hret).
    apply (station_adds_nothing self d s total w f Hd Hrun).
Qed.

End WithPower.

End TotalFacts.

(** ** Configurations and stations that a call cannot evaluate *)

Module FailureProperties.

Import NumPy Cap Frames CapFacts SearchFacts AlignFacts StationFacts.
Import InputFacts TotalFacts Examples.

(** X24. A station without observed records, or without synthetic
    records, ends the call with an [IndexError]: nothing is written, and
    the total and the stations that follow are left aside. *)
Theorem station_without_records (power : Q -> Q -> Q) (self : Misfit)
    (d s : Dataset) (rest : list (Dataset * Dataset)) (total : Q) (w : list string) :
  traces d = [] \/ traces s = [] ->
  station_loop power self ((d, s) :: rest) total w
    = mkOutcome (Raise IndexError) ((d, s) :: rest) w.
Proof.
  intros H. cbn [station_loop].
  assert (Hp : prepare self (mkFrame d s total w)
               = (mkFrame d s total w, Raise IndexError)).
  { rewrite prepare_run. cbn [obs syn].
    destruct H as [H|H]; rewrite H; [reflexivity|].
    destruct (nth_error (traces d) 0); reflexivity. }
  rewrite station_run, waveforms_run, Hp. reflexivity.
Qed.

Lemma station_without_records_witness :
  station_loop power_order1 no_shift [(mkDataset [] None, synthetic_z)] 0 []
    = mkOutcome (Raise IndexError) [(mkDataset [] None, synthetic_z)] [].
Proof.
  apply (station_without_records power_order1 no_shift (mkDataset [] None) synthetic_z [] 0 []).
  left. reflexivity.
Defined.

(** X25. A station whose first observed record has the sampling interval
    zero ends the call with a [ZeroDivisionError] at line 75, before
    anything is written. *)
Theorem zero_sampling_interval (power : Q -> Q -> Q) (self : Misfit)
    (d s : Dataset) (d0 s0 : Trace) (rest : list (Dataset * Dataset))
    (total : Q) (w : list string) :
  nth_error (traces d) 0 = Some d0 ->
  nth_error (traces s) 0 = Some s0 ->
  delta (stats d0) == 0 ->
  station_loop power self ((d, s) :: rest) total w
    = mkOutcome (Raise ZeroDivisionError) ((d, s) :: rest) w.
Proof.
  intros Hd Hs Hz. cbn [station_loop].
  assert (Hp : prepare self (mkFrame d s total w)
               = (mkFrame d s total w, Raise ZeroDivisionError)).
  { rewrite prepare_run. cbn [obs syn]. rewrite Hd, Hs. cbn zeta.
    apply Qeq_bool_iff in Hz. rewrite Hz. reflexivity. }
  rewrite station_run, waveforms_run, Hp. reflexivity.
Qed.

Lemma zero_sampling_interval_witness :
  station_loop power_order1 no_shift
    [(mkDataset [mkTrace [1; 2] (mkStats 0 "BHZ") (Some 1) None None None None None] None,
      synthetic_z)] 0 []
    = mkOutcome (Raise ZeroDivisionError)
        [(mkDataset [mkTrace [1; 2] (mkStats 0 "BHZ") (Some 1) None None None None None] None,
          synthetic_z)] [].
Proof.
  apply (zero_sampling_interval power_order1 no_shift
           (mkDataset [mkTrace [1; 2] (mkStats 0 "BHZ") (Some 1) None None None None None] None)
           synthetic_z
           (mkTrace [1; 2] (mkStats 0 "BHZ") (Some 1) None None None None None)
           (record [1; 2] "BHZ" None) [] 0 []);
    reflexivity.
Defined.

(** X26. The constructor takes any norm order, and with the order zero
    no call returns: the station loop runs as usual, writing its fields,
    and the return statement then divides by zero. *)
Theorem zero_norm_order (power : Q -> Q -> Q) (self : Misfit)
    (observations synthetics : list Dataset) :
  order self == 0 ->
  let o := station_loop power self (combine observations synthetics) 0 [] in
  returned (call power self observations synthetics)
    = match returned o with
      | Ok _ => Raise ZeroDivisionError
      | Raise e => Raise e
      end /\
  stations_after (call power self observations synthetics) = stations_after o.
Proof.
  intros Hz. cbn zeta. unfold call. cbn [returned stations_after].
  split; [|reflexivity].
  destruct (returned (station_loop power self (combine observations synthetics) 0 []))
    as [total|e]; cbn [rbind]; [|reflexivity].
  unfold py_div. apply Qeq_bool_iff in Hz. rewrite Hz. reflexivity.
Qed.

Lemma zero_norm_order_witness :
  let o := station_loop power_order1 (mkMisfit 0 0 ["ZRT"%string] 0)
             (combine [observed_z] [synthetic_z]) 0 [] in
  returned (call power_order1 (mkMisfit 0 0 ["ZRT"%string] 0) [observed_z] [synthetic_z])
    = match returned o with
      | Ok _ => Raise ZeroDivisionError
      | Raise e => Raise e
      end /\
  stations_after (call power_order1 (mkMisfit 0 0 ["ZRT"%string] 0)
                    [observed_z] [synthetic_z]) = stations_after o.
Proof.
  apply (zero_norm_order power_order1 (mkMisfit 0 0 ["ZRT"%string] 0)
           [observed_z] [synthetic_z]).
  reflexivity.
Defined.

(** X27. The constructor takes any [time_shift_max], and when at some
    station it rounds to a negative number of samples while there is a
    group to search, the call ends in an exception. *)
Theorem negative_time_shift_max (power : Q -> Q -> Q) (self : Misfit)
    (observations synthetics : list Dataset) (k : nat) (d s : Dataset) (d0 : Trace) :
  nth_error observations k = Some d ->
  nth_error synthetics k = Some s ->
  nth_error (traces d) 0 = Some d0 ->
  time_shift_groups self <> [] ->
  (py_round (time_shift_max self / delta (stats d0)) < 0)%Z ->
  exists e, returned (call power self observations synthetics) = Raise e.
Proof.
  intros Hd Hs Hd0 Hgroups Hneg.
  destruct (returned (call power self observations synthetics)) as [v|e] eqn:Hret;
    [exfalso|exists e; reflexivity].
  destruct (call_stations power self observations synthetics) as (_ & Hc).
  specialize (Hc v Hret).
  pose proof (nth_error_combine _ _ _ _ _ _ _ Hd Hs) as Hk.
  destruct (Forall2_nth_error _ _ _ _ _ _ _ Hc Hk)
    as ([d' s'] & Hk' & total & w & f' & Hrun & Heq).
  cbn [fst snd] in Hrun.
  pose proof (prepare_effect self (mkFrame d s total w)) as Hp. cbn zeta in Hp.
  rewrite station_run, waveforms_run in Hrun.
  destruct (prepare self (mkFrame d s total w)) as [f1 [g|e]]; [|discriminate].
  cbn [fst snd obs syn] in Hp.
  destruct Hp as (_ & _ & _ & d0' & s0 & Hd0' & _ & _ & Hg & _).
  rewrite Hd0 in Hd0'. injection Hd0' as <-.
  pose proof (groups_loop power self (fst (fst g)) (snd (fst g)) (snd g)
                (time_shift_groups self)
                (fst (select_mode (fst (fst g)) (snd g) f1))) as Hl.
  cbn zeta in Hl.
  destruct (for_each _ _ (fst (select_mode (fst (fst g)) (snd g) f1))) as [f3 [[]|e]];
    [|discriminate].
  cbn [fst snd] in Hl.
  destruct Hl as (_ & _ & Hpos & _).
  specialize (Hpos Hgroups). rewrite Hg in Hpos. cbn [snd] in Hpos. lia.
Qed.

Lemma negative_time_shift_max_witness :
  exists e,
    returned (call power_order1 (mkMisfit 1 (-1) ["ZRT"%string] 0)
                [observed_z] [synthetic_z]) = Raise e.
Proof.
  apply (negative_time_shift_max power_order1 (mkMisfit 1 (-1) ["ZRT"%string] 0)
           [observed_z] [synthetic_z] 0 observed_z synthetic_z
           (record [1; 2] "BHZ" (Some 1)));
    try reflexivity.
  discriminate.
Defined.

(** X28. With a negative norm order, a loop in which no group selects a
    record (one over no stations, for one) reaches line 173 with
    [sum_misfit] still the float [0.] of line 62, and [0. ** (1./p)] is a
    [ZeroDivisionError]. *)
Theorem negative_norm_order (power : Q -> Q -> Q) (self : Misfit)
    (observations synthetics : list Dataset) (total : Q) :
  order self < 0 ->
  accumulates self (combine observations synthetics) = false ->
  returned (station_loop power self (combine observations synthetics) 0 []) = Ok total ->
  total = 0 /\
  returned (call power self observations synthetics) = Raise ZeroDivisionError.
Proof.
  intros Hneg Hnone Hloop.
  split; [apply (loop_adds_nothing power self _ Hnone 0 [] total Hloop)|].
  unfold call. cbn [returned]. rewrite Hloop, Hnone. cbn [rbind].
  unfold py_div.
  assert (Hnz : ~ order self == 0).
  { intros E. rewrite E in Hneg. discriminate Hneg. }
  destruct (Qeq_bool (order self) 0) eqn:E;
    [apply Qeq_bool_eq in E; contradiction|].
  cbn [rbind]. unfold power_of_total. cbn [negb andb].
  destruct (Qle_bool 0 (1 / order self)) eqn:Ee; [|reflexivity].
  exfalso. apply Qle_bool_iff in Ee.
  assert (Hone : order self * (1 / order self) == 1) by (field; exact Hnz).
  nra.
Qed.

Lemma negative_norm_order_witness :
  0 = 0 /\
  returned (call power_order1 (mkMisfit (-1) 0 ["ZRT"%string] 0) [] [])
    = Raise ZeroDivisionError.
Proof.
  apply (negative_norm_order power_order1 (mkMisfit (-1) 0 ["ZRT"%string] 0) [] [] 0);
    reflexivity.
Defined.

End FailureProperties.
